(** * Graduate-outcome analytics: a shallow embedding of the statistics engine

    The three analytics modules of the platform are written against pandas
    and numpy.  Data frames are modelled as lists of records, float64
    columns as real numbers (exact arithmetic) extended with the two
    infinities and NaN where the code can produce them, and integer columns
    as [Z] or [nat].  Where rounding decides which branch the code takes,
    the lines concerned are embedded a second time on binary64 floats
    ([Binary64] and the modules after it). *)

From Stdlib Require Import String Reals Lra Lia ZArith Bool Arith List.
From Stdlib Require Import Permutation Sorted.
From Stdlib Require PrimFloat.
Import ListNotations.

Open Scope R_scope.

(** ** Frame primitives shared by the three modules *)

Module Frame.

Section StableSort.
Context {A : Type} (leb : A -> A -> bool).

(** [sort_values]: a stable sort; an element goes in front of the first
    element it does not exceed. *)
Fixpoint insert_by (x : A) (l : list A) : list A :=
  match l with
  | [] => [x]
  | y :: t => if leb x y then x :: y :: t else y :: insert_by x t
  end.

Definition sort_by (l : list A) : list A := fold_right insert_by [] l.
End StableSort.

(** [Series.isin(values)] on a column of strings that may hold nulls. *)
Definition isin (c : option string) (values : list string) : bool :=
  match c with
  | Some s => if in_dec string_dec s values then true else false
  | None => false
  end.

(** The non-null values of a column. *)
Fixpoint dropna_values {A : Type} (l : list (option A)) : list A :=
  match l with
  | [] => []
  | Some a :: t => a :: dropna_values t
  | None :: t => dropna_values t
  end.

(** [Series.unique()] followed by a membership use only: the distinct
    values of a column. *)
Definition unique (l : list string) : list string := nodup string_dec l.

(** How many cells of the column hold the string [s]. *)
Definition count_of (s : string) (l : list string) : nat :=
  count_occ string_dec l s.

(** [Series.value_counts()]: every distinct non-null value with the number of
    rows holding it, most frequent first. *)
Definition value_counts (col : list (option string)) : list (string * nat) :=
  let vals := dropna_values col in
  sort_by (fun a b => Nat.leb (snd b) (snd a))
          (map (fun s => (s, count_of s vals)) (unique vals)).

Section GroupBy.
Context {K V : Type} (eq_dec : forall a b : K, {a = b} + {a <> b}).
Context (leb : K -> K -> bool) (key : V -> K).

(** The group keys of [df.groupby(cols)]: distinct, in sorted order. *)
Definition group_keys (df : list V) : list K :=
  sort_by leb (nodup eq_dec (map key df)).

(** The rows of the group [k], in frame order. *)
Definition members (k : K) (df : list V) : list V :=
  filter (fun v => if eq_dec (key v) k then true else false) df.

Definition groupby (df : list V) : list (K * list V) :=
  map (fun k => (k, members k df)) (group_keys df).
End GroupBy.

(** [DataFrame.head(n)]: the first [n] rows, or all but the last [-n] rows
    for a negative [n]. *)
Definition head {A : Type} (n : Z) (l : list A) : list A :=
  if (0 <=? n)%Z then firstn (Z.to_nat n) l
  else firstn (length l - Z.to_nat (- n)) l.

End Frame.

(** ** UniversityComparisonAnalytics.py *)

Module UniversityComparison.
Import Frame.

Definition COMMON_START_YEAR : Z := 2015.
Definition COMMON_END_YEAR : Z := 2022.
Definition MIN_RECORDS : nat := 40.

(** One survey row, with the columns [load_data] reads. *)
Record record := mk_record {
  year : option Z;
  university : option string;
  course_category : option string;
  course : option string
}.

(** [(df['year'] >= year_start) & (df['year'] <= year_end)]; a null year
    compares false. *)
Definition year_between (year_start year_end : Z) (r : record) : bool :=
  match year r with
  | Some y => (year_start <=? y)%Z && (y <=? year_end)%Z
  | None => false
  end.

(** The frame after the year, university and category filters of
    [load_data]; an empty or absent list applies no filter. *)
Definition apply_filters (csv : list record) (year_start year_end : Z)
    (universities categories : option (list string)) : list record :=
  let df := filter (year_between year_start year_end) csv in
  let df := match universities with
            | Some (u :: us) => filter (fun r => isin (university r) (u :: us)) df
            | _ => df
            end in
  let df := match categories with
            | Some (c :: cs) => filter (fun r => isin (course_category r) (c :: cs)) df
            | _ => df
            end in
  df.

(** [uni_counts[uni_counts >= MIN_RECORDS].index.tolist()] *)
Definition major_unis (df : list record) : list string :=
  map fst (filter (fun p => Nat.leb MIN_RECORDS (snd p))
                  (value_counts (map university df))).

Definition load_data (csv : list record) (year_start year_end : Z)
    (universities categories : option (list string)) : list record :=
  let df := apply_filters csv year_start year_end universities categories in
  filter (fun r => isin (university r) (major_unis df)) df.

(** Rows of a frame whose university is [u]. *)
Definition rows_of (u : string) (df : list record) : nat :=
  count_of u (dropna_values (map university df)).

End UniversityComparison.

(** ** numpy and pandas arithmetic on float64, in exact arithmetic *)

Module Np.

(** A float64 cell: a real number, an infinity, or NaN. *)
Inductive float64 : Type :=
| Fin (r : R)
| PInf
| NInf
| NaN.

Definition Rleb (x y : R) : bool := if Rle_dec x y then true else false.
Definition Rltb (x y : R) : bool := if Rlt_dec x y then true else false.
Definition Reqb (x y : R) : bool := if Req_dec_T x y then true else false.

Definition float64_eq_dec (a b : float64) : {a = b} + {a <> b}.
Proof.
  destruct a as [x| | |], b as [y| | |];
    try (right; discriminate); try (left; reflexivity).
  destruct (Req_dec_T x y) as [E|N].
  - left. now rewrite E.
  - right. intros [= H]. contradiction.
Defined.

(** IEEE [<] and [==]: every comparison with NaN is false. *)
Definition flt (a b : float64) : bool :=
  match a, b with
  | Fin x, Fin y => Rltb x y
  | NInf, Fin _ | NInf, PInf | Fin _, PInf => true
  | _, _ => false
  end.

Definition feq (a b : float64) : bool :=
  match a, b with
  | Fin x, Fin y => Reqb x y
  | PInf, PInf | NInf, NInf => true
  | _, _ => false
  end.

(** [a >= b] for a cell [a] and a finite threshold [b]. *)
Definition fge_real (a : float64) (b : R) : bool :=
  match a with
  | Fin x => Rleb b x
  | PInf => true
  | NInf | NaN => false
  end.

Definition fsub (a b : float64) : float64 :=
  match a, b with
  | NaN, _ | _, NaN => NaN
  | Fin x, Fin y => Fin (x - y)
  | PInf, PInf | NInf, NInf => NaN
  | PInf, _ | _, NInf => PInf
  | NInf, _ | _, PInf => NInf
  end.

(** The sign a quotient by zero or of infinities takes. *)
Definition signed_inf (positive : bool) : float64 :=
  if positive then PInf else NInf.

(** Division as numpy performs it: a non-zero number over zero is an
    infinity, zero over zero and infinity over infinity are NaN. *)
Definition fdiv (a b : float64) : float64 :=
  match a, b with
  | NaN, _ | _, NaN => NaN
  | Fin x, Fin y =>
      if Req_dec_T y 0 then
        if Req_dec_T x 0 then NaN else signed_inf (Rltb 0 x)
      else Fin (x / y)
  | Fin _, PInf | Fin _, NInf => Fin 0
  | PInf, Fin y => signed_inf (Rleb 0 y)
  | NInf, Fin y => signed_inf (negb (Rleb 0 y))
  | _, _ => NaN
  end.

(** [Series.where(cond, np.nan)] on one cell. *)
Definition where_ (cond : bool) (a : float64) : float64 :=
  if cond then a else NaN.

(** [Series.fillna(v)] on one cell. *)
Definition fillna (v : R) (a : float64) : float64 :=
  match a with
  | NaN => Fin v
  | _ => a
  end.

(** [np.sqrt]: NaN below zero. *)
Definition np_sqrt (x : R) : float64 :=
  if Rlt_dec x 0 then NaN else Fin (sqrt x).

Definition rsum (l : list R) : R := fold_right Rplus 0 l.
Arguments rsum : simpl never.

(** [len(a)] as a float. *)
Definition len (l : list R) : R := INR (length l).

(** [np.mean(a)] and the pandas ["mean"] aggregate, for a non-empty array. *)
Definition np_mean (l : list R) : R := rsum l / len l.

(** Sum of squared deviations from the mean. *)
Definition ssd (l : list R) : R :=
  rsum (map (fun v => (v - np_mean l) * (v - np_mean l)) l).

(** [np.std(a, ddof=0)]: divisor [len(a)]. *)
Definition np_std (l : list R) : R := sqrt (ssd l / len l).

(** The pandas ["std"] aggregate, whose default is [ddof=1]: divisor
    [len(a) - 1], and NaN for fewer than two values. *)
Definition pd_std (l : list R) : float64 :=
  if (length l <=? 1)%nat then NaN else Fin (sqrt (ssd l / (len l - 1))).

(** [float(np.mean(a))] and [float(np.std(a, ddof=0))] of an array that may
    be empty: numpy answers NaN for the empty array. *)
Definition np_mean_f (l : list R) : float64 :=
  match l with [] => NaN | _ => Fin (np_mean l) end.

Definition np_std_f (l : list R) : float64 :=
  match l with [] => NaN | _ => Fin (np_std l) end.

(** Element-wise product of two arrays. *)
Definition mul_arrays (a b : list R) : list R :=
  map (fun p => fst p * snd p) (combine a b).

End Np.

(** ** RelativePerformanceIndexAnalytics.py *)

Module RelativePerformanceIndex.
Import Frame Np.

(** One row of the frame [load_data] returns, reduced to the cells the
    computation reads: the cell under ["year"], the cell under
    [salary_column] and the cells under the [group_by] columns.  [None] is a
    null cell (for the two numeric columns also a cell that [to_numeric]
    coerces to NaN; for the group columns, a null in any of them). *)
Record row := mk_row {
  year_cell : option Z;
  salary_cell : option R;
  group_cells : option (list string)
}.

Record frame := mk_frame {
  columns : list string;
  rows : list row
}.

(** What a call ends in: a result, the [ValueError] raised for missing
    required columns, or the [KeyError] pandas raises when columns are
    selected from a frame that lacks all of them. *)
Inductive outcome (A : Type) : Type :=
| Ok (a : A)
| ValueError (missing_required : list string)
| KeyError (labels : list string).
Arguments Ok {A} a.
Arguments ValueError {A} missing_required.
Arguments KeyError {A} labels.

Definition _weighted_mean_std (values weights : list R) : float64 * float64 :=
  let w_sum := rsum weights in
  if Rle_dec w_sum 0 then (np_mean_f values, np_std_f values)
  else
    let mean := rsum (mul_arrays weights values) / w_sum in
    let var :=
      rsum (mul_arrays weights
              (map (fun v => (v - mean) * (v - mean)) values)) / w_sum in
    (Fin mean, np_sqrt var).

(** [required = ["year", salary_column, *group_by]] and the columns of it
    the frame lacks, in that order. *)
Definition required (salary_column : string) (group_by : list string)
  : list string :=
  "year"%string :: salary_column :: group_by.

Definition missing_required (cols : list string) (salary_column : string)
    (group_by : list string) : list string :=
  filter (fun c => if in_dec string_dec c cols then false else true)
         (required salary_column group_by).

(** The two [dropna] calls around [to_numeric]: rows with a year, a salary
    and every group cell. *)
Definition dropna (rs : list row) : list (Z * list string * R) :=
  flat_map (fun r =>
              match year_cell r, salary_cell r, group_cells r with
              | Some y, Some s, Some g => [(y, g, s)]
              | _, _, _ => []
              end) rs.

Definition group_key : Type := (Z * list string)%type.

Definition group_key_eq_dec (a b : group_key) : {a = b} + {a <> b}.
Proof.
  decide equality.
  - apply (list_eq_dec string_dec).
  - apply Z.eq_dec.
Defined.

(** Tuples of strings in lexicographic order. *)
Fixpoint tuple_leb (a b : list string) : bool :=
  match a, b with
  | [], _ => true
  | _ :: _, [] => false
  | x :: a', y :: b' =>
      match String.compare x y with
      | Lt => true
      | Gt => false
      | Eq => tuple_leb a' b'
      end
  end.

Definition group_key_leb (a b : group_key) : bool :=
  (fst a <? fst b)%Z || ((fst a =? fst b)%Z && tuple_leb (snd a) (snd b)).

(** A row of [agg]: one (year, group) with its mean salary and row count. *)
Record agg_row := mk_agg {
  year : Z;
  group : list string;
  mean_salary : R;
  sample_size : nat
}.

(** [df.groupby(group_cols, as_index=False).agg(mean_salary=..., sample_size=...)] *)
Definition aggregate (df : list (Z * list string * R)) : list agg_row :=
  map (fun g =>
         mk_agg (fst (fst g)) (snd (fst g))
                (np_mean (map snd (snd g))) (length (snd g)))
      (groupby group_key_eq_dec group_key_leb fst df).

Definition filter_min_sample_size (min_sample_size : Z) (agg : list agg_row)
  : list agg_row :=
  if (0 <? min_sample_size)%Z
  then filter (fun a => (min_sample_size <=? Z.of_nat (sample_size a))%Z) agg
  else agg.

Record year_stat := mk_year_stat {
  ys_year : Z;
  ys_year_mean : float64;
  ys_year_std : float64;
  ys_n_groups : nat;
  ys_weight_mode : string
}.

(** [sorted(agg["year"].unique().tolist())] *)
Definition years_of (agg : list agg_row) : list Z :=
  sort_by Z.leb (nodup Z.eq_dec (map year agg)).

(** The groups of year [y]: [agg[agg["year"] == y]]. *)
Definition sub_of (agg : list agg_row) (y : Z) : list agg_row :=
  filter (fun a => (year a =? y)%Z) agg.

(** One pass of the loop that fills [year_stats_rows]. *)
Definition year_stats_row (weight_mode : string) (agg : list agg_row) (y : Z)
  : year_stat :=
  let sub := sub_of agg y in
  let vals := map mean_salary sub in
  let stats :=
    if String.eqb weight_mode "sample_size"
    then _weighted_mean_std vals (map (fun a => INR (sample_size a)) sub)
    else (np_mean_f vals, np_std_f vals) in
  mk_year_stat y (fst stats) (snd stats) (length sub) weight_mode.

Definition year_stats_of (weight_mode : string) (agg : list agg_row)
  : list year_stat :=
  map (year_stats_row weight_mode agg) (years_of agg).

(** A row of [out]: the [agg] row, the merged baseline of its year, and the
    columns computed from them. *)
Record out_row := mk_out {
  base : agg_row;
  year_mean : float64;
  year_std : float64;
  n_groups : option nat;
  year_std_safe : float64;
  z_score : float64;
  rank : Z;
  percentile : R
}.

(** [rank(method="dense", ascending=False).astype(int)] of [z] within its
    year: one more than the number of distinct larger scores. *)
Definition dense_rank (zs : list float64) (z : float64) : Z :=
  Z.of_nat (1 + length (nodup float64_eq_dec (filter (fun v => flt z v) zs))).

(** [rank(method="average", ascending=True, pct=True)] of [z] within its
    year: the mean of the positions its ties occupy, over the group size. *)
Definition pct_rank (zs : list float64) (z : float64) : R :=
  (INR (length (filter (fun v => flt v z) zs))
   + (INR (length (filter (feq z) zs)) + 1) / 2) / INR (length zs).

(** [agg.merge(year_stats[...], on="year", how="left")]: the baseline row
    of the year of [a], if [year_stats] has one. *)
Definition merged (stats : list year_stat) (a : agg_row) : option year_stat :=
  find (fun s => (ys_year s =? year a)%Z) stats.

Definition merged_mean (stats : list year_stat) (a : agg_row) : float64 :=
  match merged stats a with Some s => ys_year_mean s | None => NaN end.

Definition merged_std (stats : list year_stat) (a : agg_row) : float64 :=
  match merged stats a with Some s => ys_year_std s | None => NaN end.

Definition merged_n_groups (stats : list year_stat) (a : agg_row) : option nat :=
  match merged stats a with Some s => Some (ys_n_groups s) | None => None end.

(** [out["year_std"].where(out["year_std"] >= zscore_floor_std, np.nan)] *)
Definition std_safe (zscore_floor_std : R) (stats : list year_stat)
    (a : agg_row) : float64 :=
  where_ (fge_real (merged_std stats a) zscore_floor_std) (merged_std stats a).

(** [((mean_salary - year_mean) / year_std_safe).fillna(0.0)] *)
Definition z_score_of (zscore_floor_std : R) (stats : list year_stat)
    (a : agg_row) : float64 :=
  fillna 0 (fdiv (fsub (Fin (mean_salary a)) (merged_mean stats a))
                 (std_safe zscore_floor_std stats a)).

(** Lines 113 to 150: baselines per year, z-scores, ranks and percentiles of
    the groups in [agg]. *)
Definition score_groups (weight_mode : string) (zscore_floor_std : R)
    (agg : list agg_row) : list out_row :=
  let stats := year_stats_of weight_mode agg in
  let z := z_score_of zscore_floor_std stats in
  let zs_of y := map z (sub_of agg y) in
  map (fun a =>
         mk_out a (merged_mean stats a) (merged_std stats a)
                (merged_n_groups stats a)
                (std_safe zscore_floor_std stats a)
                (z a)
                (dense_rank (zs_of (year a)) (z a))
                (pct_rank (zs_of (year a)) (z a) * 100))
      agg.

(** [out.sort_values(["year", "rank"])] *)
Definition by_year_rank (a b : out_row) : bool :=
  (year (base a) <? year (base b))%Z
  || ((year (base a) =? year (base b))%Z && (rank a <=? rank b)%Z).

Record result := mk_result {
  table : list out_row;
  year_stats : list year_stat;
  rows_used : nat;
  groups_used : nat
}.

(** [compute_relative_performance_index], on the frame [df] that [load_data]
    returned for the year, university, category and course filters.  When
    no group is left, [year_stats] is built from an empty list of rows and
    has no column, so selecting its four columns for the merge raises.  The
    [course_category] label merged into [agg] when the frame has that column
    and the parameters echoed in [meta] are left out: no computed column
    depends on them. *)
Definition compute_relative_performance_index (df : frame)
    (salary_column : string) (group_by : list string)
    (min_sample_size : Z) (weight_mode : string) (zscore_floor_std : R)
  : outcome result :=
  match missing_required (columns df) salary_column group_by with
  | c :: cs => ValueError (c :: cs)
  | [] =>
      let clean := dropna (rows df) in
      let agg := filter_min_sample_size min_sample_size (aggregate clean) in
      match year_stats_of weight_mode agg with
      | [] => KeyError ["year"; "year_mean"; "year_std"; "n_groups"]%string
      | s :: ss =>
          let out := score_groups weight_mode zscore_floor_std agg in
          Ok (mk_result (sort_by by_year_rank out) (s :: ss)
                        (length clean) (length out))
      end
  end.

(** The three columns of [table] that [select_focus_groups] reads: the group
    column, ["year"] and ["z_score"]. *)
Record score := mk_score {
  s_group : string;
  s_year : Z;
  s_z_score : R
}.

(** A row of the per-group frame [g]. *)
Record focus_stat := mk_focus_stat {
  f_group : string;
  avg_z : R;
  years : nat
}.

(** [table.groupby(group_col).agg(avg_z=("z_score", "mean"), years=("year", "nunique"))] *)
Definition focus_stats (tbl : list score) : list focus_stat :=
  map (fun g =>
         mk_focus_stat (fst g)
                       (np_mean (map s_z_score (snd g)))
                       (length (nodup Z.eq_dec (map s_year (snd g)))))
      (groupby string_dec String.leb s_group tbl).

(** [sort_values(["avg_z", "years"], ascending=[False, False])]: [a] goes
    no later than [b]. *)
Definition by_avg_z_years (a b : focus_stat) : bool :=
  Rltb (avg_z b) (avg_z a)
  || (Reqb (avg_z a) (avg_z b) && (years b <=? years a)%nat).

Definition select_focus_groups (tbl : list score) (top_k min_years : Z)
    (focus : option (list string)) : list string :=
  match focus with
  | Some (f :: fs) =>
      filter (fun g => if in_dec string_dec g (map s_group tbl) then true else false)
             (f :: fs)
  | _ =>
      let g := focus_stats tbl in
      let g := filter (fun r => (min_years <=? Z.of_nat (years r))%Z) g in
      let g := head top_k (sort_by by_avg_z_years g) in
      map f_group g
  end.

(** Measures of one group over the whole table, used to state what
    [select_focus_groups] returns: the rows of the group, its mean z-score
    and the number of distinct periods it is present in. *)
Definition rows_of_group (tbl : list score) (g : string) : list score :=
  filter (fun r => String.eqb (s_group r) g) tbl.

Definition mean_z_score (tbl : list score) (g : string) : R :=
  np_mean (map s_z_score (rows_of_group tbl g)).

Definition periods_present (tbl : list score) (g : string) : nat :=
  length (nodup Z.eq_dec (map s_year (rows_of_group tbl g))).

(** The row of the per-group frame that belongs to [g]. *)
Definition stat_of (tbl : list score) (g : string) : focus_stat :=
  mk_focus_stat g (mean_z_score tbl g) (periods_present tbl g).

(** [g] ranks no later than [h]: a larger mean z-score, or the same mean
    z-score and at least as many periods. *)
Definition ranks_before (tbl : list score) (g h : string) : Prop :=
  mean_z_score tbl h < mean_z_score tbl g \/
  (mean_z_score tbl g = mean_z_score tbl h /\
   (periods_present tbl h <= periods_present tbl g)%nat).

(** The groups of the table present in at least [min_years] periods. *)
Definition eligible_groups (tbl : list score) (min_years : Z) : list string :=
  filter (fun g => (min_years <=? Z.of_nat (periods_present tbl g))%Z)
         (nodup string_dec (map s_group tbl)).

End RelativePerformanceIndex.

(** Sample frames for the relative performance index. *)

Module RelativePerformanceSamples.
Import RelativePerformanceIndex.

Definition survey_columns : list string :=
  ["year"; "university"; "course"; "course_category";
   "gross_monthly_median"]%string.

(** Two courses in 2020, medians 3000 and 4000. *)
Definition two_courses : frame :=
  mk_frame survey_columns
           [mk_row (Some 2020%Z) (Some 3000) (Some ["Law"%string]);
            mk_row (Some 2020%Z) (Some 4000) (Some ["Arts"%string])].

(** Three courses in 2020 with the same median. *)
Definition three_alike : frame :=
  mk_frame survey_columns
           [mk_row (Some 2020%Z) (Some 3000) (Some ["Law"%string]);
            mk_row (Some 2020%Z) (Some 3000) (Some ["Arts"%string]);
            mk_row (Some 2020%Z) (Some 3000) (Some ["Music"%string])].

(** The aggregate of [two_courses]. *)
Definition two_courses_agg : list agg_row :=
  [mk_agg 2020 ["Arts"%string] 4000 1; mk_agg 2020 ["Law"%string] 3000 1].

(** A score table: Medicine leads but is present in two years only. *)
Definition bump_scores : list score :=
  [mk_score "Medicine" 2020 5; mk_score "Medicine" 2021 5;
   mk_score "Law" 2019 1; mk_score "Law" 2020 1; mk_score "Law" 2021 1;
   mk_score "Arts" 2019 0; mk_score "Arts" 2020 0; mk_score "Arts" 2021 0]%string.

(** The default floor [1e-9]. *)
Definition default_floor : R := / 1000000000.

End RelativePerformanceSamples.

(** ** EmploymentSalaryTradeoffAnalytics.py *)

Module EmploymentSalaryTradeoff.
Import Frame Np.

(** One row of the frame [load_data] returns, with the columns the analysis
    reads; [None] is a null cell. *)
Record row := mk_row {
  employment_rate_overall : option R;
  gross_monthly_median : option R;
  course_category : option string;
  course : option string;
  year : option Z
}.

(** A row that survives
    [dropna(subset=["employment_rate_overall", "gross_monthly_median", "course_category"])]. *)
Record clean_row := mk_clean {
  employment : R;
  salary : R;
  category : string;
  course_cell : option string;
  year_cell : option Z
}.

Definition dropna (df : list row) : list clean_row :=
  flat_map (fun r =>
              match employment_rate_overall r, gross_monthly_median r,
                    course_category r with
              | Some e, Some s, Some c => [mk_clean e s c (course r) (year r)]
              | _, _, _ => []
              end) df.

(** A row of [summary] as the aggregation leaves it. *)
Record summary_row := mk_summary {
  s_course_category : string;
  avg_employment_rate : R;
  avg_median_salary : R;
  employment_rate_std : float64;
  median_salary_std : float64;
  sample_size : nat
}.

(** [df.groupby("course_category", as_index=False).agg(...)]: means with
    ["mean"], deviations with ["std"], the sample size with ["count"] on the
    course column (its non-null cells). *)
Definition aggregate (df : list clean_row) : list summary_row :=
  map (fun g =>
         mk_summary (fst g)
                    (np_mean (map employment (snd g)))
                    (np_mean (map salary (snd g)))
                    (pd_std (map employment (snd g)))
                    (pd_std (map salary (snd g)))
                    (length (dropna_values (map course_cell (snd g)))))
      (groupby string_dec String.leb category df).

Definition filter_min_sample_size (min_sample_size : Z)
    (summary : list summary_row) : list summary_row :=
  if (0 <? min_sample_size)%Z
  then filter (fun g => (min_sample_size <=? Z.of_nat (sample_size g))%Z) summary
  else summary.

(** [summary.sort_values("avg_median_salary", ascending=False)] *)
Definition by_salary_desc (a b : summary_row) : bool :=
  Rleb (avg_median_salary b) (avg_median_salary a).

(** Sum of the products of the deviations of two paired series. *)
Definition scd (x y : list R) : R :=
  rsum (map (fun p => (fst p - np_mean x) * (snd p - np_mean y)) (combine x y)).

(** [DataFrame.corr()] for one pair of columns without nulls: Pearson's
    coefficient, NaN when the divisor is zero. *)
Definition pearson (x y : list R) : float64 :=
  let divisor := sqrt (ssd x * ssd y) in
  if Req_dec_T divisor 0 then NaN else Fin (scd x y / divisor).

Definition unweighted_correlation (summary : list summary_row)
  : option float64 :=
  if (2 <=? length summary)%nat
  then Some (pearson (map avg_employment_rate summary)
                     (map avg_median_salary summary))
  else None.

(** The weighted coefficient of lines 185 to 197, on the three arrays
    [w], [xw] and [yw]. *)
Definition weighted_pearson (w xw yw : list R) : option R :=
  let w_sum := rsum w in
  if Rlt_dec 0 w_sum then
    let x_mean := rsum (mul_arrays w xw) / w_sum in
    let y_mean := rsum (mul_arrays w yw) / w_sum in
    let cov :=
      rsum (mul_arrays w (map (fun p => (fst p - x_mean) * (snd p - y_mean))
                              (combine xw yw))) / w_sum in
    let var_x :=
      rsum (mul_arrays w (map (fun x => (x - x_mean) * (x - x_mean)) xw)) / w_sum in
    let var_y :=
      rsum (mul_arrays w (map (fun y => (y - y_mean) * (y - y_mean)) yw)) / w_sum in
    if Rlt_dec 0 var_x then
      if Rlt_dec 0 var_y then Some (cov / sqrt (var_x * var_y)) else None
    else None
  else None.

Definition weighted_correlation (summary : list summary_row) : option R :=
  if (2 <=? length summary)%nat
  then weighted_pearson (map (fun g => INR (sample_size g)) summary)
                        (map avg_employment_rate summary)
                        (map avg_median_salary summary)
  else None.

(** [Series.median()] of a non-empty column without nulls. *)
Definition median (l : list R) : R :=
  let s := sort_by Rleb l in
  let n := length l in
  if Nat.even n
  then (nth (n / 2 - 1) s 0 + nth (n / 2) s 0) / 2
  else nth (n / 2) s 0.

(** [np.where(col >= threshold, "High", "Low")] on one cell. *)
Definition level (value threshold : R) : string :=
  if Rle_dec threshold value then "High" else "Low".

(** A row of [summary] with its three label columns. *)
Record labelled_row := mk_labelled {
  srow : summary_row;
  salary_level : string;
  employment_level : string;
  quadrant : string
}.

(** Quadrant classification using medians (lines 201 to 213); an empty
    summary gets the three columns and no row. *)
Definition quadrants (summary : list summary_row) : list labelled_row :=
  let salary_median := median (map avg_median_salary summary) in
  let employment_median := median (map avg_employment_rate summary) in
  map (fun g =>
         let sl := level (avg_median_salary g) salary_median in
         let el := level (avg_employment_rate g) employment_median in
         mk_labelled g sl el (sl ++ " Salary / " ++ el ++ " Employment")%string)
      summary.

Record trend := mk_trend {
  slope : R;
  intercept : R;
  r2 : option R
}.

Record result := mk_result {
  summary : list labelled_row;
  correlation : option float64;
  correlation_weighted : option R;
  trendline : option trend;
  rows_used : nat
}.

Section Trend.
(** What [np.polyfit] returns for a rank-deficient design (all [x] equal):
    numpy's least-squares solver picks one of the infinitely many
    minimisers there; which one is left open. *)
Variable lstsq_deficient : list R -> list R -> R * R.

(** [np.polyfit(x, y, 1)]: the least-squares line, unique when the [x] are
    not all equal. *)
Definition polyfit1 (x y : list R) : R * R :=
  if Req_dec_T (ssd x) 0 then lstsq_deficient x y
  else
    let m := scd x y / ssd x in
    (m, np_mean y - m * np_mean x).

Definition ss_res (fit : R * R) (x y : list R) : R :=
  let y_hat := map (fun xi => fst fit * xi + snd fit) x in
  rsum (map (fun p => (fst p - snd p) * (fst p - snd p)) (combine y y_hat)).

Definition ss_tot (y : list R) : R :=
  rsum (map (fun yi => (yi - np_mean y) * (yi - np_mean y)) y).

(** Optional trendline (lines 272 to 281). *)
Definition fit_trendline (add_trendline : bool) (summary : list summary_row)
  : option trend :=
  if add_trendline && (2 <=? length summary)%nat then
    let x := map avg_employment_rate summary in
    let y := map avg_median_salary summary in
    let fit := polyfit1 x y in
    let r2 :=
      if Req_dec_T (ss_tot y) 0 then None
      else Some (1 - ss_res fit x y / ss_tot y) in
    Some (mk_trend (fst fit) (snd fit) r2)
  else None.

(** [employment_salary_tradeoff] on the frame [df] that [load_data]
    returned, up to the statistics it reports; the figure and the top-N
    ranking tables are drawn from [summary] and are left out, and with them
    whatever the drawing code does on a summary without rows. *)
Definition employment_salary_tradeoff (df : list row) (min_sample_size : Z)
    (add_trendline : bool) : result :=
  let clean := dropna df in
  let summary :=
    sort_by by_salary_desc
            (filter_min_sample_size min_sample_size (aggregate clean)) in
  mk_result (quadrants summary)
            (unweighted_correlation summary)
            (weighted_correlation summary)
            (fit_trendline add_trendline summary)
            (length clean).
End Trend.

(** Measures used to state the properties of the summary: the cleaned rows
    of one category, and how many rows carry the "High" label on an axis. *)
Definition category_rows (clean : list clean_row) (c : string) : list clean_row :=
  filter (fun r => String.eqb (category r) c) clean.




(** All values of a series are tied. *)
Definition all_tied (l : list R) : Prop :=
  forall a b, In a l -> In b l -> a = b.

(** The sample standard deviation: divisor [n - 1], undefined for [n = 1]. *)
Definition sample_std (l : list R) : float64 :=
  if (length l =? 1)%nat then NaN else Fin (sqrt (ssd l / (len l - 1))).

End EmploymentSalaryTradeoff.

(** Sample frames for the tradeoff analysis. *)

Module TradeoffSamples.
Import EmploymentSalaryTradeoff.

Definition survey_row (e s : R) (c : string) : row :=
  mk_row (Some e) (Some s) (Some c) (Some "Course"%string) (Some 2020%Z).

(** One category with the employment rates 80, 90 and 100. *)
Definition law_rows : list row :=
  [survey_row 80 3000 "Law"; survey_row 90 3000 "Law";
   survey_row 100 3000 "Law"].

(** A category with a single record. *)
Definition single_row : list row := [survey_row 80 3000 "Law"].

(** Two categories of one record each. *)
Definition two_categories : list row :=
  [survey_row 90 4000 "Law"; survey_row 80 5000 "Arts"].

(** Two categories of one record each and the same salary. *)
Definition flat_categories : list row :=
  [survey_row 90 4000 "Law"; survey_row 80 4000 "Arts"].


(** The fit used where the samples need one for a rank-deficient design. *)
Definition flat_fit (x y : list R) : R * R := (0, Np.np_mean y).

End TradeoffSamples.

(** Measures used to state what the table of the relative performance index
    holds within one year, on the z-scores read as reals. *)

Module RelativePerformanceMeasures.
Import Np RelativePerformanceIndex.

(** The distinct values of [l] above [z]. *)
Definition above (l : list R) (z : R) : list R :=
  nodup Req_dec_T (filter (Rltb z) l).

(** The average-rank percentile of [v] among [vs], as a fraction. *)
Definition pct_real (vs : list R) (v : R) : R :=
  (INR (length (filter (fun u => Rltb u v) vs))
   + (INR (length (filter (Reqb v) vs)) + 1) / 2) / INR (length vs).

(** The z-score of a group, as a real. *)
Definition z_real (floor : R) (stats : list year_stat) (a : agg_row) : R :=
  match z_score_of floor stats a with Fin z => z | _ => 0 end.

(** The rows of the table that belong to year [y]. *)
Definition rows_of_year (tbl : list out_row) (y : Z) : list out_row :=
  filter (fun r => (year (base r) =? y)%Z) tbl.

End RelativePerformanceMeasures.

(** ** EmploymentSalaryTradeoffAnalytics.py: bubble sizes and rankings *)

Module EmploymentSalaryTradeoffReport.
Import Frame Np EmploymentSalaryTradeoff.

(** [float(values.min()) if len(values) else 0.0], and the same for the
    largest value. *)
Definition array_min (values : list R) : R :=
  match values with
  | [] => 0
  | v :: vs => fold_right Rmin v vs
  end.

Definition array_max (values : list R) : R :=
  match values with
  | [] => 0
  | v :: vs => fold_right Rmax v vs
  end.

(** [_scale_sizes]: the bubble areas. *)
Definition _scale_sizes (values : list R) (size_min size_max : R) : list R :=
  let vmin := array_min values in
  let vmax := array_max values in
  if Req_dec_T vmin vmax
  then map (fun _ => (size_min + size_max) / 2) values
  else map (fun v => size_min + (v - vmin) * (size_max - size_min) / (vmax - vmin))
           values.

(** [_scale_value]: the area of one legend bubble. *)
Definition _scale_value (value vmin vmax size_min size_max : R) : R :=
  if Req_dec_T vmin vmax then (size_min + size_max) / 2
  else size_min + (value - vmin) * (size_max - size_min) / (vmax - vmin).

(** [DataFrame.nlargest(n, col)] and [DataFrame.nsmallest(n, col)] on a
    column without nulls: the first [n] rows in the order of the column,
    and no row for an [n] that is not positive. *)
Definition nlargest {A : Type} (n : Z) (col : A -> R) (l : list A) : list A :=
  firstn (Z.to_nat n) (sort_by (fun a b => Rleb (col b) (col a)) l).

Definition nsmallest {A : Type} (n : Z) (col : A -> R) (l : list A) : list A :=
  firstn (Z.to_nat n) (sort_by (fun a b => Rleb (col a) (col b)) l).

(** [y - (slope * x + intercept)] *)
Definition salary_residuals (fit : R * R) (x y : list R) : list R :=
  map (fun p => snd p - (fst fit * fst p + snd fit)) (combine x y).

(** The four ranking tables.  The rows of the two tradeoff tables carry the
    [salary_residual] column when it was computed. *)
Record rankings := mk_rankings {
  top_salary : list labelled_row;
  top_employment : list labelled_row;
  positive_tradeoff : list (labelled_row * option R);
  negative_tradeoff : list (labelled_row * option R)
}.

Section Rankings.
Variable lstsq_deficient : list R -> list R -> R * R.

(** Rankings and tradeoff outliers (lines 349 to 365), on the labelled
    summary. *)
Definition rank_categories (summary : list labelled_row) (top_n : Z)
  : rankings :=
  let top_s := nlargest top_n (fun g => avg_median_salary (srow g)) summary in
  let top_e := nlargest top_n (fun g => avg_employment_rate (srow g)) summary in
  if (2 <=? length summary)%nat then
    let x := map (fun g => avg_employment_rate (srow g)) summary in
    let y := map (fun g => avg_median_salary (srow g)) summary in
    let fit := polyfit1 lstsq_deficient x y in
    let residuals := salary_residuals fit x y in
    let with_residual :=
      map (fun p => (fst p, Some (snd p))) in
    let assigned := combine summary residuals in
    mk_rankings top_s top_e
      (with_residual (nlargest top_n snd assigned))
      (with_residual (nsmallest top_n snd assigned))
  else
    mk_rankings top_s top_e
      (map (fun g => (g, None)) summary)
      (map (fun g => (g, None)) summary).

(** The rankings [employment_salary_tradeoff] returns for the frame [df]
    that [load_data] returned; the figure drawn before them is left out, as
    it is there. *)
Definition tradeoff_rankings (df : list row) (min_sample_size top_n : Z)
  : rankings :=
  rank_categories
    (summary (employment_salary_tradeoff lstsq_deficient df min_sample_size
                true))
    top_n.
End Rankings.

End EmploymentSalaryTradeoffReport.

(** ** RelativePerformanceIndexAnalytics.py: bump chart data and trends *)

Module RelativePerformanceReport.
Import Frame Np RelativePerformanceIndex EmploymentSalaryTradeoff.

(** A row of [table] for the group column ["course"], with the six
    columns the bump chart keeps. *)
Record course_row := mk_course_row {
  c_course : string;
  c_year : Z;
  c_rank : Z;
  c_z_score : R;
  c_mean_salary : R;
  c_sample_size : nat
}.

(** The three columns [select_focus_groups] reads. *)
Definition score_of (r : course_row) : score :=
  mk_score (c_course r) (c_year r) (c_z_score r).

(** [bump.sort_values(["year", "rank", group_col])] *)
Definition by_year_rank_group (a b : course_row) : bool :=
  (c_year a <? c_year b)%Z
  || ((c_year a =? c_year b)%Z
      && ((c_rank a <? c_rank b)%Z
          || ((c_rank a =? c_rank b)%Z
              && String.leb (c_course a) (c_course b)))).

Definition build_bump_chart_data (table : list course_row)
    (focus_groups : option (list string)) (top_k min_years : Z)
  : list course_row :=
  let focus :=
    select_focus_groups (map score_of table) top_k min_years focus_groups in
  let bump :=
    filter (fun r => if in_dec string_dec (c_course r) focus then true else false)
           table in
  sort_by by_year_rank_group bump.

(** A row of [slopes]. *)
Record slope_row := mk_slope_row {
  sl_course : string;
  z_score_slope_per_year : R;
  sl_years : nat
}.

Section Slopes.
Variable lstsq_deficient : list R -> list R -> R * R.

(** The loop over [table.groupby("course")] of lines 309 to 316: a course
    seen in fewer than two years is skipped. *)
Definition course_slopes (table : list course_row) : list slope_row :=
  flat_map
    (fun g =>
       let sub := sort_by (fun a b => (c_year a <=? c_year b)%Z) (snd g) in
       let nunique := length (nodup Z.eq_dec (map c_year sub)) in
       if (nunique <? 2)%nat then []
       else
         let x := map (fun r => IZR (c_year r)) sub in
         let y := map c_z_score sub in
         [mk_slope_row (fst g) (fst (polyfit1 lstsq_deficient x y)) nunique])
    (groupby string_dec String.leb c_course table).

(** [pd.DataFrame(slopes).sort_values("z_score_slope_per_year", ascending=False)]:
    a frame built from an empty list has no column to sort by. *)
Definition slopes_table (table : list course_row) : outcome (list slope_row) :=
  match course_slopes table with
  | [] => KeyError ["z_score_slope_per_year"%string]
  | s :: ss =>
      Ok (sort_by (fun a b => Rleb (z_score_slope_per_year b)
                                   (z_score_slope_per_year a))
                  (s :: ss))
  end.
End Slopes.

(** The rows of one course, and the number of distinct years it is seen
    in. *)
Definition course_rows (table : list course_row) (g : string) : list course_row :=
  filter (fun r => String.eqb (c_course r) g) table.

Definition course_years (table : list course_row) (g : string) : nat :=
  length (nodup Z.eq_dec (map c_year (course_rows table g))).

(** The row of [slopes] recorded for the course [g]. *)
Definition slope_of (lstsq : list R -> list R -> R * R)
    (table : list course_row) (g : string) : slope_row :=
  let sub := sort_by (fun a b => (c_year a <=? c_year b)%Z)
                     (course_rows table g) in
  mk_slope_row g
    (fst (polyfit1 lstsq (map (fun r => IZR (c_year r)) sub)
                   (map c_z_score sub)))
    (course_years table g).

End RelativePerformanceReport.

(** A measure used to state what [load_data] keeps: the cell [c] passes
    the filter on [values], which an absent or empty list leaves open. *)

Module UniversityComparisonMeasures.
Import Frame.

Definition listed (values : option (list string)) (c : option string) : Prop :=
  match values with
  | Some (v :: vs) => isin c (v :: vs) = true
  | _ => True
  end.

End UniversityComparisonMeasures.

(** ** UniversityComparisonAnalytics.py: year-over-year salary growth *)

Module UniversitySalaryGrowth.
Import Frame Np.

(** One row of the frame [load_data] returned, with the four columns
    [plot_salary_growth] reads. *)
Record salary_record := mk_salary_record {
  year : option Z;
  university : option string;
  gross_monthly_mean : option R;
  course : option string
}.

(** The key of a group of [groupby(['year', 'university'])]; a row with a
    null in either column belongs to no group. *)
Definition growth_key : Type := (Z * string)%type.

Definition growth_key_eq_dec (a b : growth_key) : {a = b} + {a <> b}.
Proof.
  decide equality.
  - apply string_dec.
  - apply Z.eq_dec.
Defined.

Definition growth_key_leb (a b : growth_key) : bool :=
  (fst a <? fst b)%Z || ((fst a =? fst b)%Z && String.leb (snd a) (snd b)).

Definition keyed (df : list salary_record) : list (growth_key * salary_record) :=
  flat_map (fun r =>
              match year r, university r with
              | Some y, Some u => [((y, u), r)]
              | _, _ => []
              end) df.

(** A row of [yearly_salary]. *)
Record yearly_row := mk_yearly_row {
  y_year : Z;
  y_university : string;
  avg_salary : float64;
  y_sample_size : nat
}.

(** The ["mean"] aggregate skips nulls and is NaN for a group without a
    value; ["count"] counts the cells that are not null. *)
Definition yearly_salary (df : list salary_record) : list yearly_row :=
  map (fun g =>
         let rs := map snd (snd g) in
         mk_yearly_row (fst (fst g)) (snd (fst g))
                       (np_mean_f (dropna_values (map gross_monthly_mean rs)))
                       (length (dropna_values (map course rs))))
      (groupby growth_key_eq_dec growth_key_leb fst (keyed df)).

(** A row of [growth_df]. *)
Record growth_row := mk_growth_row {
  g_year : Z;
  g_university : string;
  salary : float64;
  growth_rate : float64;
  g_sample_size : nat
}.

(** [x * 100] on one cell. *)
Definition times_100 (a : float64) : float64 :=
  match a with
  | Fin x => Fin (x * 100)
  | other => other
  end.

(** The inner loop over the rows of one university, in year order, with the
    average salary of the row before: the first row is the baseline. *)
Fixpoint growth_rates (prev : option float64) (uni_data : list yearly_row)
  : list growth_row :=
  match uni_data with
  | [] => []
  | row :: rest =>
      let rate :=
        match prev with
        | None => Fin 0
        | Some p => times_100 (fdiv (fsub (avg_salary row) p) p)
        end in
      mk_growth_row (y_year row) (y_university row) (avg_salary row) rate
                    (y_sample_size row)
      :: growth_rates (Some (avg_salary row)) rest
  end.

(** [yearly_salary[yearly_salary['university'] == uni].sort_values('year')] *)
Definition uni_data (yearly : list yearly_row) (uni : string) : list yearly_row :=
  sort_by (fun a b => (y_year a <=? y_year b)%Z)
          (filter (fun r => String.eqb (y_university r) uni) yearly).

(** [Series.unique()]: the distinct values in the order they first
    appear. *)
Definition first_seen (l : list string) : list string :=
  rev (nodup string_dec (rev l)).

Definition growth_data (df : list salary_record) : list growth_row :=
  let yearly := yearly_salary df in
  flat_map (fun uni => growth_rates None (uni_data yearly uni))
           (first_seen (map y_university yearly)).

(** The frame [plot_salary_growth] returns: selecting the university
    column of a frame built from an empty list of rows raises. *)
Definition plot_salary_growth (df : list salary_record)
  : RelativePerformanceIndex.outcome (list growth_row) :=
  match growth_data df with
  | [] => RelativePerformanceIndex.KeyError ["university"%string]
  | g :: gs => RelativePerformanceIndex.Ok (g :: gs)
  end.

(** The rows of one university in [growth_df], and the growth factor
    [1 + rate / 100] of a finite rate. *)
Definition growth_of (rows : list growth_row) (uni : string) : list growth_row :=
  filter (fun r => String.eqb (g_university r) uni) rows.

Definition growth_factor (r : growth_row) : R :=
  match growth_rate r with
  | Fin x => 1 + x / 100
  | _ => 1
  end.

End UniversitySalaryGrowth.

(** ** The query-string wrappers of RelativePerformanceIndexAnalytics.py and
    EmploymentSalaryTradeoffAnalytics.py *)

Module ApiParameters.
Import Ascii.

(** What [_parse_list] is given: nothing, a string or a list of strings. *)
Inductive param :=
| Absent
| Text (s : string)
| Items (l : list string).

Definition empty (s : string) : bool :=
  match s with EmptyString => true | String _ _ => false end.

(** [c in s] for one character. *)
Fixpoint contains (c : ascii) (s : string) : bool :=
  match s with
  | EmptyString => false
  | String d t => Ascii.eqb d c || contains c t
  end.

Definition comma : ascii := ","%char.

(** [s.split(",")]: the pieces between the commas; the empty string has the
    one piece [""]. *)
Fixpoint split (s : string) : list string :=
  match s with
  | EmptyString => [EmptyString]
  | String c t =>
      if Ascii.eqb c comma then EmptyString :: split t
      else match split t with
           | piece :: pieces => String c piece :: pieces
           | [] => [String c EmptyString]
           end
  end.

Section Parsing.
(** [str.isspace] on one character, and [int(value)] on a string: the
    integer it spells, or [None] where [int] raises [ValueError]. *)
Variable isspace : ascii -> bool.
Variable py_int : string -> option Z.

Fixpoint lstrip (s : string) : string :=
  match s with
  | EmptyString => EmptyString
  | String c t => if isspace c then lstrip t else s
  end.

Fixpoint rstrip (s : string) : string :=
  match s with
  | EmptyString => EmptyString
  | String c t =>
      match rstrip t with
      | EmptyString => if isspace c then EmptyString else String c EmptyString
      | String d t' => String c (String d t')
      end
  end.

(** [s.strip()] *)
Definition strip (s : string) : string := rstrip (lstrip s).

(** [[v.strip() for v in values if v.strip()]] *)
Definition stripped_items (values : list string) : list string :=
  filter (fun v => negb (empty v)) (map strip values).

Definition _parse_list (value : param) : option (list string) :=
  match value with
  | Absent => None
  | Text s => if empty s then None else Some (stripped_items (split s))
  | Items l => Some (stripped_items l)
  end.

(** [_parse_int] on a query-string value. *)
Definition _parse_int (value : option string) (default : option Z)
  : option Z :=
  match value with
  | None => default
  | Some s =>
      if empty s then default
      else match py_int s with
           | Some n => Some n
           | None => default
           end
  end.

(** [_parse_str] on a query-string value. *)
Definition _parse_str (value : option string) (default : option string)
  : option string :=
  match value with
  | None => default
  | Some s => if empty s then default else Some s
  end.

(** [x or d] for an optional integer and for an optional string. *)
Definition or_int (x : option Z) (d : Z) : Z :=
  match x with
  | Some n => if (n =? 0)%Z then d else n
  | None => d
  end.

Definition or_str (x : option string) (d : string) : string :=
  match x with
  | Some s => if empty s then d else s
  | None => d
  end.

Definition text_of (value : option string) : param :=
  match value with
  | Some s => Text s
  | None => Absent
  end.

(** The arguments [relative_performance_api] passes on, but for the plot
    switch. *)
Record relative_performance_args := mk_relative_performance_args {
  year_start : option Z;
  year_end : option Z;
  universities : option (list string);
  categories : option (list string);
  salary_column : string;
  min_sample_size : Z;
  weight_mode : string;
  focus_courses : option (list string);
  top_k : Z;
  min_years : Z
}.

Definition relative_performance_api (params : string -> option string)
  : relative_performance_args :=
  let weight_mode :=
    or_str (_parse_str (params "weight_mode"%string) (Some "none"%string))
           "none" in
  mk_relative_performance_args
    (_parse_int (params "year_start"%string) None)
    (_parse_int (params "year_end"%string) None)
    (_parse_list (text_of (params "universities"%string)))
    (_parse_list (text_of (params "categories"%string)))
    (or_str (_parse_str (params "salary_column"%string)
                        (Some "gross_monthly_median"%string))
            "gross_monthly_median")
    (or_int (_parse_int (params "min_sample_size"%string) (Some 1%Z)) 1)
    (if in_dec string_dec weight_mode ["none"; "sample_size"]%string
     then weight_mode else "none"%string)
    (_parse_list (text_of (params "focus_courses"%string)))
    (or_int (_parse_int (params "top_k"%string) (Some 10%Z)) 10)
    (or_int (_parse_int (params "min_years"%string) (Some 6%Z)) 6).

(** The arguments [tradeoff_api] passes on, but for the two switches. *)
Record tradeoff_args := mk_tradeoff_args {
  t_year_start : option Z;
  t_year_end : option Z;
  t_categories : option (list string);
  t_min_sample_size : option Z;
  t_top_n : option Z
}.

Definition tradeoff_api (params : string -> option string) : tradeoff_args :=
  mk_tradeoff_args
    (_parse_int (params "year_start"%string) None)
    (_parse_int (params "year_end"%string) None)
    (_parse_list (text_of (params "categories"%string)))
    (_parse_int (params "min_sample_size"%string) (Some 20%Z))
    (_parse_int (params "top_n"%string) (Some 5%Z)).
End Parsing.

End ApiParameters.

(** ** RelativePerformanceIndexAnalytics.py: the [meta] dictionary *)

Module RelativePerformanceMeta.
Import Frame Np RelativePerformanceIndex.

(** [meta] (lines 152 to 160): the two counts, the first and the last year
    of [agg], and the echoed arguments. *)
Record meta := mk_meta {
  m_rows_used : nat;
  m_groups_used : nat;
  m_years_min : option Z;
  m_years_max : option Z;
  m_salary_column : string;
  m_group_by : list string;
  m_min_sample_size : Z;
  m_weight_mode : string
}.

(** [int(min(years)) if years else None], and the same for [max]. *)
Definition min_year (years : list Z) : option Z :=
  match years with
  | [] => None
  | y :: ys => Some (fold_right Z.min y ys)
  end.

Definition max_year (years : list Z) : option Z :=
  match years with
  | [] => None
  | y :: ys => Some (fold_right Z.max y ys)
  end.

(** The dictionary the call returns. *)
Record returned := mk_returned {
  r_table : list out_row;
  r_year_stats : list year_stat;
  r_meta : meta
}.

(** [compute_relative_performance_index] with all it returns: the two
    tables of [compute_relative_performance_index] above and [meta] with the
    arguments it echoes. *)
Definition relative_performance_result (df : frame)
    (salary_column : string) (group_by : list string)
    (min_sample_size : Z) (weight_mode : string) (zscore_floor_std : R)
  : outcome returned :=
  match compute_relative_performance_index df salary_column group_by
          min_sample_size weight_mode zscore_floor_std with
  | Ok res =>
      let agg :=
        filter_min_sample_size min_sample_size (aggregate (dropna (rows df))) in
      let years := years_of agg in
      Ok (mk_returned (table res) (year_stats res)
            (mk_meta (rows_used res) (groups_used res)
                     (min_year years) (max_year years)
                     salary_column group_by min_sample_size weight_mode))
  | ValueError missing => ValueError missing
  | KeyError labels => KeyError labels
  end.

End RelativePerformanceMeta.

(** ** The same arithmetic in binary64

    The definitions above compute in exact arithmetic.  The modules below
    embed the lines where rounding decides which branch the code takes, on
    float64 values as the processor computes them. *)

Module Binary64.
Import PrimFloat.
Local Open Scope float_scope.

(** An integer as a float64; exact below 2^53. *)
Fixpoint of_pos (p : positive) : float :=
  match p with
  | xH => 1
  | xO q => 2 * of_pos q
  | xI q => 2 * of_pos q + 1
  end.

Definition of_Z (z : Z) : float :=
  match z with
  | Z0 => 0
  | Zpos p => of_pos p
  | Zneg p => - of_pos p
  end.

Definition of_nat (n : nat) : float := of_Z (Z.of_nat n).

(** The float64 a decimal literal with the value [n / d] is read as: the
    nearest one (for [n] and [d] below 2^53). *)
Definition ratio (n d : Z) : float := of_Z n / of_Z d.

(** IEEE [>=], [>] and [!=]: with a NaN operand the first two are false
    and the third is true. *)
Definition geb (a b : float) : bool := b <=? a.
Definition gtb (a b : float) : bool := b <? a.
Definition neqb (a b : float) : bool := negb (a =? b).

(** [Series.where(cond, np.nan)] and [Series.fillna(v)] on one cell. *)
Definition where_ (cond : bool) (a : float) : float :=
  if cond then a else nan.

Definition fillna (v a : float) : float :=
  if is_nan a then v else a.

(** [np.add.reduce] on a float64 array is numpy's pairwise summation:
    fewer than eight elements are added one by one from the left; up to 128
    elements go through eight running sums, which are added two by two
    before the elements past the last full row of eight are added one by
    one; a longer array is split in two near the middle, at a multiple of
    eight.  (The sign of a zero sum is left aside: nothing below reads
    it.) *)
Definition sum_from (acc : float) (l : list float) : float :=
  fold_left add l acc.

Fixpoint add_rows (r a : list float) : list float :=
  match r, a with
  | x :: r', y :: a' => (x + y) :: add_rows r' a'
  | _, _ => r
  end.

Fixpoint unrolled (fuel : nat) (r rest : list float)
  : list float * list float :=
  match fuel with
  | O => (r, rest)
  | S fuel' =>
      if (8 <=? length rest)%nat
      then unrolled fuel' (add_rows r (firstn 8 rest)) (skipn 8 rest)
      else (r, rest)
  end.

Definition sum_of_eight (r : list float) : float :=
  match r with
  | [r0; r1; r2; r3; r4; r5; r6; r7] =>
      ((r0 + r1) + (r2 + r3)) + ((r4 + r5) + (r6 + r7))
  | _ => sum_from 0 r
  end.

Definition block_sum (a : list float) : float :=
  if (length a <? 8)%nat then sum_from 0 a
  else
    let split := unrolled (length a) (firstn 8 a) (skipn 8 a) in
    sum_from (sum_of_eight (fst split)) (snd split).

Fixpoint pairwise_sum (fuel : nat) (a : list float) : float :=
  match fuel with
  | O => block_sum a
  | S fuel' =>
      if (length a <=? 128)%nat then block_sum a
      else
        let n2 := (length a / 2 - (length a / 2) mod 8)%nat in
        pairwise_sum fuel' (firstn n2 a) + pairwise_sum fuel' (skipn n2 a)
  end.

Definition np_sum (a : list float) : float := pairwise_sum (length a) a.

(** [np.mean(a)]: the sum over the length; NaN for the empty array. *)
Definition np_mean (a : list float) : float := np_sum a / of_nat (length a).

(** [np.std(a, ddof=0)]: the mean, the deviations from it, their squares,
    the sum of those over the length, and its root. *)
Definition np_std (a : list float) : float :=
  let arrmean := np_mean a in
  let x := map (fun v => v - arrmean) a in
  let x := map (fun d => d * d) x in
  sqrt (np_sum x / of_nat (length a)).

Definition mul_arrays (a b : list float) : list float :=
  map (fun p => fst p * snd p) (combine a b).

(** An array of zeros. *)
Definition zeros (l : list float) : Prop := Forall (fun v => v = 0) l.

End Binary64.

(** *** Lines 57 to 65 and 113 to 140 of RelativePerformanceIndexAnalytics.py *)

Module RelativePerformanceBinary64.
Import Frame Binary64.
Import PrimFloat.
Local Open Scope float_scope.

(** A row of [agg]: one (year, group) with its mean salary, a float64, and
    its row count. *)
Record agg_row := mk_agg {
  year : Z;
  group : list string;
  mean_salary : float;
  sample_size : nat
}.

Definition _weighted_mean_std (values weights : list float) : float * float :=
  let w_sum := np_sum weights in
  if w_sum <=? 0 then (np_mean values, np_std values)
  else
    let mean := np_sum (mul_arrays weights values) / w_sum in
    let var :=
      np_sum (mul_arrays weights
                (map (fun v => (v - mean) * (v - mean)) values)) / w_sum in
    (mean, sqrt var).

(** [agg[agg["year"] == y]] *)
Definition sub_of (agg : list agg_row) (y : Z) : list agg_row :=
  filter (fun a => (year a =? y)%Z) agg.

(** One pass of the loop that fills [year_stats_rows]: [mu] and [sd] of the
    year [y]. *)
Definition year_baseline (weight_mode : string) (agg : list agg_row) (y : Z)
  : float * float :=
  let sub := sub_of agg y in
  let vals := map mean_salary sub in
  if String.eqb weight_mode "sample_size"
  then _weighted_mean_std vals (map (fun a => of_nat (sample_size a)) sub)
  else
    match vals with
    | [] => (nan, nan)
    | _ => (np_mean vals, np_std vals)
    end.

(** A row of [out] up to its z-score. *)
Record out_row := mk_out {
  base : agg_row;
  year_mean : float;
  year_std : float;
  year_std_safe : float;
  z_score : float
}.

(** Lines 113 to 140: every row of [agg] with the baseline of its year,
    the floored deviation and the z-score. *)
Definition score_groups (weight_mode : string) (zscore_floor_std : float)
    (agg : list agg_row) : list out_row :=
  map (fun a =>
         let stats := year_baseline weight_mode agg (year a) in
         let safe :=
           where_ (geb (snd stats) zscore_floor_std) (snd stats) in
         mk_out a (fst stats) (snd stats) safe
                (fillna 0 ((mean_salary a - fst stats) / safe)))
      agg.

(** The default floor [1e-9]. *)
Definition default_floor : float := ratio 1 1000000000.

(** One year, three courses of one record each, all at [salary]. *)
Definition three_alike (salary : float) : list agg_row :=
  [mk_agg 2020 ["Arts"%string] salary 1;
   mk_agg 2020 ["Law"%string] salary 1;
   mk_agg 2020 ["Music"%string] salary 1].

End RelativePerformanceBinary64.

(** *** Lines 183 to 199 and 272 to 281 of EmploymentSalaryTradeoffAnalytics.py *)

Module TradeoffBinary64.
Import Binary64.
Import PrimFloat.
Local Open Scope float_scope.

(** Weighted correlation (by sample size), on the three arrays [w], [xw]
    and [yw] of a summary with [len(summary)] rows. *)
Definition weighted_correlation (w xw yw : list float) : option float :=
  if (2 <=? length w)%nat then
    let w_sum := np_sum w in
    if gtb w_sum 0 then
      let x_mean := np_sum (mul_arrays w xw) / w_sum in
      let y_mean := np_sum (mul_arrays w yw) / w_sum in
      let cov :=
        np_sum (map (fun p => fst p * (fst (snd p) - x_mean)
                              * (snd (snd p) - y_mean))
                    (combine w (combine xw yw))) / w_sum in
      let var_x :=
        np_sum (mul_arrays w (map (fun x => (x - x_mean) * (x - x_mean)) xw))
        / w_sum in
      let var_y :=
        np_sum (mul_arrays w (map (fun y => (y - y_mean) * (y - y_mean)) yw))
        / w_sum in
      if gtb var_x 0 && gtb var_y 0
      then Some (cov / sqrt (var_x * var_y))
      else None
    else None
  else None.

Record trend := mk_trend {
  slope : float;
  intercept : float;
  r2 : option float
}.

Definition ss_tot (y : list float) : float :=
  let mean := np_mean y in
  np_sum (map (fun yi => (yi - mean) * (yi - mean)) y).

Definition ss_res (fit : float * float) (x y : list float) : float :=
  let y_hat := map (fun xi => fst fit * xi + snd fit) x in
  np_sum (map (fun p => (fst p - snd p) * (fst p - snd p)) (combine y y_hat)).

Section Trend.
(** [np.polyfit(x, y, 1)] is LAPACK's least-squares solver; its float64
    answer is left open. *)
Variable polyfit1 : list float -> list float -> float * float.

(** Optional trendline (lines 272 to 281), on the two columns of the
    summary. *)
Definition fit_trendline (add_trendline : bool) (x y : list float)
  : option trend :=
  if add_trendline && (2 <=? length x)%nat then
    let fit := polyfit1 x y in
    let r2 :=
      if neqb (ss_tot y) 0
      then Some (1 - ss_res fit x y / ss_tot y)
      else None in
    Some (mk_trend (fst fit) (snd fit) r2)
  else None.
End Trend.

End TradeoffBinary64.

(** ** Properties of the frame primitives *)

Module FrameFacts.
Import Frame.

Lemma insert_by_perm {A} (leb : A -> A -> bool) x l :
  Permutation (x :: l) (insert_by leb x l).
Proof.
  induction l as [|y t IH]; simpl; auto.
  destruct (leb x y); auto.
  rewrite perm_swap. now constructor.
Qed.

Lemma sort_by_perm {A} (leb : A -> A -> bool) l :
  Permutation l (sort_by leb l).
Proof.
  induction l as [|x t IH]; simpl; auto.
  rewrite <- insert_by_perm. now constructor.
Qed.

Lemma sort_by_In {A} (leb : A -> A -> bool) l x :
  In x (sort_by leb l) <-> In x l.
Proof.
  split; apply Permutation_in; [symmetry|]; apply sort_by_perm.
Qed.

Lemma isin_true c values :
  isin c values = true <-> exists s, c = Some s /\ In s values.
Proof.
  unfold isin. destruct c as [s|].
  - destruct (in_dec string_dec s values) as [Hi|Hn]; split; intro H.
    + eauto.
    + reflexivity.
    + discriminate.
    + destruct H as (s' & [= <-] & Hs). contradiction.
  - split; [discriminate | intros (s & [=] & _)].
Qed.

Lemma value_counts_In col s n :
  In (s, n) (value_counts col) <->
  In s (dropna_values col) /\ n = count_of s (dropna_values col).
Proof.
  unfold value_counts. rewrite sort_by_In, in_map_iff. split.
  - intros (s' & [= <- <-] & Hs). apply nodup_In in Hs. auto.
  - intros [Hs ->]. exists s. split; auto. now apply nodup_In.
Qed.

Lemma filter_none {A} (f : A -> bool) l :
  (forall x, In x l -> f x = false) -> filter f l = [].
Proof.
  induction l as [|a l IH]; intros H; simpl; auto.
  rewrite (H a) by now left. apply IH. intros x Hx. apply H. now right.
Qed.

Lemma filter_all {A} (f : A -> bool) l :
  (forall x, In x l -> f x = true) -> filter f l = l.
Proof.
  induction l as [|a l IH]; intros H; simpl; auto.
  rewrite (H a) by now left. f_equal. apply IH. intros x Hx. apply H. now right.
Qed.

Lemma filter_perm {A} (f : A -> bool) l1 l2 :
  Permutation l1 l2 -> Permutation (filter f l1) (filter f l2).
Proof.
  induction 1 as [|x l1 l2 _ IH|x y l|l1 l2 l3 _ IH1 _ IH2]; simpl.
  - constructor.
  - destruct (f x); auto.
  - destruct (f x), (f y); auto. apply perm_swap.
  - now transitivity (filter f l2).
Qed.

Lemma filter_map_comm {A B} (f : A -> B) (g : B -> bool) l :
  filter g (map f l) = map f (filter (fun a => g (f a)) l).
Proof.
  induction l as [|a l IH]; simpl; auto.
  destruct (g (f a)); simpl; now rewrite IH.
Qed.

Section SortFacts.
Context {A : Type} (leb : A -> A -> bool).
Hypothesis leb_total : forall a b, leb a b = true \/ leb b a = true.

Let le (a b : A) : Prop := leb a b = true.

Lemma insert_by_sorted x l : Sorted le l -> Sorted le (insert_by leb x l).
Proof.
  induction l as [|y t IH]; intros Hs; simpl.
  - repeat constructor.
  - destruct (leb x y) eqn:E.
    + constructor; auto.
    + inversion Hs as [|? ? Ht Hhd]; subst.
      constructor; auto.
      assert (Hyx : le y x) by (destruct (leb_total x y); [congruence | auto]).
      destruct t as [|z t]; simpl.
      * repeat constructor. exact Hyx.
      * destruct (leb x z); constructor; auto.
        now inversion Hhd.
Qed.

Lemma sort_by_sorted l : Sorted le (sort_by leb l).
Proof.
  induction l as [|x t IH]; simpl; [constructor|].
  now apply insert_by_sorted.
Qed.

Lemma sort_by_strongly_sorted l :
  (forall a b c, le a b -> le b c -> le a c) ->
  StronglySorted le (sort_by leb l).
Proof.
  intros Htrans. apply Sorted_StronglySorted; auto using sort_by_sorted.
Qed.
End SortFacts.

Lemma StronglySorted_app_inv {A} (R : A -> A -> Prop) l1 l2 :
  StronglySorted R (l1 ++ l2) ->
  StronglySorted R l1 /\ StronglySorted R l2 /\
  (forall x y, In x l1 -> In y l2 -> R x y).
Proof.
  induction l1 as [|a l1 IH]; simpl; intros H.
  - repeat split; auto; [constructor | intros x y []].
  - inversion H as [|? ? Hs Hall]; subst.
    destruct (IH Hs) as (H1 & H2 & H3).
    rewrite Forall_forall in Hall.
    repeat split; auto.
    + constructor; auto. apply Forall_forall. intros x Hx. apply Hall.
      apply in_or_app. now left.
    + intros x y [<-|Hx] Hy; auto. apply Hall. apply in_or_app. now right.
Qed.

Lemma StronglySorted_map_in {A B} (R1 : A -> A -> Prop) (R2 : B -> B -> Prop)
    (f : A -> B) l :
  (forall a b, In a l -> In b l -> R1 a b -> R2 (f a) (f b)) ->
  StronglySorted R1 l -> StronglySorted R2 (map f l).
Proof.
  induction l as [|a l IH]; intros Hf Hs; simpl; [constructor|].
  inversion Hs as [|? ? Hs' Hall]; subst. constructor.
  - apply IH; auto. intros x y Hx Hy. apply Hf; now right.
  - rewrite Forall_forall in *. intros b Hb.
    apply in_map_iff in Hb as (x & <- & Hx).
    apply Hf; [now left | now right | auto].
Qed.

(** [head] keeps a prefix. *)
Lemma head_prefix {A} (n : Z) (l : list A) :
  exists rest, l = head n l ++ rest.
Proof.
  unfold head. destruct (0 <=? n)%Z.
  - exists (skipn (Z.to_nat n) l). now rewrite firstn_skipn.
  - exists (skipn (length l - Z.to_nat (- n)) l). now rewrite firstn_skipn.
Qed.

Lemma head_length {A} (n : Z) (l : list A) :
  (0 <= n)%Z -> Z.of_nat (length (head n l)) = Z.min n (Z.of_nat (length l)).
Proof.
  intros Hn. unfold head. destruct (Z.leb_spec 0 n); [|lia].
  rewrite length_firstn. lia.
Qed.

Section GroupByFacts.
Context {K V : Type} (eq_dec : forall a b : K, {a = b} + {a <> b}).
Context (leb : K -> K -> bool) (key : V -> K).

Lemma group_keys_In df k :
  In k (group_keys eq_dec leb key df) <-> In k (map key df).
Proof. unfold group_keys. now rewrite sort_by_In, nodup_In. Qed.

Lemma group_keys_NoDup df : NoDup (group_keys eq_dec leb key df).
Proof.
  unfold group_keys.
  eapply Permutation_NoDup; [apply sort_by_perm | apply NoDup_nodup].
Qed.

Lemma members_In df k v :
  In v (members eq_dec key k df) <-> In v df /\ key v = k.
Proof.
  unfold members. rewrite filter_In.
  destruct (eq_dec (key v) k); intuition congruence.
Qed.

Lemma groupby_In df k vs :
  In (k, vs) (groupby eq_dec leb key df) <->
  In k (map key df) /\ vs = members eq_dec key k df.
Proof.
  unfold groupby. rewrite in_map_iff. split.
  - intros (k' & [= <- <-] & Hk). now apply group_keys_In in Hk.
  - intros [Hk ->]. exists k. split; auto. now apply group_keys_In.
Qed.

Lemma groupby_nonempty df k vs :
  In (k, vs) (groupby eq_dec leb key df) -> vs <> [].
Proof.
  intros H. apply groupby_In in H as [Hk ->].
  apply in_map_iff in Hk as (v & Hv & Hin).
  intros E. assert (Hm : In v (members eq_dec key k df))
    by (apply members_In; auto).
  rewrite E in Hm. destruct Hm.
Qed.
End GroupByFacts.

End FrameFacts.

(** ** Sums, means and deviations *)

Module NpFacts.
Import Frame FrameFacts Np.

Lemma Rleb_true x y : Rleb x y = true <-> x <= y.
Proof. unfold Rleb. destruct (Rle_dec x y); split; auto; discriminate. Qed.

Lemma Rltb_true x y : Rltb x y = true <-> x < y.
Proof. unfold Rltb. destruct (Rlt_dec x y); split; auto; discriminate. Qed.

Lemma Reqb_true x y : Reqb x y = true <-> x = y.
Proof. unfold Reqb. destruct (Req_dec_T x y); split; auto; discriminate. Qed.

Lemma Rleb_false x y : Rleb x y = false <-> y < x.
Proof.
  unfold Rleb. destruct (Rle_dec x y); split; auto; try discriminate; lra.
Qed.

Lemma Rltb_false x y : Rltb x y = false <-> y <= x.
Proof.
  unfold Rltb. destruct (Rlt_dec x y); split; auto; try discriminate; lra.
Qed.

Lemma Reqb_false x y : Reqb x y = false <-> x <> y.
Proof.
  unfold Reqb. destruct (Req_dec_T x y); split; auto; try discriminate; tauto.
Qed.

Lemma rsum_cons x l : rsum (x :: l) = x + rsum l.
Proof. reflexivity. Qed.

Lemma rsum_app l1 l2 : rsum (l1 ++ l2) = rsum l1 + rsum l2.
Proof. induction l1; simpl; rewrite ?rsum_cons; try rewrite IHl1; unfold rsum; simpl; lra. Qed.

Lemma rsum_perm l1 l2 : Permutation l1 l2 -> rsum l1 = rsum l2.
Proof.
  induction 1; rewrite ?rsum_cons; lra.
Qed.

Lemma rsum_map_ext {A} (f g : A -> R) l :
  (forall a, In a l -> f a = g a) -> rsum (map f l) = rsum (map g l).
Proof.
  induction l as [|a l IH]; intros H; simpl; auto.
  rewrite !rsum_cons, IH, (H a); auto.
  - now left.
  - intros b Hb. apply H. now right.
Qed.

Lemma rsum_map_scale {A} (c : R) (f : A -> R) l :
  rsum (map (fun a => c * f a) l) = c * rsum (map f l).
Proof.
  induction l as [|a l IH]; simpl.
  - unfold rsum. simpl. lra.
  - rewrite !rsum_cons, IH. lra.
Qed.

Lemma rsum_map_scale_r {A} (c : R) (f : A -> R) l :
  rsum (map (fun a => f a * c) l) = rsum (map f l) * c.
Proof.
  rewrite (rsum_map_ext _ (fun a => c * f a)) by (intros; lra).
  rewrite rsum_map_scale. lra.
Qed.

Lemma rsum_map_plus {A} (f g : A -> R) l :
  rsum (map (fun a => f a + g a) l) = rsum (map f l) + rsum (map g l).
Proof.
  induction l as [|a l IH]; simpl.
  - unfold rsum. simpl. lra.
  - rewrite !rsum_cons, IH. lra.
Qed.

Lemma rsum_map_const {A} (c : R) (l : list A) :
  rsum (map (fun _ => c) l) = INR (length l) * c.
Proof.
  induction l as [|a l IH].
  - simpl. unfold rsum. simpl. lra.
  - cbn [map]. rewrite rsum_cons, IH. cbn [length]. rewrite S_INR. lra.
Qed.

Lemma rsum_nonneg l : (forall x, In x l -> 0 <= x) -> 0 <= rsum l.
Proof.
  induction l as [|a l IH]; intros H.
  - unfold rsum. simpl. lra.
  - rewrite rsum_cons.
    assert (0 <= a) by (apply H; simpl; auto).
    assert (0 <= rsum l) by (apply IH; intros; apply H; simpl; auto).
    lra.
Qed.

Lemma rsum_zero_all l :
  (forall x, In x l -> 0 <= x) -> rsum l = 0 -> forall x, In x l -> x = 0.
Proof.
  induction l as [|a l IH]; intros H Hs x Hx; [destruct Hx|].
  rewrite rsum_cons in Hs.
  assert (0 <= a) by (apply H; simpl; auto).
  assert (0 <= rsum l) by (apply rsum_nonneg; intros; apply H; simpl; auto).
  destruct Hx as [<-|Hx]; [lra|].
  apply IH; auto; [intros; apply H; simpl; auto | lra].
Qed.

Lemma len_pos l : l <> [] -> 0 < len l.
Proof.
  destruct l; [congruence|]. intros _. unfold len. apply lt_0_INR. simpl. lia.
Qed.

Lemma len_map {A} (f : A -> R) l : len (map f l) = INR (length l).
Proof. unfold len. now rewrite length_map. Qed.

Lemma mul_arrays_map {A} (f g : A -> R) l :
  mul_arrays (map f l) (map g l) = map (fun a => f a * g a) l.
Proof.
  unfold mul_arrays. induction l as [|a l IH]; simpl; auto. now rewrite IH.
Qed.

Lemma np_mean_perm l1 l2 : Permutation l1 l2 -> np_mean l1 = np_mean l2.
Proof.
  intros H. unfold np_mean, len.
  now rewrite (rsum_perm _ _ H), (Permutation_length H).
Qed.

Lemma ssd_perm l1 l2 : Permutation l1 l2 -> ssd l1 = ssd l2.
Proof.
  intros H. unfold ssd. rewrite (np_mean_perm _ _ H).
  apply rsum_perm. now apply Permutation_map.
Qed.

Lemma np_std_perm l1 l2 : Permutation l1 l2 -> np_std l1 = np_std l2.
Proof.
  intros H. unfold np_std, len.
  now rewrite (ssd_perm _ _ H), (Permutation_length H).
Qed.

Lemma ssd_nonneg l : 0 <= ssd l.
Proof.
  apply rsum_nonneg. intros x Hx. apply in_map_iff in Hx as (v & <- & _).
  apply Rle_0_sqr.
Qed.

Lemma ssd_zero l v : ssd l = 0 -> In v l -> v = np_mean l.
Proof.
  intros Hs Hv.
  assert (H : (v - np_mean l) * (v - np_mean l) = 0).
  { apply (rsum_zero_all (map (fun v => (v - np_mean l) * (v - np_mean l)) l)).
    - intros x Hx. apply in_map_iff in Hx as (u & <- & _). apply Rle_0_sqr.
    - exact Hs.
    - apply in_map_iff. eauto. }
  nra.
Qed.

Lemma np_std_nonneg l : 0 <= np_std l.
Proof. apply sqrt_pos. Qed.

Lemma np_std_zero l v : l <> [] -> np_std l = 0 -> In v l -> v = np_mean l.
Proof.
  intros Hne Hs Hv. apply ssd_zero; auto.
  pose proof (len_pos l Hne) as Hl. pose proof (ssd_nonneg l) as Hq.
  unfold np_std in Hs. apply sqrt_eq_0 in Hs.
  - apply Rmult_integral in Hs. destruct Hs as [H0|H0]; auto.
    pose proof (Rinv_0_lt_compat _ Hl). lra.
  - apply Rmult_le_pos; auto. apply Rlt_le. now apply Rinv_0_lt_compat.
Qed.

Lemma flt_irrefl_fin x : flt (Fin x) (Fin x) = false.
Proof. cbn. apply Rltb_false. lra. Qed.

Lemma feq_refl_fin x : feq (Fin x) (Fin x) = true.
Proof. cbn. now apply Reqb_true. Qed.

(** Mean and deviation of a constant series. *)
Lemma np_mean_const {A} (m : R) (l : list A) :
  l <> [] -> np_mean (map (fun _ => m) l) = m.
Proof.
  intros Hne. unfold np_mean. rewrite rsum_map_const, len_map.
  assert (0 < INR (length l)) by (destruct l; [congruence | apply lt_0_INR; simpl; lia]).
  field. lra.
Qed.

Lemma ssd_const {A} (m : R) (l : list A) :
  l <> [] -> ssd (map (fun _ => m) l) = 0.
Proof.
  intros Hne. unfold ssd. rewrite np_mean_const by auto.
  rewrite map_map, rsum_map_const. lra.
Qed.

Lemma np_std_const {A} (m : R) (l : list A) :
  l <> [] -> np_std (map (fun _ => m) l) = 0.
Proof.
  intros Hne. unfold np_std. rewrite ssd_const by auto.
  unfold Rdiv. rewrite Rmult_0_l. apply sqrt_0.
Qed.

Lemma rsum_scale c l : rsum (map (fun v => c * v) l) = c * rsum l.
Proof.
  rewrite (rsum_map_scale c (fun v => v)). now rewrite map_id.
Qed.

Lemma rsum_repeat c n : rsum (repeat c n) = INR n * c.
Proof.
  induction n as [|n IH].
  - simpl. unfold rsum. simpl. lra.
  - cbn [repeat]. rewrite rsum_cons, IH, S_INR. lra.
Qed.

Lemma mul_arrays_repeat c n l :
  length l = n -> mul_arrays (repeat c n) l = map (fun v => c * v) l.
Proof.
  intros <-. unfold mul_arrays. induction l as [|a l IH]; simpl; auto.
  now rewrite IH.
Qed.

Lemma sqrt_scaled a b n :
  0 <= a -> 0 <= b -> 0 < n -> sqrt ((a / n) * (b / n)) = sqrt (a * b) / n.
Proof.
  intros Ha Hb Hn.
  replace ((a / n) * (b / n)) with ((a * b) / (n * n)) by (field; lra).
  rewrite sqrt_div_alt by nra. rewrite (sqrt_square n) by lra. reflexivity.
Qed.

Lemma np_mean_single v : np_mean [v] = v.
Proof. unfold np_mean, len, rsum. simpl. lra. Qed.

(** Settles the comparisons of concrete reals that stand in the goal. *)
Ltac decide_real :=
  repeat match goal with
         | |- context [Rleb ?a ?b] =>
             first [ rewrite (proj2 (Rleb_true a b)) by lra
                   | rewrite (proj2 (Rleb_false a b)) by lra ]
         | |- context [Rltb ?a ?b] =>
             first [ rewrite (proj2 (Rltb_true a b)) by lra
                   | rewrite (proj2 (Rltb_false a b)) by lra ]
         | |- context [Reqb ?a ?b] =>
             first [ rewrite (proj2 (Reqb_true a b)) by lra
                   | rewrite (proj2 (Reqb_false a b)) by lra ]
         end.

Lemma np_std_singleton m : np_std [m] = 0.
Proof. apply (np_std_const m [tt]). discriminate. Qed.

(** Standardising a series with positive deviation gives mean 0 and
    population deviation 1. *)
Lemma standardised_mean_std l :
  0 < np_std l ->
  let zs := map (fun v => (v - np_mean l) / np_std l) l in
  np_mean zs = 0 /\ np_std zs = 1.
Proof.
  intros Hsd zs.
  set (mu := np_mean l) in *. set (sd := np_std l) in *.
  assert (Hne : l <> []).
  { intros ->. unfold sd, np_std, ssd in Hsd. cbn in Hsd.
    unfold rsum in Hsd. cbn in Hsd. unfold Rdiv in Hsd.
    rewrite Rmult_0_l, sqrt_0 in Hsd. lra. }
  pose proof (len_pos l Hne) as Hn.
  assert (Hsum : rsum zs = 0).
  { unfold zs.
    rewrite (rsum_map_ext _ (fun v => / sd * v + - (mu / sd)))
      by (intros; field; lra).
    rewrite rsum_map_plus, rsum_map_scale, map_id, rsum_map_const.
    fold (len l). unfold mu, np_mean. field. lra. }
  assert (Hmean : np_mean zs = 0).
  { unfold np_mean. rewrite Hsum. unfold Rdiv. apply Rmult_0_l. }
  split; auto.
  assert (Hsq : ssd l / len l = sd * sd).
  { unfold sd, np_std. rewrite sqrt_sqrt; auto.
    apply Rmult_le_pos; [apply ssd_nonneg|].
    apply Rlt_le. now apply Rinv_0_lt_compat. }
  assert (Hssd : ssd zs = / (sd * sd) * ssd l).
  { unfold ssd at 1. rewrite Hmean. unfold zs. rewrite map_map.
    rewrite (rsum_map_ext _ (fun v => / (sd * sd) * ((v - mu) * (v - mu))))
      by (intros; field; lra).
    rewrite rsum_map_scale. reflexivity. }
  unfold np_std. rewrite Hssd. unfold zs at 1. unfold len. rewrite length_map.
  fold (len l).
  replace (/ (sd * sd) * ssd l / len l) with (/ (sd * sd) * (ssd l / len l))
    by (field; lra).
  rewrite Hsq. replace (/ (sd * sd) * (sd * sd)) with 1 by (field; lra).
  apply sqrt_1.
Qed.

End NpFacts.

Module UniversityComparisonFacts.
Import Frame FrameFacts UniversityComparison.

Lemma major_unis_spec df u :
  In u (major_unis df) <-> (MIN_RECORDS <= rows_of u df)%nat.
Proof.
  unfold major_unis, rows_of. rewrite in_map_iff. split.
  - intros ([s n] & <- & Hin). apply filter_In in Hin as [Hin Hle].
    apply value_counts_In in Hin as [_ ->]. simpl in *.
    now apply Nat.leb_le.
  - intros Hle. exists (u, count_of u (dropna_values (map university df))).
    split; auto. apply filter_In. split.
    + apply value_counts_In. split; auto.
      apply (count_occ_In string_dec). unfold count_of, MIN_RECORDS in Hle. lia.
    + now apply Nat.leb_le.
Qed.

End UniversityComparisonFacts.

Module RelativePerformanceIndexFacts.
Import Frame FrameFacts Np NpFacts RelativePerformanceIndex.

Lemma aggregate_sample_size df a :
  In a (aggregate df) -> (1 <= sample_size a)%nat.
Proof.
  unfold aggregate. intros H. apply in_map_iff in H as ([k vs] & <- & Hg).
  apply groupby_nonempty in Hg. simpl. destruct vs; [congruence | simpl; lia].
Qed.

Lemma filter_min_sample_size_In m agg a :
  In a (filter_min_sample_size m agg) -> In a agg.
Proof.
  unfold filter_min_sample_size. destruct (0 <? m)%Z; auto.
  intros H. now apply filter_In in H.
Qed.

Lemma sub_of_In agg y a : In a (sub_of agg y) <-> In a agg /\ year a = y.
Proof. unfold sub_of. rewrite filter_In, Z.eqb_eq. tauto. Qed.

Lemma years_of_In agg y : In y (years_of agg) <-> exists a, In a agg /\ year a = y.
Proof.
  unfold years_of. rewrite sort_by_In, nodup_In, in_map_iff.
  split; intros (a & H1 & H2); eauto.
Qed.

Lemma find_year_stats_row wm agg ys y :
  In y ys ->
  find (fun s => (ys_year s =? y)%Z) (map (year_stats_row wm agg) ys)
  = Some (year_stats_row wm agg y).
Proof.
  induction ys as [|y0 ys IH]; intros Hy; [destruct Hy|].
  simpl. destruct (Z.eqb_spec y0 y) as [->|Hne]; auto.
  destruct Hy as [E|Hy]; [congruence | auto].
Qed.

Lemma merged_year_stats wm agg a :
  In a agg ->
  merged (year_stats_of wm agg) a = Some (year_stats_row wm agg (year a)).
Proof.
  intros Ha. unfold merged, year_stats_of. apply find_year_stats_row.
  apply years_of_In. eauto.
Qed.

(** The baseline of a year that has groups: both statistics are finite, the
    deviation is not negative, and a zero deviation means that every group
    of the year sits on the mean. *)
Lemma baseline_finite wm agg y :
  sub_of agg y <> [] ->
  (forall a, In a agg -> (1 <= sample_size a)%nat) ->
  exists mu sd,
    ys_year_mean (year_stats_row wm agg y) = Fin mu /\
    ys_year_std (year_stats_row wm agg y) = Fin sd /\
    0 <= sd /\
    (sd = 0 -> forall a, In a (sub_of agg y) -> mean_salary a = mu) /\
    (wm <> "sample_size"%string ->
       mu = np_mean (map mean_salary (sub_of agg y)) /\
       sd = np_std (map mean_salary (sub_of agg y))).
Proof.
  intros Hne Hsz. unfold year_stats_row. cbn [ys_year_mean ys_year_std].
  set (sub := sub_of agg y) in *.
  assert (Hvals : map mean_salary sub <> [])
    by (destruct sub; [congruence | discriminate]).
  assert (Hplain : exists mu sd,
            np_mean_f (map mean_salary sub) = Fin mu /\
            np_std_f (map mean_salary sub) = Fin sd /\ 0 <= sd /\
            (sd = 0 -> forall a, In a sub -> mean_salary a = mu) /\
            mu = np_mean (map mean_salary sub) /\
            sd = np_std (map mean_salary sub)).
  { exists (np_mean (map mean_salary sub)), (np_std (map mean_salary sub)).
    unfold np_mean_f, np_std_f.
    destruct (map mean_salary sub) eqn:E; [congruence|]. rewrite <- E.
    repeat split; auto using np_std_nonneg.
    intros H0 a Ha. apply np_std_zero; [congruence | exact H0 |].
    now apply in_map. }
  destruct (String.eqb_spec wm "sample_size") as [->|Hwm].
  - unfold _weighted_mean_std.
    destruct (Rle_dec (rsum (map (fun a => INR (sample_size a)) sub)) 0)
      as [Hle|Hgt].
    + destruct Hplain as (mu & sd & H1 & H2 & H3 & H4 & _).
      exists mu, sd. cbn [fst snd]. repeat split; auto; congruence.
    + cbn [fst snd].
      set (w_sum := rsum (map (fun a => INR (sample_size a)) sub)) in *.
      set (mean := rsum (mul_arrays (map (fun a => INR (sample_size a)) sub)
                                    (map mean_salary sub)) / w_sum).
      rewrite map_map, mul_arrays_map.
      set (terms := map (fun a => INR (sample_size a) *
                           ((mean_salary a - mean) * (mean_salary a - mean))) sub).
      assert (Hterms : forall x, In x terms -> 0 <= x).
      { intros x Hx. apply in_map_iff in Hx as (a & <- & _).
        apply Rmult_le_pos; [apply pos_INR | apply Rle_0_sqr]. }
      assert (Hw : 0 < w_sum) by lra.
      assert (Hvar : 0 <= rsum terms / w_sum).
      { apply Rmult_le_pos; [now apply rsum_nonneg|].
        apply Rlt_le. now apply Rinv_0_lt_compat. }
      exists mean, (sqrt (rsum terms / w_sum)).
      unfold np_sqrt. destruct (Rlt_dec (rsum terms / w_sum) 0); [lra|].
      repeat split; auto using sqrt_pos; try congruence.
      intros H0 a Ha. apply sqrt_eq_0 in H0; auto.
      apply Rmult_integral in H0. destruct H0 as [H0|H0].
      * assert (Hz : INR (sample_size a) *
                     ((mean_salary a - mean) * (mean_salary a - mean)) = 0).
        { apply (rsum_zero_all terms); auto.
          apply in_map_iff. eauto. }
        assert (Hsa : 1 <= INR (sample_size a)).
        { change 1 with (INR 1). apply le_INR. apply Hsz.
          now apply sub_of_In in Ha. }
        apply Rmult_integral in Hz. destruct Hz as [Hz|Hz]; [lra|].
        apply Rmult_integral in Hz. destruct Hz; lra.
      * pose proof (Rinv_0_lt_compat _ Hw). lra.
  - destruct Hplain as (mu & sd & H1 & H2 & H3 & H4 & H5 & H6).
    exists mu, sd. cbn [fst snd]. repeat split; auto.
Qed.

(** The z-score of a group whose year has a finite baseline. *)
Lemma z_score_of_finite floor stats a mu sd :
  merged_mean stats a = Fin mu ->
  merged_std stats a = Fin sd ->
  (sd = 0 -> mean_salary a = mu) ->
  exists z,
    z_score_of floor stats a = Fin z /\
    (floor <= sd ->
       std_safe floor stats a = Fin sd /\
       z = (mean_salary a - mu) / sd /\ z * sd = mean_salary a - mu) /\
    (sd < floor -> std_safe floor stats a = NaN /\ z = 0).
Proof.
  intros Hmu Hsd Hzero. unfold z_score_of, std_safe.
  rewrite Hmu, Hsd. cbn [fsub fge_real]. unfold where_, Rleb.
  destruct (Rle_dec floor sd) as [Hle|Hlt]; cbn [fdiv].
  - destruct (Req_dec_T sd 0) as [E0|Hn0].
    + assert (Hm : mean_salary a - mu = 0) by (rewrite Hzero; auto; lra).
      destruct (Req_dec_T (mean_salary a - mu) 0); [|contradiction].
      exists 0. cbn [fillna]. split; auto. split; [|lra].
      intros _. rewrite Hm. split; auto. split; [|lra].
      unfold Rdiv. now rewrite Rmult_0_l.
    + exists ((mean_salary a - mu) / sd). cbn [fillna].
      split; auto. split; [|lra].
      intros _. split; auto. split; auto. now field.
  - exists 0. cbn [fillna]. split; auto. split; [lra|]. auto.
Qed.

Lemma score_groups_In wm floor agg r :
  In r (score_groups wm floor agg) ->
  In (base r) agg /\
  year_mean r = merged_mean (year_stats_of wm agg) (base r) /\
  year_std r = merged_std (year_stats_of wm agg) (base r) /\
  year_std_safe r = std_safe floor (year_stats_of wm agg) (base r) /\
  z_score r = z_score_of floor (year_stats_of wm agg) (base r).
Proof.
  unfold score_groups. intros H. apply in_map_iff in H as (a & <- & Ha).
  cbn. auto.
Qed.

(** A year whose groups all have the same mean salary [m]: the baseline is
    ([m], 0) in either weight mode, whatever the sample sizes. *)
Lemma year_stats_row_identical wm agg y m :
  sub_of agg y <> [] ->
  (forall a, In a (sub_of agg y) -> mean_salary a = m) ->
  ys_year_mean (year_stats_row wm agg y) = Fin m /\
  ys_year_std (year_stats_row wm agg y) = Fin 0.
Proof.
  intros Hne Hsame. unfold year_stats_row. cbn [ys_year_mean ys_year_std].
  set (sub := sub_of agg y) in *.
  assert (Hvals : map mean_salary sub = map (fun _ => m) sub)
    by (apply map_ext_in; auto).
  rewrite Hvals.
  assert (Hplain : np_mean_f (map (fun _ : agg_row => m) sub) = Fin m /\
                   np_std_f (map (fun _ : agg_row => m) sub) = Fin 0).
  { unfold np_mean_f, np_std_f.
    destruct (map (fun _ : agg_row => m) sub) eqn:E.
    - destruct sub; [congruence | discriminate].
    - rewrite <- E, np_mean_const, np_std_const; auto. }
  destruct (String.eqb wm "sample_size"); [|exact Hplain].
  unfold _weighted_mean_std.
  destruct (Rle_dec (rsum (map (fun a => INR (sample_size a)) sub)) 0)
    as [Hle|Hgt]; [exact Hplain|].
  cbn [fst snd]. rewrite mul_arrays_map, rsum_map_scale_r.
  set (w_sum := rsum (map (fun a => INR (sample_size a)) sub)) in *.
  assert (Hmean : w_sum * m / w_sum = m) by (field; lra).
  rewrite Hmean. split; auto.
  rewrite map_map, mul_arrays_map.
  rewrite (rsum_map_ext _ (fun _ => 0)) by (intros; lra).
  rewrite rsum_map_const. unfold np_sqrt.
  replace (INR (length sub) * 0 / w_sum) with 0 by (field; lra).
  destruct (Rlt_dec 0 0); [lra|]. now rewrite sqrt_0.
Qed.

(** Lines 113 to 150 on groups of one year that all have the mean salary
    [m]: zero deviation, zero z-score, dense rank 1, and the percentile of
    the middle position. *)
Lemma score_groups_identical wm floor y m agg :
  agg <> [] ->
  (forall a, In a agg -> year a = y /\ mean_salary a = m) ->
  forall r, In r (score_groups wm floor agg) ->
    year_mean r = Fin m /\ year_std r = Fin 0 /\ z_score r = Fin 0 /\
    rank r = 1%Z /\
    percentile r = (INR (length agg) + 1) / 2 / INR (length agg) * 100.
Proof.
  intros Hne Hall.
  assert (Hsub : sub_of agg y = agg).
  { unfold sub_of. apply filter_all. intros a Ha. apply Z.eqb_eq.
    now apply Hall. }
  assert (Hstat : ys_year_mean (year_stats_row wm agg y) = Fin m /\
                  ys_year_std (year_stats_row wm agg y) = Fin 0).
  { apply year_stats_row_identical; rewrite Hsub; auto.
    intros a Ha. now apply Hall. }
  destruct Hstat as [Hmu Hsd].
  assert (Hz : forall a, In a agg ->
             merged_mean (year_stats_of wm agg) a = Fin m /\
             merged_std (year_stats_of wm agg) a = Fin 0 /\
             z_score_of floor (year_stats_of wm agg) a = Fin 0).
  { intros a Ha. destruct (Hall a Ha) as [Hy Hm].
    pose proof (merged_year_stats wm agg a Ha) as Hmerged. rewrite Hy in Hmerged.
    assert (Hmm : merged_mean (year_stats_of wm agg) a = Fin m)
      by (unfold merged_mean; now rewrite Hmerged).
    assert (Hms : merged_std (year_stats_of wm agg) a = Fin 0)
      by (unfold merged_std; now rewrite Hmerged).
    destruct (z_score_of_finite floor _ a m 0 Hmm Hms) as (z & Hzf & Hge & Hlt);
      auto.
    repeat split; auto. rewrite Hzf. f_equal.
    destruct (Rle_dec floor 0) as [Hle|Hgt].
    - destruct (Hge Hle) as (_ & E & _). rewrite E, Hm.
      unfold Rdiv, Rminus. rewrite Rplus_opp_r. apply Rmult_0_l.
    - apply Hlt. lra. }
  intros r Hr. unfold score_groups in Hr.
  apply in_map_iff in Hr as (a & <- & Ha). cbn.
  destruct (Hz a Ha) as (Hmm & Hms & Hza). destruct (Hall a Ha) as [Hy _].
  rewrite Hmm, Hms, Hza, Hy, Hsub.
  assert (Hzs : map (z_score_of floor (year_stats_of wm agg)) agg
                = map (fun _ => Fin 0) agg).
  { apply map_ext_in. intros b Hb. now apply Hz. }
  rewrite Hzs. repeat split; auto.
  - unfold dense_rank. rewrite filter_none; [reflexivity|].
    intros v Hv. apply in_map_iff in Hv as (b & <- & _). apply flt_irrefl_fin.
  - unfold pct_rank. rewrite filter_none, filter_all.
    + rewrite length_map. simpl. lra.
    + intros v Hv. apply in_map_iff in Hv as (b & <- & _). apply feq_refl_fin.
    + intros v Hv. apply in_map_iff in Hv as (b & <- & _). apply flt_irrefl_fin.
Qed.

Lemma missing_required_In cols sc gb c :
  In c (missing_required cols sc gb) <->
  In c (required sc gb) /\ ~ In c cols.
Proof.
  unfold missing_required. rewrite filter_In.
  destruct (in_dec string_dec c cols); intuition congruence.
Qed.

Lemma compute_ok_inv df sc gb mss wm floor res :
  compute_relative_performance_index df sc gb mss wm floor = Ok res ->
  let agg := filter_min_sample_size mss (aggregate (dropna (rows df))) in
  missing_required (columns df) sc gb = [] /\
  table res = sort_by by_year_rank (score_groups wm floor agg) /\
  year_stats res = year_stats_of wm agg.
Proof.
  unfold compute_relative_performance_index.
  destruct (missing_required (columns df) sc gb); [|discriminate].
  cbv zeta.
  destruct (year_stats_of wm
              (filter_min_sample_size mss (aggregate (dropna (rows df)))))
    eqn:E; [discriminate|].
  intros [= <-]. cbn. auto.
Qed.

(** *** The per-group frame of [select_focus_groups] *)

Lemma members_rows_of_group tbl g :
  members string_dec s_group g tbl = rows_of_group tbl g.
Proof.
  unfold members, rows_of_group. apply filter_ext. intros r.
  destruct (string_dec (s_group r) g) as [->|Hn].
  - now rewrite String.eqb_refl.
  - symmetry. now apply String.eqb_neq.
Qed.

Lemma focus_stats_eq tbl :
  focus_stats tbl
  = map (stat_of tbl) (group_keys string_dec String.leb s_group tbl).
Proof.
  unfold focus_stats, groupby. rewrite map_map. apply map_ext. intros g.
  cbn [fst snd]. now rewrite members_rows_of_group.
Qed.

Lemma by_avg_z_years_true a b :
  by_avg_z_years a b = true <->
  avg_z b < avg_z a \/ (avg_z a = avg_z b /\ (years b <= years a)%nat).
Proof.
  unfold by_avg_z_years.
  rewrite orb_true_iff, andb_true_iff, Rltb_true, Reqb_true, Nat.leb_le.
  tauto.
Qed.

Lemma by_avg_z_years_total a b :
  by_avg_z_years a b = true \/ by_avg_z_years b a = true.
Proof.
  rewrite !by_avg_z_years_true.
  destruct (Rtotal_order (avg_z a) (avg_z b)) as [H|[H|H]]; auto.
  destruct (Nat.le_ge_cases (years a) (years b)); auto.
Qed.

Lemma by_avg_z_years_trans a b c :
  by_avg_z_years a b = true -> by_avg_z_years b c = true ->
  by_avg_z_years a c = true.
Proof.
  rewrite !by_avg_z_years_true.
  intros [H1|[H1 H1']] [H2|[H2 H2']]; try (left; lra).
  right. split; [lra | lia].
Qed.

Lemma eligible_stats tbl min_years :
  map f_group
      (filter (fun r => (min_years <=? Z.of_nat (years r))%Z) (focus_stats tbl))
  = filter (fun g => (min_years <=? Z.of_nat (periods_present tbl g))%Z)
           (group_keys string_dec String.leb s_group tbl).
Proof.
  rewrite focus_stats_eq, filter_map_comm, map_map. cbn [stat_of f_group years].
  apply map_id.
Qed.

Lemma eligible_stats_In tbl min_years r :
  In r (filter (fun r => (min_years <=? Z.of_nat (years r))%Z) (focus_stats tbl))
  <-> In (f_group r) (map s_group tbl) /\
      r = stat_of tbl (f_group r) /\
      (min_years <= Z.of_nat (periods_present tbl (f_group r)))%Z.
Proof.
  rewrite filter_In, focus_stats_eq, in_map_iff, Z.leb_le. split.
  - intros [(g & <- & Hg) Hy]. apply group_keys_In in Hg. cbn in *. auto.
  - intros (Hg & Hr & Hy). split.
    + exists (f_group r). split; auto. now apply group_keys_In.
    + rewrite Hr. exact Hy.
Qed.

End RelativePerformanceIndexFacts.

Module UniversityComparisonTheorems.
Import Frame FrameFacts UniversityComparison UniversityComparisonFacts.

Lemma rows_of_cons r df u :
  rows_of u (r :: df) =
  ((if isin (university r) [u] then 1 else 0) + rows_of u df)%nat.
Proof.
  unfold rows_of, count_of, isin. simpl.
  destruct (university r) as [s|]; simpl; auto.
  destruct (string_dec s u) as [E|Hn]; destruct (string_dec u s) as [E'|Hn'];
    try congruence; auto.
Qed.

Lemma rows_of_filter_isin (L : list string) df u :
  rows_of u (filter (fun r => isin (university r) L) df) =
  if in_dec string_dec u L then rows_of u df else 0%nat.
Proof.
  induction df as [|r df IH].
  - simpl. now destruct (in_dec string_dec u L).
  - simpl filter. destruct (isin (university r) L) eqn:E.
    + rewrite !rows_of_cons, IH. destruct (in_dec string_dec u L); auto.
      destruct (isin (university r) [u]) eqn:E'; auto.
      apply isin_true in E as (s & Hs & Hin).
      apply isin_true in E' as (s' & Hs' & [<-|[]]). congruence.
    + rewrite rows_of_cons, IH. destruct (in_dec string_dec u L); auto.
      destruct (isin (university r) [u]) eqn:E'; auto.
      apply isin_true in E' as (s' & Hs' & [<-|[]]).
      assert (isin (university r) L = true) by (apply isin_true; eauto).
      congruence.
Qed.

Lemma filter_comm {A} (f g : A -> bool) l :
  filter f (filter g l) = filter g (filter f l).
Proof.
  induction l as [|a l IH]; simpl; auto.
  destruct (g a) eqn:Eg, (f a) eqn:Ef; simpl; rewrite ?Eg, ?Ef, IH; auto.
Qed.

(** The universities filter keeps all the rows of a listed university and
    none of an unlisted one. *)
Lemma rows_of_apply_filters csv ys ye unis cats u :
  rows_of u (apply_filters csv ys ye unis cats)
  = match unis with
    | Some (v :: vs) =>
        if in_dec string_dec u (v :: vs)
        then rows_of u (apply_filters csv ys ye None cats)
        else 0%nat
    | _ => rows_of u (apply_filters csv ys ye None cats)
    end.
Proof.
  unfold apply_filters. destruct unis as [[|v vs]|]; auto.
  destruct cats as [[|c cs]|]; try apply rows_of_filter_isin.
  rewrite filter_comm. apply rows_of_filter_isin.
Qed.

(** C10. Every row returned by [load_data] belongs to a university that has
    at least [MIN_RECORDS] = 40 rows in the year- and category-filtered
    frame, and all of those rows are returned; a university with fewer such
    rows contributes no row at all, whether or not the caller listed it in
    [universities]. *)
Theorem load_data_min_records :
  forall csv year_start year_end universities categories,
    let filtered := apply_filters csv year_start year_end None categories in
    let out := load_data csv year_start year_end universities categories in
    MIN_RECORDS = 40%nat /\
    (forall r, In r out ->
       exists u, university r = Some u /\ (40 <= rows_of u filtered)%nat /\
                 rows_of u out = rows_of u filtered) /\
    (forall u, (rows_of u filtered < 40)%nat ->
       rows_of u out = 0%nat /\ forall r, In r out -> university r <> Some u).
Proof.
  intros csv ys ye unis cats filtered out. split; [reflexivity|].
  set (df := apply_filters csv ys ye unis cats).
  assert (Hcount : forall u, rows_of u out =
            if in_dec string_dec u (major_unis df) then rows_of u df else 0%nat)
    by (intro u; apply rows_of_filter_isin).
  assert (Hdf : forall u, rows_of u df = rows_of u filtered \/
                          rows_of u df = 0%nat).
  { intros u. unfold df. rewrite rows_of_apply_filters. fold filtered.
    destruct unis as [[|v vs]|]; auto.
    destruct (in_dec string_dec u (v :: vs)); auto. }
  assert (Hmajor : forall u, In u (major_unis df) ->
            (40 <= rows_of u filtered)%nat /\ rows_of u df = rows_of u filtered).
  { intros u Hm. apply major_unis_spec in Hm.
    change (40 <= rows_of u df)%nat in Hm. destruct (Hdf u); lia. }
  split.
  - intros r Hr. apply filter_In in Hr as [_ Hr].
    apply isin_true in Hr as (u & Hu & Hmaj). exists u. split; auto.
    destruct (Hmajor u Hmaj) as [H40 Heq]. split; auto.
    rewrite Hcount. destruct (in_dec string_dec u (major_unis df)); tauto.
  - intros u Hlt. split.
    + rewrite Hcount.
      destruct (in_dec string_dec u (major_unis df)) as [Hm|]; auto.
      apply Hmajor in Hm. lia.
    + intros r Hr Hu. apply filter_In in Hr as [_ Hr].
      apply isin_true in Hr as (u' & Hu' & Hmaj).
      assert (u' = u) by congruence. subst u'.
      apply Hmajor in Hmaj. lia.
Qed.

(** A listed university with 39 rows in range is dropped, one with 40 stays. *)
Example load_data_drops_listed_small_university :
  let row u := mk_record (Some 2020%Z) (Some u) (Some "Engineering"%string)
                         (Some "Course"%string) in
  let csv := repeat (row "SMU"%string) 39 ++ repeat (row "NUS"%string) 40 in
  load_data csv 2015 2022 (Some ["SMU"; "NUS"]%string) None
  = repeat (row "NUS"%string) 40.
Proof. vm_compute. reflexivity. Qed.

End UniversityComparisonTheorems.

Module RelativePerformanceIndexTheorems.
Import Frame FrameFacts Np NpFacts.
Import RelativePerformanceIndex RelativePerformanceIndexFacts.

(** C1. Every row of the normalisation table carries the baseline of its
    year, which is finite, and a finite z-score: when the baseline deviation
    reaches the floor the z-score is (mean_salary - year_mean) / year_std,
    and below the floor it is exactly 0.  No z-score is NaN or infinite. *)
Theorem z_score_floor_formula :
  forall df salary_column group_by min_sample_size weight_mode
         zscore_floor_std res r,
    compute_relative_performance_index df salary_column group_by
      min_sample_size weight_mode zscore_floor_std = Ok res ->
    In r (table res) ->
    exists s mu sd z,
      In s (year_stats res) /\ ys_year s = year (base r) /\
      ys_year_mean s = Fin mu /\ ys_year_std s = Fin sd /\
      year_mean r = Fin mu /\ year_std r = Fin sd /\
      z_score r = Fin z /\
      (zscore_floor_std <= sd ->
         z = (mean_salary (base r) - mu) / sd /\
         z * sd = mean_salary (base r) - mu) /\
      (sd < zscore_floor_std -> z = 0).
Proof.
  intros df sc gb mss wm floor res r Hok Hr.
  apply compute_ok_inv in Hok as (_ & Htable & Hstats).
  rewrite Htable in Hr. apply sort_by_In in Hr.
  set (agg := filter_min_sample_size mss (aggregate (dropna (rows df)))) in *.
  apply score_groups_In in Hr as (Ha & Hmean & Hstd & _ & Hz).
  assert (Hsize : forall a, In a agg -> (1 <= sample_size a)%nat).
  { intros a Hin. apply filter_min_sample_size_In in Hin.
    now apply aggregate_sample_size in Hin. }
  assert (Hsub : sub_of agg (year (base r)) <> []).
  { intros E. assert (Hin : In (base r) (sub_of agg (year (base r))))
      by (apply sub_of_In; auto).
    rewrite E in Hin. destruct Hin. }
  destruct (baseline_finite wm agg (year (base r)) Hsub Hsize)
    as (mu & sd & Hmu & Hsd & Hpos & Hzero & _).
  pose proof (merged_year_stats wm agg (base r) Ha) as Hmerged.
  assert (Hmm : merged_mean (year_stats_of wm agg) (base r) = Fin mu)
    by (unfold merged_mean; now rewrite Hmerged).
  assert (Hms : merged_std (year_stats_of wm agg) (base r) = Fin sd)
    by (unfold merged_std; now rewrite Hmerged).
  destruct (z_score_of_finite floor _ _ mu sd Hmm Hms) as (z & Hzf & Hge & Hlt).
  { intros E. apply Hzero; auto. apply sub_of_In; auto. }
  exists (year_stats_row wm agg (year (base r))), mu, sd, z.
  rewrite Hstats, Hmean, Hstd, Hz.
  repeat split; auto; try (apply Hge; assumption); try (apply Hlt; assumption).
  unfold year_stats_of. apply in_map. apply years_of_In. eauto.
Qed.

(** C7. When a column of ["year"], the salary column or the grouping
    columns is absent from the frame, the computation ends in the error
    that lists every absent required column, and in nothing else; when all
    of them are present that error is not raised. *)
Theorem missing_columns_reported :
  forall df salary_column group_by min_sample_size weight_mode
         zscore_floor_std,
    let run := compute_relative_performance_index df salary_column group_by
                 min_sample_size weight_mode zscore_floor_std in
    let missing := missing_required (columns df) salary_column group_by in
    (forall c, In c missing <->
               In c ("year"%string :: salary_column :: group_by) /\
               ~ In c (columns df)) /\
    ((exists c, In c ("year"%string :: salary_column :: group_by) /\
                ~ In c (columns df)) ->
       run = ValueError missing) /\
    ((forall c, In c ("year"%string :: salary_column :: group_by) ->
                In c (columns df)) ->
       forall names, run <> ValueError names).
Proof.
  intros df sc gb mss wm floor run missing.
  split; [intro c; apply missing_required_In|]. split.
  - intros (c & Hreq & Habs).
    assert (Hin : In c missing) by (apply missing_required_In; auto).
    unfold run, compute_relative_performance_index. fold missing.
    destruct missing; [destruct Hin | reflexivity].
  - intros Hall names. unfold run, compute_relative_performance_index.
    fold missing.
    destruct missing as [|c cs] eqn:E.
    + cbv zeta.
      destruct (year_stats_of wm
                  (filter_min_sample_size mss (aggregate (dropna (rows df)))));
        discriminate.
    + assert (Hin : In c missing) by (rewrite E; now left).
      apply missing_required_In in Hin as [Hreq Habs].
      destruct Habs. now apply Hall.
Qed.

(** A frame without the salary column and without one of two grouping
    columns: both names are in the error. *)
Example missing_columns_both_named :
  compute_relative_performance_index RelativePerformanceSamples.two_courses
    "basic_monthly_median" ["course"; "faculty"]%string 1 "none"
    RelativePerformanceSamples.default_floor
  = ValueError ["basic_monthly_median"; "faculty"]%string.
Proof. reflexivity. Qed.

(** A frame with every column and no row leaves no group: the merge
    raises. *)
Example empty_frame_raises_key_error :
  compute_relative_performance_index
    (mk_frame RelativePerformanceSamples.survey_columns [])
    "gross_monthly_median" ["course"%string] 1 "none"
    RelativePerformanceSamples.default_floor
  = KeyError ["year"; "year_mean"; "year_std"; "n_groups"]%string.
Proof. reflexivity. Qed.

Import RelativePerformanceSamples.

Lemma z_score_floor_formula_witness :
  exists res r,
    compute_relative_performance_index two_courses "gross_monthly_median"
      ["course"%string] 1 "none" default_floor = Ok res /\
    In r (table res) /\
    exists s mu sd z,
      In s (year_stats res) /\ ys_year s = year (base r) /\
      ys_year_mean s = Fin mu /\ ys_year_std s = Fin sd /\
      year_mean r = Fin mu /\ year_std r = Fin sd /\
      z_score r = Fin z /\
      (default_floor <= sd ->
         z = (mean_salary (base r) - mu) / sd /\
         z * sd = mean_salary (base r) - mu) /\
      (sd < default_floor -> z = 0).
Proof.
  eexists. eexists. split; [reflexivity|].
  split; [apply sort_by_In; left; reflexivity|].
  apply (z_score_floor_formula two_courses "gross_monthly_median"
           ["course"%string] 1 "none" default_floor).
  - reflexivity.
  - apply sort_by_In. left. reflexivity.
Defined.

(** C2, as the code has it.  One year, three groups with the same mean
    salary: the three rows share one z-score, and each has dense rank 1 and
    percentile 200/3 (the mean position 2 of 3, as a percentage).  The
    z-score is 0 wherever the baseline deviation reported for the year is
    below the floor; and where the baseline mean reported for the year is
    that common salary itself, the baseline deviation is 0 and each z-score
    is 0.  (In exact arithmetic the mean of equal numbers is always that
    number; what the code does where rounding moves it is stated in
    [RelativePerformanceBinary64Theorems].) *)
Theorem identical_means_scores :
  forall df salary_column group_by min_sample_size weight_mode
         zscore_floor_std res a1 a2 a3,
    compute_relative_performance_index df salary_column group_by
      min_sample_size weight_mode zscore_floor_std = Ok res ->
    filter_min_sample_size min_sample_size (aggregate (dropna (rows df)))
      = [a1; a2; a3] ->
    year a2 = year a1 -> year a3 = year a1 ->
    mean_salary a2 = mean_salary a1 -> mean_salary a3 = mean_salary a1 ->
    length (table res) = 3%nat /\
    (forall r, In r (table res) -> rank r = 1%Z /\ percentile r = 200 / 3) /\
    (forall r r', In r (table res) -> In r' (table res) ->
       z_score r = z_score r') /\
    (forall r sd, In r (table res) ->
       year_std r = Fin sd -> sd < zscore_floor_std -> z_score r = Fin 0) /\
    (forall r, In r (table res) ->
       year_mean r = Fin (mean_salary a1) ->
       year_std r = Fin 0 /\ z_score r = Fin 0).
Proof.
  intros df sc gb mss wm floor res a1 a2 a3 Hok Hagg Hy2 Hy3 Hm2 Hm3.
  apply compute_ok_inv in Hok as (_ & Htable & _).
  rewrite Hagg in *.
  assert (Hall : forall a, In a [a1; a2; a3] ->
                   year a = year a1 /\ mean_salary a = mean_salary a1).
  { intros a [<-|[<-|[<-|[]]]]; auto. }
  assert (Hrow : forall r, In r (table res) ->
            year_std r = Fin 0 /\ z_score r = Fin 0 /\ rank r = 1%Z /\
            percentile r = 200 / 3).
  { intros r Hr. rewrite Htable in Hr. apply sort_by_In in Hr.
    destruct (score_groups_identical wm floor (year a1) (mean_salary a1)
                [a1; a2; a3]) with (r := r)
      as (_ & Hsd & Hz & Hrank & Hpct); auto; [discriminate|].
    repeat split; auto. rewrite Hpct. simpl. lra. }
  split; [|split; [|split; [|split]]].
  - rewrite Htable, <- (Permutation_length (sort_by_perm _ _)).
    unfold score_groups. now rewrite length_map.
  - intros r Hr. destruct (Hrow r Hr) as (_ & _ & Hrank & Hpct). now split.
  - intros r r' Hr Hr'.
    destruct (Hrow r Hr) as (_ & Hz & _).
    destruct (Hrow r' Hr') as (_ & Hz' & _). now rewrite Hz, Hz'.
  - intros r sd Hr _ _. now destruct (Hrow r Hr) as (_ & Hz & _).
  - intros r Hr _. destruct (Hrow r Hr) as (Hsd & Hz & _). now split.
Qed.

(** Three courses at 3000: the baseline mean is 3000, so the deviation and
    the z-scores are 0. *)
Lemma identical_means_scores_witness :
  exists res,
    compute_relative_performance_index three_alike "gross_monthly_median"
      ["course"%string] 1 "none" default_floor = Ok res /\
    length (table res) = 3%nat /\
    (forall r, In r (table res) ->
       rank r = 1%Z /\ percentile r = 200 / 3 /\
       year_mean r = Fin 3000 /\ year_std r = Fin 0 /\ z_score r = Fin 0).
Proof.
  eassert (Hok : compute_relative_performance_index three_alike
                   "gross_monthly_median" ["course"%string] 1 "none"
                   default_floor = Ok _) by reflexivity.
  eexists. split; [exact Hok|].
  destruct (identical_means_scores three_alike "gross_monthly_median"
              ["course"%string] 1 "none" default_floor _
              (mk_agg 2020 ["Arts"%string] (np_mean [3000]) 1)
              (mk_agg 2020 ["Law"%string] (np_mean [3000]) 1)
              (mk_agg 2020 ["Music"%string] (np_mean [3000]) 1)
              Hok eq_refl eq_refl eq_refl eq_refl eq_refl)
    as (Hlen & Hrank & _ & _ & Hflat).
  split; [exact Hlen|]. intros r Hr.
  assert (Hmean : year_mean r = Fin (np_mean [3000])).
  { cbn [table] in Hr. apply sort_by_In in Hr.
    refine (proj1 (score_groups_identical "none" default_floor 2020
                     (np_mean [3000]) _ _ _ r Hr)); [discriminate|].
    intros a [<-|[<-|[<-|[]]]]; auto. }
  destruct (Hrank r Hr) as [H1 H2].
  destruct (Hflat r Hr Hmean) as [H3 H4].
  rewrite np_mean_single in Hmean. repeat split; assumption.
Defined.

(** C2 as the specification words it fails: on three courses of one year
    with the same median the percentile is not 50. *)
Lemma identical_means_percentile_not_50 :
  ~ (forall res,
       compute_relative_performance_index three_alike "gross_monthly_median"
         ["course"%string] 1 "none" default_floor = Ok res ->
       forall r, In r (table res) ->
         year_std r = Fin 0 /\ z_score r = Fin 0 /\ rank r = 1%Z /\
         percentile r = 50).
Proof.
  intros H. specialize (H _ eq_refl). cbn [table] in H.
  set (agg := filter_min_sample_size 1 (aggregate (dropna (rows three_alike)))) in *.
  assert (Hagg : agg = [mk_agg 2020 ["Arts"%string] (np_mean [3000]) 1;
                        mk_agg 2020 ["Law"%string] (np_mean [3000]) 1;
                        mk_agg 2020 ["Music"%string] (np_mean [3000]) 1])
    by reflexivity.
  assert (Hall : forall a, In a agg ->
                   year a = 2020%Z /\ mean_salary a = np_mean [3000]).
  { rewrite Hagg. intros a [<-|[<-|[<-|[]]]]; auto. }
  assert (Hne : agg <> []) by (rewrite Hagg; discriminate).
  pose proof (score_groups_identical "none" default_floor _ _ agg Hne Hall)
    as Hcode.
  assert (Hex : exists r, In r (score_groups "none" default_floor agg)).
  { rewrite Hagg. eexists. left. reflexivity. }
  destruct Hex as (r & Hr).
  destruct (Hcode r Hr) as (_ & _ & _ & _ & Hpct).
  destruct (H r) as (_ & _ & _ & H50); [now apply sort_by_In|].
  rewrite Hpct, Hagg in H50. simpl in H50. lra.
Qed.

(** Standardisation in exact arithmetic.  In the unweighted mode, with a
    positive floor, the z-scores of a year whose baseline deviation reaches
    the floor have arithmetic mean 0 and population standard deviation 1;
    such a year has at least two groups.  This is the mathematics the code
    aims at; [RelativePerformanceBinary64Theorems] shows a year where the
    float64 computation leaves it. *)
Theorem z_scores_standardised :
  forall df salary_column group_by min_sample_size weight_mode
         zscore_floor_std res s sd,
    weight_mode <> "sample_size"%string ->
    0 < zscore_floor_std ->
    compute_relative_performance_index df salary_column group_by
      min_sample_size weight_mode zscore_floor_std = Ok res ->
    In s (year_stats res) ->
    ys_year_std s = Fin sd ->
    zscore_floor_std <= sd ->
    exists zs,
      map z_score
          (filter (fun r => (year (base r) =? ys_year s)%Z) (table res))
      = map Fin zs /\
      length zs = ys_n_groups s /\
      (2 <= length zs)%nat /\
      np_mean zs = 0 /\ np_std zs = 1.
Proof.
  intros df sc gb mss wm floor res s sd Hwm Hfloor Hok Hs Hsd Hge.
  apply compute_ok_inv in Hok as (_ & Htable & Hstats).
  set (agg := filter_min_sample_size mss (aggregate (dropna (rows df)))) in *.
  rewrite Hstats in Hs. unfold year_stats_of in Hs.
  apply in_map_iff in Hs as (y & <- & Hy).
  apply years_of_In in Hy as (a0 & Ha0 & Hy0).
  change (ys_year (year_stats_row wm agg y)) with y.
  change (ys_n_groups (year_stats_row wm agg y)) with (length (sub_of agg y)).
  set (sub := sub_of agg y) in *.
  assert (Hne : sub <> []).
  { intros E. assert (Hin : In a0 sub) by (apply sub_of_In; auto).
    rewrite E in Hin. destruct Hin. }
  assert (Hsize : forall a, In a agg -> (1 <= sample_size a)%nat).
  { intros a Hin. apply filter_min_sample_size_In in Hin.
    now apply aggregate_sample_size in Hin. }
  destruct (baseline_finite wm agg y Hne Hsize)
    as (mu & sd' & Hmu & Hsd' & _ & _ & Hplain).
  destruct (Hplain Hwm) as [Emu Esd'].
  assert (Hsame : sd' = sd) by (rewrite Hsd' in Hsd; now injection Hsd).
  assert (Esd : sd = np_std (map mean_salary sub)) by (now rewrite <- Hsame).
  clear Hsd' Esd' Hplain Hsame sd'. fold sub in Emu.
  set (vals := map mean_salary sub) in *.
  assert (Hpos : 0 < np_std vals) by (rewrite <- Esd; lra).
  destruct (standardised_mean_std vals Hpos) as [Hmean Hstd].
  rewrite <- Emu, <- Esd in Hmean, Hstd.
  set (zs0 := map (fun v => (v - mu) / sd) vals) in *.
  assert (Hrows : map z_score
                    (filter (fun r => (year (base r) =? y)%Z)
                            (score_groups wm floor agg))
                  = map Fin zs0).
  { unfold score_groups. rewrite filter_map_comm. cbn [base].
    fold (sub_of agg y). fold sub. rewrite map_map. cbn [z_score].
    unfold zs0, vals. rewrite !map_map. apply map_ext_in.
    intros a Ha. apply sub_of_In in Ha as [Ha Hya].
    pose proof (merged_year_stats wm agg a Ha) as Hmerged.
    rewrite Hya in Hmerged.
    assert (Hmm : merged_mean (year_stats_of wm agg) a = Fin mu)
      by (unfold merged_mean; now rewrite Hmerged).
    assert (Hms : merged_std (year_stats_of wm agg) a = Fin sd)
      by (unfold merged_std; now rewrite Hmerged).
    destruct (z_score_of_finite floor _ a mu sd Hmm Hms) as (z & Hz & Hzge & _);
      [lra|].
    rewrite Hz. f_equal. now apply Hzge. }
  assert (Hperm : Permutation
                    (map z_score
                       (filter (fun r => (year (base r) =? y)%Z) (table res)))
                    (map Fin zs0)).
  { rewrite <- Hrows, Htable. apply Permutation_map, filter_perm.
    symmetry. apply sort_by_perm. }
  apply Permutation_map_inv in Hperm as (zs & Hzs & Hp).
  exists zs. split; auto.
  assert (Hlen : length zs = length sub).
  { rewrite <- (Permutation_length Hp). unfold zs0, vals.
    now rewrite !length_map. }
  split; auto. split.
  - rewrite Hlen. destruct sub as [|a [|b t]] eqn:E; [congruence| |simpl; lia].
    exfalso. unfold vals in Hpos. cbn [map] in Hpos.
    rewrite np_std_singleton in Hpos. lra.
  - rewrite <- (np_mean_perm _ _ Hp), <- (np_std_perm _ _ Hp). auto.
Qed.

(** Why the floor has to be positive there: with the floor 0 a year of
    identical means is not floored (its deviation 0 reaches the floor), and
    its z-scores are all 0. *)
Example zero_floor_flat_year :
  exists res,
    compute_relative_performance_index three_alike "gross_monthly_median"
      ["course"%string] 1 "none" 0 = Ok res /\
    forall r, In r (table res) ->
      year_std r = Fin 0 /\ year_std_safe r = Fin 0 /\ z_score r = Fin 0.
Proof.
  eexists. split; [reflexivity|]. cbn [table]. intros r Hr.
  apply sort_by_In in Hr.
  set (agg := filter_min_sample_size 1 (aggregate (dropna (rows three_alike)))) in *.
  assert (Hagg : agg = [mk_agg 2020 ["Arts"%string] (np_mean [3000]) 1;
                        mk_agg 2020 ["Law"%string] (np_mean [3000]) 1;
                        mk_agg 2020 ["Music"%string] (np_mean [3000]) 1])
    by reflexivity.
  assert (Hall : forall a, In a agg ->
                   year a = 2020%Z /\ mean_salary a = np_mean [3000]).
  { rewrite Hagg. intros a [<-|[<-|[<-|[]]]]; auto. }
  assert (Hne : agg <> []) by (rewrite Hagg; discriminate).
  destruct (score_groups_identical "none" 0 _ _ agg Hne Hall r Hr)
    as (_ & Hsd & Hz & _).
  apply score_groups_In in Hr as (_ & _ & Hstd & Hsafe & _).
  repeat split; auto.
  rewrite Hsafe. unfold std_safe. rewrite <- Hstd, Hsd. cbn [fge_real].
  now rewrite (proj2 (Rleb_true 0 0) (Rle_refl 0)).
Qed.

Lemma two_courses_deviation : np_std [np_mean [4000]; np_mean [3000]] = 500.
Proof.
  rewrite !np_mean_single.
  assert (Hm : np_mean [4000; 3000] = 3500)
    by (unfold np_mean, len, rsum; simpl; lra).
  unfold np_std, ssd. rewrite Hm. unfold len, rsum. simpl.
  replace (((4000 - 3500) * (4000 - 3500) +
            ((3000 - 3500) * (3000 - 3500) + 0)) / (1 + 1))
    with (500 * 500) by lra.
  apply sqrt_square. lra.
Qed.

Lemma default_floor_small : default_floor <= 500.
Proof.
  unfold default_floor. assert (/ 1000000000 <= 1); [|lra].
  rewrite <- Rinv_1. apply Rinv_le_contravar; lra.
Qed.

Lemma z_scores_standardised_witness :
  exists res zs,
    compute_relative_performance_index two_courses "gross_monthly_median"
      ["course"%string] 1 "none" default_floor = Ok res /\
    map z_score (filter (fun r => (year (base r) =? 2020)%Z) (table res))
      = map Fin zs /\
    length zs = 2%nat /\ (2 <= length zs)%nat /\
    np_mean zs = 0 /\ np_std zs = 1.
Proof.
  assert (Hfloor : 0 < default_floor)
    by (unfold default_floor; apply Rinv_0_lt_compat; lra).
  assert (Hge : default_floor <= np_std [np_mean [4000]; np_mean [3000]])
    by (rewrite two_courses_deviation; apply default_floor_small).
  eassert (Hok : compute_relative_performance_index two_courses
                   "gross_monthly_median" ["course"%string] 1 "none"
                   default_floor = Ok _) by reflexivity.
  destruct (z_scores_standardised two_courses "gross_monthly_median"
              ["course"%string] 1 "none" default_floor _
              (mk_year_stat 2020 (Fin (np_mean [np_mean [4000]; np_mean [3000]]))
                            (Fin (np_std [np_mean [4000]; np_mean [3000]]))
                            2 "none")
              (np_std [np_mean [4000]; np_mean [3000]])
              ltac:(discriminate) Hfloor Hok
              ltac:(left; reflexivity) eq_refl Hge)
    as (zs & H).
  eexists. exists zs. split; [exact Hok | exact H].
Defined.

(** The two courses of 2020, worked through: baseline 3500 and 500, z-scores
    1 and -1, ranks 1 and 2, percentiles 100 and 50. *)
Lemma two_courses_year_stats :
  year_stats_of "none" two_courses_agg
  = [mk_year_stat 2020 (Fin 3500) (Fin 500) 2 "none"].
Proof.
  unfold year_stats_of. change (years_of two_courses_agg) with [2020%Z].
  cbn [map]. unfold year_stats_row.
  change (sub_of two_courses_agg 2020) with two_courses_agg.
  cbn [String.eqb Ascii.eqb Bool.eqb map mean_salary two_courses_agg
       np_mean_f np_std_f fst snd length].
  pose proof two_courses_deviation as Hsd. rewrite !np_mean_single in Hsd.
  rewrite Hsd.
  replace (np_mean [4000; 3000]) with 3500
    by (unfold np_mean, len, rsum; simpl; lra).
  reflexivity.
Qed.

Lemma two_courses_z_score a z :
  year a = 2020%Z -> (mean_salary a - 3500) / 500 = z ->
  z_score_of default_floor (year_stats_of "none" two_courses_agg) a = Fin z.
Proof.
  intros Hy Hz. rewrite two_courses_year_stats.
  unfold z_score_of, std_safe, merged_mean, merged_std, merged.
  cbn [find ys_year]. rewrite Hy.
  cbn [Z.eqb Pos.eqb ys_year_mean ys_year_std fge_real].
  rewrite (proj2 (Rleb_true _ _) default_floor_small). cbn [where_ fsub fdiv].
  destruct (Req_dec_T 500 0); [lra|]. cbn [fillna]. now rewrite Hz.
Qed.

Example two_courses_table :
  exists res,
    compute_relative_performance_index two_courses "gross_monthly_median"
      ["course"%string] 1 "none" default_floor = Ok res /\
    map (fun r => (group (base r), z_score r, rank r, percentile r)) (table res)
    = [(["Arts"%string], Fin 1, 1%Z, 100); (["Law"%string], Fin (-1), 2%Z, 50)].
Proof.
  eexists. split; [reflexivity|]. cbn [table].
  change (filter_min_sample_size 1 (aggregate (dropna (rows two_courses))))
    with [mk_agg 2020 ["Arts"%string] (np_mean [4000]) 1;
          mk_agg 2020 ["Law"%string] (np_mean [3000]) 1].
  rewrite !np_mean_single. fold two_courses_agg.
  assert (H1 : z_score_of default_floor (year_stats_of "none" two_courses_agg)
                 (mk_agg 2020 ["Arts"%string] 4000 1) = Fin 1)
    by (apply two_courses_z_score; [reflexivity | cbn [mean_salary]; lra]).
  assert (H2 : z_score_of default_floor (year_stats_of "none" two_courses_agg)
                 (mk_agg 2020 ["Law"%string] 3000 1) = Fin (-1))
    by (apply two_courses_z_score; [reflexivity | cbn [mean_salary]; lra]).
  unfold two_courses_agg in *. unfold score_groups. cbv zeta. cbn [map year].
  change (sub_of [mk_agg 2020 ["Arts"%string] 4000 1;
                  mk_agg 2020 ["Law"%string] 3000 1] 2020)
    with [mk_agg 2020 ["Arts"%string] 4000 1;
          mk_agg 2020 ["Law"%string] 3000 1].
  cbn [map]. rewrite !H1, !H2.
  assert (R1 : dense_rank [Fin 1; Fin (-1)] (Fin 1) = 1%Z)
    by (unfold dense_rank; cbn [filter flt]; decide_real; reflexivity).
  assert (R2 : dense_rank [Fin 1; Fin (-1)] (Fin (-1)) = 2%Z)
    by (unfold dense_rank; cbn [filter flt]; decide_real; reflexivity).
  assert (P1 : pct_rank [Fin 1; Fin (-1)] (Fin 1) * 100 = 100)
    by (unfold pct_rank; cbn [filter flt feq]; decide_real; simpl; lra).
  assert (P2 : pct_rank [Fin 1; Fin (-1)] (Fin (-1)) * 100 = 50)
    by (unfold pct_rank; cbn [filter flt feq]; decide_real; simpl; lra).
  rewrite R1, R2, P1, P2. reflexivity.
Qed.

(** C8. Without an explicit focus list, [select_focus_groups] returns
    distinct groups of the table, each present in at least [min_years]
    distinct periods; they are listed by mean z-score descending with ties
    broken by periods present descending; there are [top_k] of them, or all
    eligible groups when fewer exist; and every eligible group left out
    ranks no earlier than every group returned.  An empty focus list counts
    as none. *)
Theorem select_focus_groups_top_k :
  forall tbl top_k min_years,
    let out := select_focus_groups tbl top_k min_years None in
    NoDup out /\
    (forall g, In g out ->
       In g (map s_group tbl) /\
       (min_years <= Z.of_nat (periods_present tbl g))%Z) /\
    StronglySorted (ranks_before tbl) out /\
    ((0 <= top_k)%Z ->
       Z.of_nat (length out)
       = Z.min top_k (Z.of_nat (length (eligible_groups tbl min_years)))) /\
    (forall g h, In g out -> In h (eligible_groups tbl min_years) ->
       ~ In h out -> ranks_before tbl g h) /\
    select_focus_groups tbl top_k min_years (Some []) = out.
Proof.
  intros tbl top_k min_years out.
  set (elig := filter (fun r => (min_years <=? Z.of_nat (years r))%Z)
                      (focus_stats tbl)).
  set (sorted := sort_by by_avg_z_years elig).
  assert (Hout : out = map f_group (head top_k sorted)) by reflexivity.
  destruct (head_prefix top_k sorted) as (rest & Hsplit).
  assert (Hperm : Permutation elig sorted) by apply sort_by_perm.
  assert (Hsorted : StronglySorted (fun a b => by_avg_z_years a b = true) sorted).
  { apply sort_by_strongly_sorted.
    - apply by_avg_z_years_total.
    - apply by_avg_z_years_trans. }
  rewrite Hsplit in Hsorted.
  apply StronglySorted_app_inv in Hsorted as (Hhead & _ & Hcross).
  assert (Hin_sorted : forall r, In r sorted <->
            In (f_group r) (map s_group tbl) /\ r = stat_of tbl (f_group r) /\
            (min_years <= Z.of_nat (periods_present tbl (f_group r)))%Z).
  { intros r. rewrite <- eligible_stats_In. fold elig.
    split; apply Permutation_in; [symmetry|]; exact Hperm. }
  assert (Hin_head : forall r, In r (head top_k sorted) -> In r sorted).
  { intros r Hr. rewrite Hsplit. apply in_or_app. now left. }
  assert (Hle : forall a b, In a sorted -> In b sorted ->
            by_avg_z_years a b = true ->
            ranks_before tbl (f_group a) (f_group b)).
  { intros a b Ha Hb Hab. apply Hin_sorted in Ha as (_ & Ea & _).
    apply Hin_sorted in Hb as (_ & Eb & _).
    apply by_avg_z_years_true in Hab. rewrite Ea, Eb in Hab. exact Hab. }
  assert (Hkeys : Permutation (map f_group sorted)
                              (eligible_groups tbl min_years)).
  { rewrite <- Hperm. unfold elig. rewrite eligible_stats.
    unfold eligible_groups, group_keys. apply filter_perm.
    symmetry. apply sort_by_perm. }
  assert (Hnodup : NoDup (map f_group sorted)).
  { eapply Permutation_NoDup; [symmetry; exact Hkeys|].
    unfold eligible_groups. apply NoDup_filter, NoDup_nodup. }
  split; [|split; [|split; [|split; [|split; [|reflexivity]]]]].
  - rewrite Hout. rewrite Hsplit, map_app in Hnodup.
    now apply NoDup_app_remove_r in Hnodup.
  - intros g Hg. rewrite Hout in Hg. apply in_map_iff in Hg as (r & <- & Hr).
    apply Hin_head, Hin_sorted in Hr. tauto.
  - rewrite Hout.
    apply (StronglySorted_map_in (fun a b => by_avg_z_years a b = true));
      auto.
  - intros Hk. rewrite Hout, length_map, head_length by auto.
    now rewrite <- (Permutation_length Hkeys), length_map.
  - intros g h Hg Hh Hnot. rewrite Hout in Hg, Hnot.
    apply in_map_iff in Hg as (rg & <- & Hrg).
    apply (Permutation_in _ (Permutation_sym Hkeys)) in Hh.
    apply in_map_iff in Hh as (rh & <- & Hrh).
    assert (Hrest : In rh rest).
    { rewrite Hsplit in Hrh. apply in_app_or in Hrh as [Hrh|Hrh]; auto.
      destruct Hnot. now apply in_map. }
    apply Hle; auto.
Qed.

(** Medicine has the highest mean z-score but only two years: with
    [min_years = 3] it is left out, with [min_years = 2] it leads. *)
Lemma bump_scores_stats :
  focus_stats bump_scores
  = [mk_focus_stat "Arts" 0 3; mk_focus_stat "Law" 1 3;
     mk_focus_stat "Medicine" 5 2]%string.
Proof.
  rewrite focus_stats_eq.
  change (group_keys string_dec String.leb s_group bump_scores)
    with ["Arts"; "Law"; "Medicine"]%string.
  cbn [map]. unfold stat_of.
  change (periods_present bump_scores "Arts") with 3%nat.
  change (periods_present bump_scores "Law") with 3%nat.
  change (periods_present bump_scores "Medicine") with 2%nat.
  unfold mean_z_score.
  change (map s_z_score (rows_of_group bump_scores "Arts")) with [0; 0; 0].
  change (map s_z_score (rows_of_group bump_scores "Law")) with [1; 1; 1].
  change (map s_z_score (rows_of_group bump_scores "Medicine")) with [5; 5].
  replace (np_mean [0; 0; 0]) with 0 by (unfold np_mean, len, rsum; simpl; lra).
  replace (np_mean [1; 1; 1]) with 1 by (unfold np_mean, len, rsum; simpl; lra).
  replace (np_mean [5; 5]) with 5 by (unfold np_mean, len, rsum; simpl; lra).
  reflexivity.
Qed.

Example focus_excludes_short_lived_leader :
  select_focus_groups bump_scores 10 3 None = ["Law"; "Arts"]%string /\
  select_focus_groups bump_scores 10 2 None
  = ["Medicine"; "Law"; "Arts"]%string /\
  select_focus_groups bump_scores 1 2 None = ["Medicine"]%string.
Proof.
  unfold select_focus_groups. rewrite bump_scores_stats.
  cbn [filter years Z.leb Z.of_nat Z.compare Pos.of_succ_nat Pos.succ
       Pos.compare Pos.compare_cont].
  unfold sort_by, by_avg_z_years. cbn [fold_right insert_by avg_z years].
  decide_real. cbn [orb andb insert_by avg_z years]. decide_real.
  cbn [orb andb insert_by avg_z years]. decide_real.
  cbn [orb andb insert_by avg_z years].
  repeat split; reflexivity.
Qed.

End RelativePerformanceIndexTheorems.

Module EmploymentSalaryTradeoffFacts.
Import Frame FrameFacts Np NpFacts EmploymentSalaryTradeoff.

Lemma members_category_rows clean c :
  members string_dec category c clean = category_rows clean c.
Proof.
  unfold members, category_rows. apply filter_ext. intros r.
  destruct (string_dec (category r) c) as [->|Hn].
  - now rewrite String.eqb_refl.
  - symmetry. now apply String.eqb_neq.
Qed.

Lemma aggregate_In clean g :
  In g (aggregate clean) ->
  let rs := category_rows clean (s_course_category g) in
  rs <> [] /\
  avg_employment_rate g = np_mean (map employment rs) /\
  avg_median_salary g = np_mean (map salary rs) /\
  employment_rate_std g = pd_std (map employment rs) /\
  median_salary_std g = pd_std (map salary rs) /\
  sample_size g = length (dropna_values (map course_cell rs)).
Proof.
  unfold aggregate. intros H. apply in_map_iff in H as ([c vs] & <- & Hg).
  pose proof (groupby_nonempty _ _ _ _ _ _ Hg) as Hne.
  apply groupby_In in Hg as [_ ->].
  cbv zeta.
  cbn [fst snd s_course_category avg_employment_rate avg_median_salary
       employment_rate_std median_salary_std sample_size].
  rewrite members_category_rows in *. repeat split; auto.
Qed.

Lemma summary_filter_min_In m l g :
  In g (filter_min_sample_size m l) -> In g l.
Proof.
  unfold filter_min_sample_size. destruct (0 <? m)%Z; auto.
  intros H. now apply filter_In in H.
Qed.

Lemma quadrants_srow l : map srow (quadrants l) = l.
Proof. unfold quadrants. rewrite map_map. cbn. apply map_id. Qed.

Lemma summary_srow lstsq df mss add :
  map srow (summary (employment_salary_tradeoff lstsq df mss add))
  = sort_by by_salary_desc (filter_min_sample_size mss (aggregate (dropna df))).
Proof. unfold employment_salary_tradeoff. cbn [summary]. apply quadrants_srow. Qed.

Lemma summary_In lstsq df mss add g :
  In g (summary (employment_salary_tradeoff lstsq df mss add)) ->
  In (srow g) (aggregate (dropna df)).
Proof.
  intros H. apply (in_map srow) in H. rewrite summary_srow in H.
  apply sort_by_In in H. now apply summary_filter_min_In in H.
Qed.

Lemma pd_std_sample_std l : l <> [] -> pd_std l = sample_std l.
Proof.
  intros Hne. unfold pd_std, sample_std.
  destruct l as [|a [|b t]]; [congruence | reflexivity | reflexivity].
Qed.

(** The weighted coefficient under the uniform weight [c], with the weight
    cancelled. *)
Lemma weighted_pearson_uniform x y c :
  length x = length y -> x <> [] -> 0 < c ->
  weighted_pearson (repeat c (length x)) x y =
  if Rlt_dec 0 (ssd x / len x) then
    if Rlt_dec 0 (ssd y / len y)
    then Some (scd x y / len x / sqrt ((ssd x / len x) * (ssd y / len y)))
    else None
  else None.
Proof.
  intros Hlen Hne Hc.
  pose proof (len_pos x Hne) as Hn.
  assert (Hly : len y = len x) by (unfold len; now rewrite Hlen).
  unfold weighted_pearson.
  rewrite rsum_repeat. fold (len x).
  assert (Hw : 0 < len x * c) by (apply Rmult_lt_0_compat; auto).
  destruct (Rlt_dec 0 (len x * c)) as [_|Hn0]; [|contradiction].
  rewrite (mul_arrays_repeat c (length x) x) by reflexivity.
  rewrite (mul_arrays_repeat c (length x) y) by (symmetry; exact Hlen).
  rewrite (mul_arrays_repeat c (length x) (map _ (combine x y)))
    by (rewrite length_map, length_combine, <- Hlen; apply Nat.min_id).
  rewrite (mul_arrays_repeat c (length x) (map _ x)) by apply length_map.
  rewrite (mul_arrays_repeat c (length x) (map _ y))
    by (rewrite length_map; auto).
  rewrite !rsum_scale.
  replace (c * rsum x / (len x * c)) with (np_mean x)
    by (unfold np_mean; field; lra).
  replace (c * rsum y / (len x * c)) with (np_mean y)
    by (unfold np_mean; rewrite Hly; field; lra).
  fold (scd x y). fold (ssd x). fold (ssd y).
  replace (c * ssd x / (len x * c)) with (ssd x / len x) by (field; lra).
  replace (c * ssd y / (len x * c)) with (ssd y / len y)
    by (rewrite Hly; field; lra).
  replace (c * scd x y / (len x * c)) with (scd x y / len x) by (field; lra).
  reflexivity.
Qed.

(** Where Pearson's coefficient is a number, neither series is flat. *)
Lemma pearson_defined x y r :
  pearson x y = Fin r ->
  0 < ssd x /\ 0 < ssd y /\ sqrt (ssd x * ssd y) <> 0 /\
  r = scd x y / sqrt (ssd x * ssd y).
Proof.
  unfold pearson.
  destruct (Req_dec_T (sqrt (ssd x * ssd y)) 0) as [E|Hn]; [discriminate|].
  intros [= <-].
  pose proof (ssd_nonneg x) as Hx. pose proof (ssd_nonneg y) as Hy.
  assert (Hprod : ssd x * ssd y <> 0).
  { intros E. rewrite E, sqrt_0 in Hn. now apply Hn. }
  repeat split; auto.
  - destruct (Req_dec_T (ssd x) 0) as [E|]; [|lra].
    rewrite E, Rmult_0_l in Hprod. now destruct Hprod.
  - destruct (Req_dec_T (ssd y) 0) as [E|]; [|lra].
    rewrite E, Rmult_0_r in Hprod. now destruct Hprod.
Qed.

Lemma weighted_pearson_uniform_defined x y c r :
  length x = length y -> x <> [] -> 0 < c ->
  pearson x y = Fin r ->
  weighted_pearson (repeat c (length x)) x y = Some r.
Proof.
  intros Hlen Hne Hc Hp.
  apply pearson_defined in Hp as (Hx & Hy & Hs & ->).
  pose proof (len_pos x Hne) as Hn.
  assert (Hly : len y = len x) by (unfold len; now rewrite Hlen).
  assert (Hinv : 0 < / len x) by now apply Rinv_0_lt_compat.
  rewrite weighted_pearson_uniform by auto. rewrite Hly.
  destruct (Rlt_dec 0 (ssd x / len x)) as [_|Hn0];
    [|destruct Hn0; now apply Rmult_lt_0_compat].
  destruct (Rlt_dec 0 (ssd y / len x)) as [_|Hn0];
    [|destruct Hn0; now apply Rmult_lt_0_compat].
  rewrite sqrt_scaled by lra. f_equal. field. lra.
Qed.

Lemma all_tied_const l v0 :
  all_tied l -> In v0 l -> l = map (fun _ => v0) l.
Proof.
  intros Ht Hv. rewrite <- (map_id l) at 1. apply map_ext_in.
  intros a Ha. now apply Ht.
Qed.

(** The total sum of squares vanishes exactly on a flat series. *)
Lemma ss_tot_zero_iff y : y <> [] -> (ss_tot y = 0 <-> all_tied y).
Proof.
  intros Hne. change (ss_tot y) with (ssd y). split.
  - intros H0 a b Ha Hb.
    rewrite (ssd_zero y a H0 Ha), (ssd_zero y b H0 Hb). reflexivity.
  - intros Ht. destruct y as [|v0 t] eqn:E; [congruence|]. rewrite <- E in *.
    assert (Hv : In v0 y) by (rewrite E; now left).
    rewrite (all_tied_const y v0 Ht Hv). apply ssd_const. exact Hne.
Qed.

(** *** The median split *)

Lemma Rleb_total a b : Rleb a b = true \/ Rleb b a = true.
Proof. rewrite !Rleb_true. lra. Qed.

Lemma Rleb_trans a b c : Rleb a b = true -> Rleb b c = true -> Rleb a c = true.
Proof. rewrite !Rleb_true. lra. Qed.

Lemma StronglySorted_nth {A} (R : A -> A -> Prop) s d :
  StronglySorted R s ->
  forall i j, (i < j)%nat -> (j < length s)%nat -> R (nth i s d) (nth j s d).
Proof.
  induction 1 as [|a l Hs IH Hall]; intros i j Hij Hj; simpl in Hj; [lia|].
  destruct j as [|j]; [lia|]. destruct i as [|i]; simpl.
  - rewrite Forall_forall in Hall. apply Hall. apply nth_In. lia.
  - apply IH; lia.
Qed.

Lemma sorted_nth_le l i j :
  (i <= j)%nat -> (j < length l)%nat ->
  nth i (sort_by Rleb l) 0 <= nth j (sort_by Rleb l) 0.
Proof.
  intros Hij Hj. destruct (Nat.eq_dec i j) as [->|Hne]; [lra|].
  apply Rleb_true.
  apply (StronglySorted_nth (fun a b => Rleb a b = true)).
  - apply sort_by_strongly_sorted; [apply Rleb_total | apply Rleb_trans].
  - lia.
  - now rewrite <- (Permutation_length (sort_by_perm Rleb l)).
Qed.


(** The median is reached from the middle position on, and (for distinct values) not before it. *)
Lemma median_le_upper l j :
  (length l / 2 <= j)%nat -> (j < length l)%nat ->
  median l <= nth j (sort_by Rleb l) 0.
Proof.
  intros Hk Hj. unfold median.
  destruct (Nat.even (length l)) eqn:E.
  - assert (Hpos : (1 <= length l / 2)%nat).
    { apply Nat.even_spec in E as [m Hm]. rewrite Hm in *.
      rewrite Nat.mul_comm, Nat.div_mul in * by lia. lia. }
    pose proof (sorted_nth_le l (length l / 2 - 1) j) as H1.
    pose proof (sorted_nth_le l (length l / 2) j) as H2.
    specialize (H1 ltac:(lia) Hj). specialize (H2 Hk Hj). lra.
  - now apply sorted_nth_le.
Qed.









End EmploymentSalaryTradeoffFacts.

Module EmploymentSalaryTradeoffTheorems.
Import Frame FrameFacts Np NpFacts.
Import EmploymentSalaryTradeoff EmploymentSalaryTradeoffFacts TradeoffSamples.

(** C4, as the code has it.  The deviations reported for a group of the
    tradeoff summary are sample standard deviations of the group's records:
    the divisor is the number of records minus one, and the value is NaN
    for a group of a single record. *)
Theorem summary_std_is_sample_std :
  forall lstsq df min_sample_size add_trendline g,
    In g (summary (employment_salary_tradeoff lstsq df min_sample_size
                     add_trendline)) ->
    let rs := category_rows (dropna df) (s_course_category (srow g)) in
    let es := map employment rs in
    let ss := map salary rs in
    (1 <= length rs)%nat /\
    employment_rate_std (srow g)
    = (if (length rs =? 1)%nat then NaN
       else Fin (sqrt (ssd es / (INR (length rs) - 1)))) /\
    median_salary_std (srow g)
    = (if (length rs =? 1)%nat then NaN
       else Fin (sqrt (ssd ss / (INR (length rs) - 1)))).
Proof.
  intros lstsq df mss add g Hg rs es ss.
  apply summary_In, aggregate_In in Hg. fold rs in Hg.
  destruct Hg as (Hne & _ & _ & He & Hs & _).
  assert (Hes : es <> []) by (unfold es; destruct rs; [congruence | discriminate]).
  assert (Hss : ss <> []) by (unfold ss; destruct rs; [congruence | discriminate]).
  fold es in He. fold ss in Hs.
  rewrite He, Hs, !pd_std_sample_std by auto.
  unfold sample_std, len, es, ss. rewrite !length_map.
  split; [destruct rs; [congruence | simpl; lia] | auto].
Qed.

Lemma law_rows_ssd : ssd [80; 90; 100] = 200.
Proof.
  assert (Hm : np_mean [80; 90; 100] = 90)
    by (unfold np_mean, len, rsum; simpl; lra).
  unfold ssd. rewrite Hm. unfold rsum. simpl. lra.
Qed.

Lemma summary_std_is_sample_std_witness :
  exists g,
    In g (summary (employment_salary_tradeoff flat_fit law_rows 1 true)) /\
    let rs := category_rows (dropna law_rows) (s_course_category (srow g)) in
    (1 <= length rs)%nat /\
    employment_rate_std (srow g)
    = (if (length rs =? 1)%nat then NaN
       else Fin (sqrt (ssd (map employment rs) / (INR (length rs) - 1)))) /\
    median_salary_std (srow g)
    = (if (length rs =? 1)%nat then NaN
       else Fin (sqrt (ssd (map salary rs) / (INR (length rs) - 1)))).
Proof.
  eexists. split; [left; reflexivity|].
  apply (summary_std_is_sample_std flat_fit law_rows 1 true).
  left. reflexivity.
Defined.

(** On three records with the employment rates 80, 90 and 100 the reported
    deviation is 10 (divisor 2). *)
Example law_rows_reported_std :
  map (fun g => employment_rate_std (srow g))
      (summary (employment_salary_tradeoff flat_fit law_rows 1 true))
  = [Fin 10].
Proof.
  change ([pd_std [80; 90; 100]] = [Fin 10]).
  unfold pd_std, len. cbn [length Nat.leb]. rewrite law_rows_ssd.
  do 2 f_equal. simpl. replace (200 / (1 + 1 + 1 - 1)) with (10 * 10) by lra.
  apply sqrt_square. lra.
Qed.

(** A group of a single record has no deviation at all. *)
Example single_row_reported_std :
  map (fun g => employment_rate_std (srow g))
      (summary (employment_salary_tradeoff flat_fit single_row 1 true))
  = [NaN].
Proof. reflexivity. Qed.

(** C4 as the specification words it fails: on the three records above the
    reported deviation is not the population deviation (divisor 3) of the
    group's records. *)
Lemma summary_std_not_population_std :
  ~ (forall g,
       In g (summary (employment_salary_tradeoff flat_fit law_rows 1 true)) ->
       employment_rate_std (srow g)
       = Fin (np_std (map employment
                        (category_rows (dropna law_rows)
                                       (s_course_category (srow g)))))).
Proof.
  intros H.
  eassert (Hin : In _ (summary (employment_salary_tradeoff flat_fit law_rows
                                  1 true))) by (left; reflexivity).
  apply H in Hin.
  change (pd_std [80; 90; 100] = Fin (np_std [80; 90; 100])) in Hin.
  unfold pd_std, np_std, len in Hin. cbn [length Nat.leb] in Hin.
  rewrite law_rows_ssd in Hin. injection Hin as Hin. simpl in Hin.
  apply sqrt_inj in Hin; lra.
Qed.


(** The same on the two statistics the analysis reports, when every group
    of the summary has the same positive sample size. *)
Corollary correlation_weighted_uniform_sizes :
  forall summary n r,
    (0 < n)%nat ->
    (forall g, In g summary -> sample_size g = n) ->
    unweighted_correlation summary = Some (Fin r) ->
    weighted_correlation summary = Some r.
Proof.
  intros summary n r Hn Hall.
  unfold unweighted_correlation, weighted_correlation.
  destruct (2 <=? length summary)%nat eqn:E; [|discriminate].
  intros [= Hp]. apply Nat.leb_le in E.
  assert (Hw : map (fun g => INR (sample_size g)) summary
               = repeat (INR n) (length (map avg_employment_rate summary))).
  { rewrite length_map. clear E Hp.
    induction summary as [|g t IH]; simpl; auto.
    rewrite (Hall g) by now left. f_equal. apply IH.
    intros g' Hg'. apply Hall. now right. }
  rewrite Hw. apply weighted_pearson_uniform_defined; auto.
  - now rewrite !length_map.
  - destruct summary; [simpl in E; lia | discriminate].
  - now apply lt_0_INR.
Qed.



(** The trendline in exact arithmetic.  With at least two groups in the
    summary the trendline is fitted and returned; its [r2] is
    1 - SS_res / SS_tot when SS_tot is not zero, and it is [None] exactly
    when SS_tot is zero, which is exactly when all the salary averages are
    identical.  [TradeoffBinary64Theorems] shows identical averages whose
    float64 SS_tot is not zero. *)
Theorem trendline_r2_undefined_iff_flat :
  forall lstsq df min_sample_size,
    let res := employment_salary_tradeoff lstsq df min_sample_size true in
    let x := map avg_employment_rate (map srow (summary res)) in
    let y := map avg_median_salary (map srow (summary res)) in
    (2 <= length (summary res))%nat ->
    exists t,
      trendline res = Some t /\
      (ss_tot y <> 0 ->
         r2 t = Some (1 - ss_res (slope t, intercept t) x y / ss_tot y)) /\
      (r2 t = None <-> ss_tot y = 0) /\
      (ss_tot y = 0 <-> all_tied y).
Proof.
  intros lstsq df mss res x y Hn.
  assert (Hrows : map srow (summary res)
                  = sort_by by_salary_desc
                      (filter_min_sample_size mss (aggregate (dropna df))))
    by apply summary_srow.
  set (rows := sort_by by_salary_desc
                 (filter_min_sample_size mss (aggregate (dropna df)))) in *.
  assert (Hlen : (2 <= length rows)%nat)
    by (rewrite <- Hrows, length_map; exact Hn).
  assert (Htrend : trendline res = fit_trendline lstsq true rows) by reflexivity.
  unfold x, y. rewrite Hrows, Htrend. clear x y.
  unfold fit_trendline.
  apply Nat.leb_le in Hlen as Hb. rewrite Hb. cbn [andb].
  set (x := map avg_employment_rate rows).
  set (y := map avg_median_salary rows).
  assert (Hy : y <> []).
  { unfold y. destruct rows; [simpl in Hlen; lia | discriminate]. }
  eexists. split; [reflexivity|]. cbn [r2 slope intercept].
  rewrite <- surjective_pairing.
  destruct (Req_dec_T (ss_tot y) 0) as [E|Hne].
  - split; [contradiction|]. split; [tauto|]. now apply ss_tot_zero_iff.
  - split; [reflexivity|]. split; [|now apply ss_tot_zero_iff].
    split; [discriminate | contradiction].
Qed.

Lemma trendline_r2_undefined_iff_flat_witness :
  let res := employment_salary_tradeoff flat_fit two_categories 1 true in
  let x := map avg_employment_rate (map srow (summary res)) in
  let y := map avg_median_salary (map srow (summary res)) in
  exists t,
    trendline res = Some t /\
    (ss_tot y <> 0 ->
       r2 t = Some (1 - ss_res (slope t, intercept t) x y / ss_tot y)) /\
    (r2 t = None <-> ss_tot y = 0) /\
    (ss_tot y = 0 <-> all_tied y).
Proof.
  apply (trendline_r2_undefined_iff_flat flat_fit two_categories 1).
  unfold employment_salary_tradeoff. cbn [summary]. unfold quadrants.
  rewrite length_map, <- (Permutation_length (sort_by_perm _ _)).
  apply Nat.le_refl.
Defined.

(** The sorted summary of a frame of two categories of one record each. *)
Lemma two_rows_summary e1 s1 e2 s2 :
  s2 <= s1 ->
  sort_by by_salary_desc
    (filter_min_sample_size 1
       (aggregate (dropna [survey_row e2 s2 "Law"; survey_row e1 s1 "Arts"])))
  = [mk_summary "Arts" e1 s1 NaN NaN 1; mk_summary "Law" e2 s2 NaN NaN 1].
Proof.
  intros Hle.
  change (filter_min_sample_size 1
            (aggregate (dropna [survey_row e2 s2 "Law"; survey_row e1 s1 "Arts"])))
    with [mk_summary "Arts" (np_mean [e1]) (np_mean [s1]) NaN NaN 1;
          mk_summary "Law" (np_mean [e2]) (np_mean [s2]) NaN NaN 1].
  rewrite !np_mean_single.
  unfold sort_by, by_salary_desc. cbn [fold_right insert_by avg_median_salary].
  now rewrite (proj2 (Rleb_true s2 s1) Hle).
Qed.

(** Two points are fitted exactly: slope -100, intercept 13000, r2 = 1. *)
Example two_categories_trendline :
  trendline (employment_salary_tradeoff flat_fit two_categories 1 true)
  = Some (mk_trend (-100) 13000 (Some 1)).
Proof.
  unfold employment_salary_tradeoff. cbn [trendline].
  unfold two_categories. rewrite two_rows_summary by lra.
  unfold fit_trendline.
  cbn [andb length Nat.leb map avg_employment_rate avg_median_salary].
  assert (Hx : np_mean [80; 90] = 85) by (unfold np_mean, len, rsum; simpl; lra).
  assert (Hy : np_mean [5000; 4000] = 4500)
    by (unfold np_mean, len, rsum; simpl; lra).
  assert (Hsx : ssd [80; 90] = 50)
    by (unfold ssd; rewrite Hx; unfold rsum; simpl; lra).
  assert (Hxy : scd [80; 90] [5000; 4000] = -5000)
    by (unfold scd; rewrite Hx, Hy; unfold rsum; simpl; lra).
  assert (Htot : ss_tot [5000; 4000] = 500000)
    by (unfold ss_tot; rewrite Hy; unfold rsum; simpl; lra).
  assert (Hfit : polyfit1 flat_fit [80; 90] [5000; 4000] = (-100, 13000)).
  { unfold polyfit1. rewrite Hsx, Hxy, Hx, Hy.
    destruct (Req_dec_T 50 0); [lra|]. f_equal; lra. }
  rewrite Hfit, Htot. cbn [fst snd].
  assert (Hres : ss_res (-100, 13000) [80; 90] [5000; 4000] = 0)
    by (unfold ss_res, rsum; simpl; lra).
  rewrite Hres. destruct (Req_dec_T 500000 0); [lra|].
  do 3 f_equal. lra.
Qed.

(** Identical salaries: the fit is the flat line and r2 is [None]. *)
Example flat_categories_trendline :
  trendline (employment_salary_tradeoff flat_fit flat_categories 1 true)
  = Some (mk_trend 0 4000 None).
Proof.
  unfold employment_salary_tradeoff. cbn [trendline].
  unfold flat_categories. rewrite two_rows_summary by lra.
  unfold fit_trendline.
  cbn [andb length Nat.leb map avg_employment_rate avg_median_salary].
  assert (Hx : np_mean [80; 90] = 85) by (unfold np_mean, len, rsum; simpl; lra).
  assert (Hy : np_mean [4000; 4000] = 4000)
    by (unfold np_mean, len, rsum; simpl; lra).
  assert (Hsx : ssd [80; 90] = 50)
    by (unfold ssd; rewrite Hx; unfold rsum; simpl; lra).
  assert (Hxy : scd [80; 90] [4000; 4000] = 0)
    by (unfold scd; rewrite Hx, Hy; unfold rsum; simpl; lra).
  assert (Htot : ss_tot [4000; 4000] = 0)
    by (unfold ss_tot; rewrite Hy; unfold rsum; simpl; lra).
  assert (Hfit : polyfit1 flat_fit [80; 90] [4000; 4000] = (0, 4000)).
  { unfold polyfit1. rewrite Hsx, Hxy, Hx, Hy.
    destruct (Req_dec_T 50 0); [lra|]. f_equal; lra. }
  rewrite Hfit, Htot. cbn [fst snd].
  destruct (Req_dec_T 0 0); [reflexivity | lra].
Qed.





End EmploymentSalaryTradeoffTheorems.

(** ** More facts about the frame primitives *)

Module FrameListFacts.
Import Frame FrameFacts Np NpFacts.

(** Sums over a frame split by key. *)
Lemma list_sum_perm l1 l2 : Permutation l1 l2 -> list_sum l1 = list_sum l2.
Proof. induction 1; simpl; lia. Qed.

Lemma list_sum_map_plus {A} (f g : A -> nat) l :
  list_sum (map (fun a => (f a + g a)%nat) l)
  = (list_sum (map f l) + list_sum (map g l))%nat.
Proof. induction l; simpl; lia. Qed.

Lemma list_sum_map_zero {A} (l : list A) : list_sum (map (fun _ => 0%nat) l) = 0%nat.
Proof. induction l; simpl; lia. Qed.

Lemma list_sum_filter_le {A} (f : A -> nat) (p : A -> bool) l :
  (list_sum (map f (filter p l)) <= list_sum (map f l))%nat.
Proof. induction l as [|a l IH]; simpl; [lia|]. destruct (p a); simpl; lia. Qed.

Section Partition.
Context {A K : Type} (test : K -> A -> bool) (key : A -> K).
Hypothesis test_spec : forall k a, test k a = true <-> key a = k.

Lemma indicator_sum a ks :
  NoDup ks -> In (key a) ks ->
  list_sum (map (fun k => if test k a then 1%nat else 0%nat) ks) = 1%nat.
Proof.
  induction 1 as [|k ks Hnin Hnd IH]; intros Hin; [destruct Hin|].
  simpl. destruct (test k a) eqn:E.
  - apply test_spec in E. subst k.
    rewrite (map_ext_in _ (fun _ => 0%nat)), list_sum_map_zero; [lia|].
    intros k' Hk'. destruct (test k' a) eqn:E'; auto.
    apply test_spec in E'. congruence.
  - destruct Hin as [Hk|Hin]; [|now rewrite IH].
    assert (test k a = true) by now apply test_spec. congruence.
Qed.

Lemma partition_length l ks :
  NoDup ks -> (forall a, In a l -> In (key a) ks) ->
  list_sum (map (fun k => length (filter (test k) l)) ks) = length l.
Proof.
  intros Hnd. induction l as [|a l IH]; intros Hcov.
  - simpl. apply list_sum_map_zero.
  - rewrite (map_ext _ (fun k => ((if test k a then 1 else 0)
                                   + length (filter (test k) l))%nat)).
    + rewrite list_sum_map_plus.
      rewrite indicator_sum by (auto; apply Hcov; now left).
      rewrite IH by (intros b Hb; apply Hcov; now right).
      reflexivity.
    + intros k. simpl. destruct (test k a); reflexivity.
Qed.
End Partition.

Lemma NoDup_map_filter {A B} (f : A -> B) (p : A -> bool) l :
  NoDup (map f l) -> NoDup (map f (filter p l)).
Proof.
  induction l as [|a l IH]; simpl; auto.
  intros H. inversion H as [|? ? Hnin Hnd]; subst.
  destruct (p a); simpl; auto. constructor; auto.
  intros Hin. apply Hnin. apply in_map_iff in Hin as (b & E & Hb).
  apply filter_In in Hb as [Hb _]. apply in_map_iff. eauto.
Qed.

Lemma StronglySorted_impl {A} (R1 R2 : A -> A -> Prop) l :
  (forall a b, R1 a b -> R2 a b) ->
  StronglySorted R1 l -> StronglySorted R2 l.
Proof.
  intros Himp. induction 1 as [|a l Hs IH Hall]; constructor; auto.
  rewrite Forall_forall in *. auto.
Qed.

Lemma strictly_sorted l :
  StronglySorted (fun a b => Z.leb a b = true) l -> NoDup l ->
  StronglySorted Z.lt l.
Proof.
  induction 1 as [|a l Hs IH Hall]; intros Hnd; constructor.
  - apply IH. now inversion Hnd.
  - inversion Hnd as [|? ? Hnin _]; subst.
    rewrite Forall_forall in *. intros b Hb.
    specialize (Hall b Hb). apply Z.leb_le in Hall.
    assert (a <> b) by (intros ->; contradiction). lia.
Qed.


Lemma nodup_length_perm {A} (dec : forall a b : A, {a = b} + {a <> b}) l1 l2 :
  Permutation l1 l2 -> length (nodup dec l1) = length (nodup dec l2).
Proof.
  intros H. apply Permutation_length, NoDup_Permutation; try apply NoDup_nodup.
  intros x. rewrite !nodup_In. split; apply Permutation_in; auto.
  now symmetry.
Qed.

(** Sorting a sorted frame leaves it as it is. *)
Lemma sort_by_sorted_id {A} (leb : A -> A -> bool) l :
  StronglySorted (fun a b => leb a b = true) l -> sort_by leb l = l.
Proof.
  induction 1 as [|a l Hs IH Hall]; [reflexivity|].
  change (sort_by leb (a :: l)) with (insert_by leb a (sort_by leb l)).
  rewrite IH. destruct l as [|y t]; [reflexivity|]. simpl.
  rewrite Forall_forall in Hall. now rewrite (Hall y (or_introl eq_refl)).
Qed.

Lemma combine_map_snd {A B} (l : list A) (l' : list B) :
  length l = length l' -> map snd (combine l l') = l'.
Proof.
  revert l'. induction l as [|a l IH]; intros [|b l'] H; simpl in *;
    try discriminate; auto. f_equal. apply IH. lia.
Qed.

Lemma combine_map_fst {A B} (l : list A) (l' : list B) :
  length l = length l' -> map fst (combine l l') = l.
Proof.
  revert l'. induction l as [|a l IH]; intros [|b l'] H; simpl in *;
    try discriminate; auto. f_equal. apply IH. lia.
Qed.

(** The first [k] rows of a sorted frame. *)
Section TopRows.
Context {A : Type} (leb : A -> A -> bool).
Hypothesis leb_total : forall a b, leb a b = true \/ leb b a = true.
Hypothesis leb_trans :
  forall a b c, leb a b = true -> leb b c = true -> leb a c = true.

Lemma top_of_sorted l k :
  let top := firstn k (sort_by leb l) in
  length top = Nat.min k (length l) /\
  (forall a, In a top -> In a l) /\
  StronglySorted (fun a b => leb a b = true) top /\
  (forall a b, In a top -> In b l -> ~ In b top -> leb a b = true).
Proof.
  intros top.
  assert (Hs : StronglySorted (fun a b => leb a b = true) (sort_by leb l))
    by (apply sort_by_strongly_sorted; auto).
  rewrite <- (firstn_skipn k (sort_by leb l)) in Hs. fold top in Hs.
  apply StronglySorted_app_inv in Hs as (Htop & _ & Hcross).
  split; [|split; [|split]]; auto.
  - unfold top. rewrite length_firstn.
    now rewrite <- (Permutation_length (sort_by_perm leb l)).
  - intros a Ha. apply (sort_by_In leb).
    rewrite <- (firstn_skipn k (sort_by leb l)). apply in_or_app. now left.
  - intros a b Ha Hb Hnot. apply Hcross; auto.
    apply (sort_by_In leb) in Hb.
    rewrite <- (firstn_skipn k (sort_by leb l)) in Hb.
    apply in_app_or in Hb as [Hb|Hb]; [contradiction | exact Hb].
Qed.

Lemma sorted_head_leads l k a rest :
  firstn k (sort_by leb l) = a :: rest ->
  In a l /\ forall b, In b l -> leb a b = true.
Proof.
  intros E.
  destruct (top_of_sorted l k) as (_ & Hin & Hs & Hcross).
  rewrite E in Hin, Hs, Hcross.
  split; [apply Hin; now left|]. intros b Hb.
  inversion Hs as [|? ? _ Hall]; subst. rewrite Forall_forall in Hall.
  destruct (leb a b) eqn:Eab; [reflexivity|]. exfalso.
  assert (Hnot : ~ In b (a :: rest)).
  { intros [<-|Hin'].
    - destruct (leb_total a a); congruence.
    - rewrite (Hall b Hin') in Eab. discriminate. }
  assert (leb a b = true) by (apply Hcross; auto; now left).
  congruence.
Qed.
End TopRows.

Lemma filter_filter_implied {A} (p q : A -> bool) l :
  (forall a, In a l -> p a = true -> q a = true) ->
  filter p (filter q l) = filter p l.
Proof.
  induction l as [|a l IH]; intros H; simpl; auto.
  assert (IH' : filter p (filter q l) = filter p l)
    by (apply IH; intros; apply H; auto; now right).
  destruct (q a) eqn:Eq; simpl.
  - now rewrite IH'.
  - destruct (p a) eqn:Ep; auto.
    rewrite (H a (or_introl eq_refl) Ep) in Eq. discriminate.
Qed.

Lemma NoDup_all_equal {A} (l : list A) :
  NoDup l -> (forall a b, In a l -> In b l -> a = b) -> (length l <= 1)%nat.
Proof.
  intros Hnd Heq. destruct l as [|a [|b t]]; simpl; try lia.
  inversion Hnd as [|? ? Hnin _]; subst. exfalso. apply Hnin.
  rewrite (Heq a b); simpl; auto.
Qed.

Lemma flat_map_filter_map {A B} (F : A -> list B) (P : A -> bool)
    (G : A -> B) l :
  (forall a, F a = if P a then [G a] else []) ->
  flat_map F l = map G (filter P l).
Proof.
  intros H. induction l as [|a l IH]; simpl; auto.
  rewrite H, IH. destruct (P a); reflexivity.
Qed.

Lemma filter_swap {A} (f g : A -> bool) l :
  filter f (filter g l) = filter g (filter f l).
Proof.
  induction l as [|a l IH]; simpl; auto.
  destruct (g a) eqn:Eg, (f a) eqn:Ef; simpl; rewrite ?Eg, ?Ef, IH; auto.
Qed.

(** Sums of a real column over a frame split by key. *)
Section RealPartition.
Context {A K : Type} (test : K -> A -> bool) (key : A -> K).
Hypothesis test_spec : forall k a, test k a = true <-> key a = k.

Lemma indicator_rsum a c ks :
  NoDup ks -> In (key a) ks ->
  rsum (map (fun k => if test k a then c else 0) ks) = c.
Proof.
  induction 1 as [|k ks Hnin Hnd IH]; intros Hin; [destruct Hin|].
  cbn [map]. rewrite rsum_cons. destruct (test k a) eqn:E.
  - apply test_spec in E. subst k.
    rewrite (rsum_map_ext _ (fun _ => 0)), rsum_map_const; [lra|].
    intros k' Hk'. destruct (test k' a) eqn:E'; auto.
    apply test_spec in E'. congruence.
  - destruct Hin as [Hk|Hin]; [|rewrite IH by auto; lra].
    assert (test k a = true) by now apply test_spec. congruence.
Qed.

Lemma rsum_partition (f : A -> R) l ks :
  NoDup ks -> (forall a, In a l -> In (key a) ks) ->
  rsum (map (fun k => rsum (map f (filter (test k) l))) ks) = rsum (map f l).
Proof.
  intros Hnd. induction l as [|a l IH]; intros Hcov.
  - cbn [filter map]. rewrite (rsum_map_ext _ (fun _ => 0)) by reflexivity.
    rewrite rsum_map_const. unfold rsum. simpl. lra.
  - rewrite (rsum_map_ext _
               (fun k => (if test k a then f a else 0)
                         + rsum (map f (filter (test k) l)))).
    + rewrite rsum_map_plus.
      rewrite indicator_rsum by (auto; apply Hcov; now left).
      rewrite IH by (intros b Hb; apply Hcov; now right).
      cbn [map]. now rewrite rsum_cons.
    + intros k _. cbn [filter]. destruct (test k a).
      * cbn [map]. now rewrite rsum_cons.
      * lra.
Qed.
End RealPartition.

End FrameListFacts.

Module RelativePerformanceTableFacts.
Import Frame FrameFacts Np NpFacts.
Import RelativePerformanceIndex RelativePerformanceIndexFacts.
Import RelativePerformanceSamples RelativePerformanceMeasures.
Import FrameListFacts.

Lemma above_In l z u : In u (above l z) <-> In u l /\ z < u.
Proof. unfold above. now rewrite nodup_In, filter_In, Rltb_true. Qed.

Lemma above_NoDup l z : NoDup (above l z).
Proof. apply NoDup_nodup. Qed.

Lemma nodup_map_Fin l :
  nodup float64_eq_dec (map Fin l) = map Fin (nodup Req_dec_T l).
Proof.
  induction l as [|a l IH]; simpl; auto.
  destruct (in_dec float64_eq_dec (Fin a) (map Fin l)) as [Hi|Hn];
    destruct (in_dec Req_dec_T a l) as [Hi'|Hn']; simpl; try now rewrite IH.
  - destruct Hn'. apply in_map_iff in Hi as (b & [= ->] & Hb). exact Hb.
  - destruct Hn. now apply in_map.
Qed.

Lemma dense_rank_Fin l z :
  dense_rank (map Fin l) (Fin z) = Z.of_nat (1 + length (above l z)).
Proof.
  unfold dense_rank, above. rewrite filter_map_comm. cbn [flt].
  now rewrite nodup_map_Fin, length_map.
Qed.

(** A larger score has a strictly smaller rank; equal scores share it. *)
Lemma above_antitone l z w : z <= w -> (length (above l w) <= length (above l z))%nat.
Proof.
  intros Hle. apply NoDup_incl_length; [apply above_NoDup|].
  intros u Hu. apply above_In in Hu as [Hu Hw]. apply above_In. split; auto. lra.
Qed.

Lemma above_strict l z w :
  In w l -> z < w -> (length (above l w) < length (above l z))%nat.
Proof.
  intros Hw Hlt.
  assert (Hnd : NoDup (w :: above l w)).
  { constructor; [|apply above_NoDup]. intros H. apply above_In in H. lra. }
  assert (Hincl : incl (w :: above l w) (above l z)).
  { intros u [<-|Hu]; apply above_In.
    - auto.
    - apply above_In in Hu as [Hu Hgt]. split; auto. lra. }
  pose proof (NoDup_incl_length Hnd Hincl) as H. simpl in H. lia.
Qed.

Lemma above_bound l z :
  In z l -> (length (above l z) < length (nodup Req_dec_T l))%nat.
Proof.
  intros Hz.
  assert (Hnd : NoDup (z :: above l z)).
  { constructor; [|apply above_NoDup]. intros H. apply above_In in H. lra. }
  assert (Hincl : incl (z :: above l z) (nodup Req_dec_T l)).
  { intros u [<-|Hu]; apply nodup_In; auto. now apply above_In in Hu. }
  pose proof (NoDup_incl_length Hnd Hincl) as H. simpl in H. lia.
Qed.

(** Every rank from 1 to the number of distinct scores is taken. *)
Lemma above_onto l j :
  (j < length (nodup Req_dec_T l))%nat ->
  exists z, In z l /\ length (above l z) = j.
Proof.
  intros Hj.
  set (d := nodup Req_dec_T l) in *.
  set (ranks := map (fun z => length (above l z)) d).
  assert (Hnd : NoDup ranks).
  { unfold ranks. apply NoDup_map_NoDup_ForallPairs; [|apply NoDup_nodup].
    intros a b Ha Hb Hab. apply nodup_In in Ha, Hb.
    destruct (Rtotal_order a b) as [H|[H|H]]; auto.
    - pose proof (above_strict l a b Hb H). lia.
    - pose proof (above_strict l b a Ha H). lia. }
  assert (Hincl : incl ranks (seq 0 (length d))).
  { intros r Hr. unfold ranks in Hr. apply in_map_iff in Hr as (z & <- & Hz).
    apply nodup_In in Hz. apply in_seq. pose proof (above_bound l z Hz).
    fold d in H. lia. }
  assert (Hlen : (length (seq 0 (length d)) <= length ranks)%nat).
  { unfold ranks. rewrite length_map, length_seq. lia. }
  pose proof (NoDup_length_incl Hnd Hlen Hincl) as Hall.
  assert (Hin : In j ranks) by (apply Hall, in_seq; lia).
  unfold ranks in Hin. apply in_map_iff in Hin as (z & Hz & Hd).
  exists z. split; auto. now apply nodup_In in Hd.
Qed.



Lemma z_score_of_real wm floor agg a :
  (forall b, In b agg -> (1 <= sample_size b)%nat) ->
  In a agg ->
  z_score_of floor (year_stats_of wm agg) a
  = Fin (z_real floor (year_stats_of wm agg) a).
Proof.
  intros Hsize Ha.
  assert (Hsub : sub_of agg (year a) <> []).
  { intros E. assert (Hin : In a (sub_of agg (year a)))
      by (apply sub_of_In; auto).
    rewrite E in Hin. destruct Hin. }
  destruct (baseline_finite wm agg (year a) Hsub Hsize)
    as (mu & sd & Hmu & Hsd & _ & Hzero & _).
  pose proof (merged_year_stats wm agg a Ha) as Hm.
  destruct (z_score_of_finite floor (year_stats_of wm agg) a mu sd)
    as (z & Hz & _).
  - unfold merged_mean. now rewrite Hm.
  - unfold merged_std. now rewrite Hm.
  - intros E. apply Hzero; auto. apply sub_of_In. auto.
  - unfold z_real. now rewrite Hz.
Qed.

Lemma score_groups_row wm floor agg r :
  In r (score_groups wm floor agg) ->
  let z := z_score_of floor (year_stats_of wm agg) in
  let zs := map z (sub_of agg (year (base r))) in
  In (base r) agg /\ z_score r = z (base r) /\
  rank r = dense_rank zs (z (base r)) /\
  percentile r = pct_rank zs (z (base r)) * 100.
Proof.
  unfold score_groups. intros H. apply in_map_iff in H as (a & <- & Ha).
  cbn. auto.
Qed.

Lemma score_groups_year wm floor agg y :
  filter (fun r => (year (base r) =? y)%Z) (score_groups wm floor agg)
  = map (fun a =>
           let z := z_score_of floor (year_stats_of wm agg) in
           let zs := map z (sub_of agg y) in
           mk_out a (merged_mean (year_stats_of wm agg) a)
                  (merged_std (year_stats_of wm agg) a)
                  (merged_n_groups (year_stats_of wm agg) a)
                  (std_safe floor (year_stats_of wm agg) a)
                  (z a) (dense_rank zs (z a)) (pct_rank zs (z a) * 100))
        (sub_of agg y).
Proof.
  unfold score_groups. rewrite filter_map_comm. cbn [base].
  fold (sub_of agg y). apply map_ext_in. intros a Ha.
  apply sub_of_In in Ha as [_ ->]. reflexivity.
Qed.


Lemma pct_rank_Fin vs v : pct_rank (map Fin vs) (Fin v) = pct_real vs v.
Proof.
  unfold pct_rank, pct_real. rewrite !filter_map_comm, !length_map.
  reflexivity.
Qed.

(** What the rows of one year hold: for the list [vs] of the year's
    z-scores, each row carries one of them with its rank and percentile. *)
Lemma year_rows_scores df sc gb mss wm floor res y :
  compute_relative_performance_index df sc gb mss wm floor = Ok res ->
  exists vs,
    Permutation
      (map (fun r => (z_score r, rank r, percentile r))
           (rows_of_year (table res) y))
      (map (fun v => (Fin v, Z.of_nat (1 + length (above vs v)),
                      pct_real vs v * 100)) vs).
Proof.
  intros Hok. apply compute_ok_inv in Hok as (_ & Htable & _).
  unfold rows_of_year.
  set (agg := filter_min_sample_size mss (aggregate (dropna (rows df)))) in *.
  assert (Hsize : forall a, In a agg -> (1 <= sample_size a)%nat).
  { intros a Hin. apply filter_min_sample_size_In in Hin.
    now apply aggregate_sample_size in Hin. }
  exists (map (z_real floor (year_stats_of wm agg)) (sub_of agg y)).
  rewrite Htable.
  rewrite (Permutation_map _ (filter_perm _ _ _
             (Permutation_sym (sort_by_perm by_year_rank _)))).
  rewrite score_groups_year, !map_map. cbv zeta. cbn [z_score rank percentile].
  assert (Hzs : map (z_score_of floor (year_stats_of wm agg)) (sub_of agg y)
                = map Fin (map (z_real floor (year_stats_of wm agg))
                               (sub_of agg y))).
  { rewrite map_map. apply map_ext_in. intros a Ha.
    apply sub_of_In in Ha as [Ha _]. now apply z_score_of_real. }
  rewrite Hzs.
  apply Permutation_refl'. apply map_ext_in. intros a Ha.
  apply sub_of_In in Ha as [Ha _].
  rewrite (z_score_of_real wm floor agg a Hsize Ha).
  now rewrite dense_rank_Fin, pct_rank_Fin.
Qed.

Lemma year_rows_view df sc gb mss wm floor res y :
  compute_relative_performance_index df sc gb mss wm floor = Ok res ->
  exists vs,
    (forall r, In r (rows_of_year (table res) y) ->
       exists v, In v vs /\ z_score r = Fin v /\
                 rank r = Z.of_nat (1 + length (above vs v)) /\
                 percentile r = pct_real vs v * 100) /\
    (forall v, In v vs ->
       exists r, In r (rows_of_year (table res) y) /\ z_score r = Fin v) /\
    Permutation (map z_score (rows_of_year (table res) y)) (map Fin vs).
Proof.
  intros Hok.
  destruct (year_rows_scores df sc gb mss wm floor res y Hok) as (vs & Hperm).
  set (rows := rows_of_year (table res) y) in *.
  set (g := fun v => (Fin v, Z.of_nat (1 + length (above vs v)),
                      pct_real vs v * 100)) in *.
  exists vs. split; [|split].
  - intros r Hr.
    assert (Hin : In (z_score r, rank r, percentile r) (map g vs)).
    { eapply Permutation_in; [exact Hperm|].
      apply (in_map (fun r => (z_score r, rank r, percentile r))). exact Hr. }
    apply in_map_iff in Hin as (v & [= E1 E2 E3] & Hv). eauto.
  - intros v Hv.
    assert (Hin : In (g v) (map (fun r => (z_score r, rank r, percentile r))
                               rows)).
    { eapply Permutation_in; [symmetry; exact Hperm|]. now apply in_map. }
    apply in_map_iff in Hin as (r & [= E1 _ _] & Hr). eauto.
  - apply (Permutation_map (fun t => fst (fst t))) in Hperm.
    rewrite !map_map in Hperm. exact Hperm.
Qed.

(** Counting facts behind the average-rank percentile. *)
Lemma count_lt_eq_le vs v :
  (length (filter (fun u => Rltb u v) vs) + length (filter (Reqb v) vs)
   <= length vs)%nat.
Proof.
  induction vs as [|a vs IH]; simpl; [lia|].
  destruct (Rltb a v) eqn:E1, (Reqb v a) eqn:E2; simpl; try lia.
  apply Rltb_true in E1. apply Reqb_true in E2. lra.
Qed.

Lemma count_eq_pos vs v : In v vs -> (1 <= length (filter (Reqb v) vs))%nat.
Proof.
  intros H.
  assert (Hin : In v (filter (Reqb v) vs))
    by (apply filter_In; split; auto; now apply Reqb_true).
  destruct (filter (Reqb v) vs); [destruct Hin | simpl; lia].
Qed.

Lemma count_lt_step vs v w :
  v < w ->
  (length (filter (fun u => Rltb u v) vs) + length (filter (Reqb v) vs)
   <= length (filter (fun u => Rltb u w) vs))%nat.
Proof.
  intros Hlt. induction vs as [|a vs IH]; simpl; [lia|].
  destruct (Rltb a v) eqn:E1, (Reqb v a) eqn:E2, (Rltb a w) eqn:E3;
    simpl; try lia;
    try apply Rltb_true in E1; try apply Reqb_true in E2;
    try apply Rltb_false in E3; lra.
Qed.

Lemma count_not_lt vs v :
  (length (filter (fun u => negb (Rltb u v)) vs)
   + length (filter (fun u => Rltb u v) vs) = length vs)%nat.
Proof.
  induction vs as [|a vs IH]; simpl; [lia|].
  destruct (Rltb a v); simpl; lia.
Qed.

Lemma pct_real_bounds vs v : In v vs -> 0 < pct_real vs v <= 1.
Proof.
  intros Hv. unfold pct_real.
  pose proof (count_lt_eq_le vs v) as Hle.
  pose proof (count_eq_pos vs v Hv) as Hpos.
  set (L := length (filter (fun u => Rltb u v) vs)) in *.
  set (E := length (filter (Reqb v) vs)) in *.
  assert (Hn : 0 < INR (length vs)) by (apply lt_0_INR; lia).
  apply le_INR in Hle, Hpos. rewrite plus_INR in Hle. simpl in Hpos.
  pose proof (pos_INR L) as HL.
  split.
  - apply Rdiv_lt_0_compat; lra.
  - apply Rmult_le_reg_r with (INR (length vs)); auto.
    unfold Rdiv. rewrite Rmult_assoc, Rinv_l by lra. lra.
Qed.

Lemma pct_real_strict vs v w :
  In v vs -> v < w -> pct_real vs v < pct_real vs w.
Proof.
  intros Hv Hlt. unfold pct_real.
  pose proof (count_lt_step vs v w Hlt) as Hstep.
  pose proof (count_eq_pos vs v Hv) as Hpos.
  set (L := length (filter (fun u => Rltb u v) vs)) in *.
  set (E := length (filter (Reqb v) vs)) in *.
  set (L' := length (filter (fun u => Rltb u w) vs)) in *.
  set (E' := length (filter (Reqb w) vs)).
  assert (Hn : 0 < INR (length vs)).
  { apply lt_0_INR. destruct vs; [destruct Hv | simpl; lia]. }
  apply le_INR in Hstep, Hpos. rewrite plus_INR in Hstep. simpl in Hpos.
  pose proof (pos_INR E') as HE'.
  unfold Rdiv at 1 3. apply Rmult_lt_compat_r; [now apply Rinv_0_lt_compat|].
  lra.
Qed.

(** The percentile is the whole scale exactly when no other value reaches
    [v]. *)
Lemma pct_real_top vs v :
  In v vs ->
  (pct_real vs v = 1 <->
   length (filter (fun u => negb (Rltb u v)) vs) = 1%nat).
Proof.
  intros Hv. unfold pct_real.
  pose proof (count_lt_eq_le vs v) as Hle.
  pose proof (count_eq_pos vs v Hv) as Hpos.
  pose proof (count_not_lt vs v) as Hsplit.
  set (L := length (filter (fun u => Rltb u v) vs)) in *.
  set (E := length (filter (Reqb v) vs)) in *.
  set (G := length (filter (fun u => negb (Rltb u v)) vs)) in *.
  assert (Hn : 0 < INR (length vs)) by (apply lt_0_INR; lia).
  split.
  - intros H.
    assert (H' : INR L + (INR E + 1) / 2 = INR (length vs)).
    { apply Rmult_eq_reg_r with (/ INR (length vs)).
      - rewrite Rinv_r by lra. exact H.
      - apply Rinv_neq_0_compat. lra. }
    rewrite <- Hsplit in H'. rewrite plus_INR in H'.
    assert (HG : INR G = (INR E + 1) / 2) by lra.
    assert (HGE : (E <= G)%nat) by lia.
    apply le_INR in HGE, Hpos. simpl in Hpos.
    assert (INR G = 1) by lra.
    apply INR_eq. simpl. exact H0.
  - intros HG.
    assert (HE : E = 1%nat) by lia.
    assert (HL : length vs = (L + 1)%nat) by lia.
    rewrite HE, HL, plus_INR. simpl.
    pose proof (pos_INR L). field. lra.
Qed.

Lemma years_of_sorted agg : StronglySorted Z.lt (years_of agg).
Proof.
  unfold years_of. apply strictly_sorted.
  - apply sort_by_strongly_sorted.
    + intros a b. rewrite !Z.leb_le. lia.
    + intros a b c. rewrite !Z.leb_le. lia.
  - eapply Permutation_NoDup; [apply sort_by_perm | apply NoDup_nodup].
Qed.

(** The keys of [agg]: one row per (year, group). *)
Lemma aggregate_keys df :
  map (fun a => (year a, group a)) (aggregate df)
  = group_keys group_key_eq_dec group_key_leb fst df.
Proof.
  unfold aggregate, groupby. rewrite !map_map. cbn [year group fst snd].
  rewrite <- (map_id (group_keys _ _ _ df)) at 2.
  apply map_ext. now intros [y g].
Qed.

Lemma aggregate_sizes df : list_sum (map sample_size (aggregate df)) = length df.
Proof.
  unfold aggregate, groupby. rewrite !map_map. cbn [sample_size snd].
  unfold members.
  apply (partition_length
           (fun k v => if group_key_eq_dec (fst v) k then true else false) fst).
  - intros k a. destruct (group_key_eq_dec (fst a) k); split; auto; discriminate.
  - apply group_keys_NoDup.
  - intros a Ha. apply group_keys_In. now apply in_map.
Qed.

Lemma filter_min_keys m agg :
  NoDup (map (fun a => (year a, group a)) agg) ->
  NoDup (map (fun a => (year a, group a)) (filter_min_sample_size m agg)).
Proof.
  unfold filter_min_sample_size. destruct (0 <? m)%Z; auto.
  apply NoDup_map_filter.
Qed.

Lemma filter_min_size m agg a :
  In a (filter_min_sample_size m agg) ->
  (1 <= sample_size a)%nat -> (m <= Z.of_nat (sample_size a))%Z.
Proof.
  unfold filter_min_sample_size. destruct (0 <? m)%Z eqn:E.
  - intros H _. apply filter_In in H as [_ H]. now apply Z.leb_le.
  - intros _ H. apply Z.ltb_ge in E. lia.
Qed.

Lemma filter_min_all m agg :
  (m <= 1)%Z -> (forall a, In a agg -> (1 <= sample_size a)%nat) ->
  filter_min_sample_size m agg = agg.
Proof.
  intros Hm Hsz. unfold filter_min_sample_size. destruct (0 <? m)%Z; auto.
  apply filter_all. intros a Ha. apply Z.leb_le. specialize (Hsz a Ha). lia.
Qed.

Lemma score_groups_base wm floor agg : map base (score_groups wm floor agg) = agg.
Proof.
  unfold score_groups. rewrite map_map. cbn [base]. apply map_id.
Qed.

Lemma by_year_rank_true a b :
  by_year_rank a b = true <->
  (year (base a) < year (base b))%Z \/
  (year (base a) = year (base b) /\ (rank a <= rank b)%Z).
Proof.
  unfold by_year_rank.
  rewrite orb_true_iff, andb_true_iff, Z.ltb_lt, Z.eqb_eq, Z.leb_le. tauto.
Qed.

Lemma by_year_rank_total a b :
  by_year_rank a b = true \/ by_year_rank b a = true.
Proof. rewrite !by_year_rank_true. lia. Qed.

Lemma by_year_rank_trans a b c :
  by_year_rank a b = true -> by_year_rank b c = true ->
  by_year_rank a c = true.
Proof. rewrite !by_year_rank_true. lia. Qed.

(** The parts of a successful run, with the two counters of its [meta]. *)
Lemma compute_ok_view df sc gb mss wm floor res :
  compute_relative_performance_index df sc gb mss wm floor = Ok res ->
  let agg := filter_min_sample_size mss (aggregate (dropna (rows df))) in
  table res = sort_by by_year_rank (score_groups wm floor agg) /\
  year_stats res = year_stats_of wm agg /\
  rows_used res = length (dropna (rows df)) /\
  groups_used res = length agg /\
  Permutation (map base (table res)) agg /\
  (forall a, In a agg -> (1 <= sample_size a)%nat).
Proof.
  intros Hok agg.
  pose proof (compute_ok_inv _ _ _ _ _ _ _ Hok) as (_ & Ht & Hy).
  fold agg in Ht, Hy.
  unfold compute_relative_performance_index in Hok.
  destruct (missing_required (columns df) sc gb); [|discriminate].
  cbv zeta in Hok. fold agg in Hok.
  destruct (year_stats_of wm agg); [discriminate|].
  injection Hok as <-. cbn [rows_used groups_used table year_stats] in *.
  repeat split; auto.
  - unfold score_groups. now rewrite length_map.
  - rewrite <- (Permutation_map base (sort_by_perm by_year_rank _)).
    now rewrite score_groups_base.
  - intros a Ha. apply filter_min_sample_size_In in Ha.
    now apply aggregate_sample_size in Ha.
Qed.

Lemma rows_of_year_length df sc gb mss wm floor res y :
  compute_relative_performance_index df sc gb mss wm floor = Ok res ->
  length (rows_of_year (table res) y)
  = length (sub_of (filter_min_sample_size mss
                      (aggregate (dropna (rows df)))) y).
Proof.
  intros Hok. apply compute_ok_view in Hok as (Ht & _).
  unfold rows_of_year. rewrite Ht.
  rewrite (Permutation_length (filter_perm _ _ _
             (Permutation_sym (sort_by_perm by_year_rank _)))).
  now rewrite score_groups_year, length_map.
Qed.




(** [agg], one row per key of the cleaned frame. *)
Lemma aggregate_eq clean :
  aggregate clean
  = map (fun k =>
           mk_agg (fst k) (snd k)
                  (np_mean (map snd (members group_key_eq_dec fst k clean)))
                  (length (members group_key_eq_dec fst k clean)))
        (group_keys group_key_eq_dec group_key_leb fst clean).
Proof. unfold aggregate, groupby. now rewrite map_map. Qed.

(** Weighted by sample size, the baseline mean of a year is the mean over
    the records of that year. *)
Lemma weighted_mean_is_record_mean clean y :
  sub_of (aggregate clean) y <> [] ->
  ys_year_mean (year_stats_row "sample_size" (aggregate clean) y)
  = Fin (np_mean (map snd (filter (fun r => (fst (fst r) =? y)%Z) clean))).
Proof.
  intros Hne.
  set (K := group_keys group_key_eq_dec group_key_leb fst clean).
  set (Ky := filter (fun k : Z * list string => (fst k =? y)%Z) K).
  set (Ly := filter (fun r : Z * list string * R => (fst (fst r) =? y)%Z) clean).
  set (test := fun (k : Z * list string) (a : Z * list string * R) =>
                 if group_key_eq_dec (fst a) k then true else false).
  assert (Htest : forall k a, test k a = true <-> fst a = k).
  { intros k a. unfold test.
    destruct (group_key_eq_dec (fst a) k); split; auto; discriminate. }
  assert (Hsub : sub_of (aggregate clean) y
                 = map (fun k =>
                          mk_agg (fst k) (snd k)
                                 (np_mean (map snd (filter (test k) Ly)))
                                 (length (filter (test k) Ly))) Ky).
  { unfold sub_of. rewrite aggregate_eq, filter_map_comm. cbn [year].
    fold K Ky. apply map_ext_in. intros k Hk.
    apply filter_In in Hk as [_ Hk]. apply Z.eqb_eq in Hk.
    assert (Hm : members group_key_eq_dec fst k clean = filter (test k) Ly).
    { unfold members, Ly. fold test. symmetry.
      apply filter_filter_implied. intros a _ Ha.
      apply Htest in Ha. apply Z.eqb_eq. subst k. exact Hk. }
    now rewrite Hm. }
  assert (Hnd : NoDup Ky) by (apply NoDup_filter, group_keys_NoDup).
  assert (Hcov : forall a, In a Ly -> In (fst a) Ky).
  { intros a Ha. apply filter_In in Ha as [Ha Hy]. apply filter_In.
    split; auto. apply group_keys_In. now apply in_map. }
  assert (Hparts : forall k, In k Ky -> filter (test k) Ly <> []).
  { intros k Hk E. apply filter_In in Hk as [Hk Hy].
    apply group_keys_In, in_map_iff in Hk as (a & Ha & Hin).
    assert (Hin' : In a (filter (test k) Ly)).
    { apply filter_In. split; [|now apply Htest].
      apply filter_In. split; auto. subst k. exact Hy. }
    rewrite E in Hin'. destruct Hin'. }
  assert (Hlen : rsum (map (fun k => INR (length (filter (test k) Ly))) Ky)
                 = INR (length Ly)).
  { rewrite (rsum_map_ext _ (fun k => rsum (map (fun _ => 1)
                                                (filter (test k) Ly)))).
    - rewrite (rsum_partition test fst Htest (fun _ => 1)); auto.
      rewrite rsum_map_const. lra.
    - intros k _. rewrite rsum_map_const. lra. }
  assert (Hsum : rsum (map (fun k => INR (length (filter (test k) Ly))
                                     * np_mean (map snd (filter (test k) Ly)))
                           Ky)
                 = rsum (map snd Ly)).
  { rewrite <- (rsum_partition test fst Htest snd Ly Ky); auto.
    apply rsum_map_ext. intros k Hk.
    pose proof (Hparts k Hk) as Hp.
    unfold np_mean. rewrite len_map.
    assert (0 < INR (length (filter (test k) Ly))).
    { destruct (filter (test k) Ly); [congruence|].
      apply lt_0_INR. simpl. lia. }
    field. lra. }
  assert (Hpos : 0 < INR (length Ly)).
  { destruct Ky as [|k Ky'] eqn:EK.
    - rewrite Hsub in Hne. simpl in Hne. congruence.
    - assert (Hk : In k Ky) by (rewrite EK; now left).
      rewrite <- EK in *. apply Hparts in Hk.
      destruct (filter (test k) Ly) as [|a t] eqn:E; [congruence|].
      assert (In a Ly).
      { assert (Hin : In a (filter (test k) Ly)) by (rewrite E; now left).
        now apply filter_In in Hin. }
      destruct Ly; [contradiction|]. apply lt_0_INR. simpl. lia. }
  unfold year_stats_row. cbn [ys_year_mean String.eqb Ascii.eqb Bool.eqb].
  rewrite Hsub, !map_map. cbn [mean_salary sample_size].
  unfold _weighted_mean_std. rewrite Hlen.
  destruct (Rle_dec (INR (length Ly)) 0) as [Hle|_]; [lra|].
  cbn [fst]. rewrite mul_arrays_map, Hsum.
  unfold np_mean. now rewrite len_map.
Qed.

End RelativePerformanceTableFacts.

(** ** The table of the relative performance index *)

Module RelativePerformanceTableTheorems.
Import Frame FrameFacts Np NpFacts.
Import RelativePerformanceIndex RelativePerformanceIndexFacts.
Import RelativePerformanceSamples RelativePerformanceMeasures.
Import RelativePerformanceMeta.
Import FrameListFacts RelativePerformanceTableFacts.

(** X1. Within each year of the table the dense ranks are exactly the
    numbers 1 to k, where k is the number of distinct z-scores of the year:
    every rank lies in that range, every number of the range is the rank of
    some row, rows with the same z-score share a rank, and a row with a
    larger z-score has a strictly smaller rank. *)
Theorem dense_ranks_cover :
  forall df salary_column group_by min_sample_size weight_mode
         zscore_floor_std res y,
    compute_relative_performance_index df salary_column group_by
      min_sample_size weight_mode zscore_floor_std = Ok res ->
    let rows := rows_of_year (table res) y in
    let k := length (nodup float64_eq_dec (map z_score rows)) in
    (forall r, In r rows -> (1 <= rank r <= Z.of_nat k)%Z) /\
    (forall j, (1 <= j <= Z.of_nat k)%Z -> exists r, In r rows /\ rank r = j) /\
    (forall r1 r2, In r1 rows -> In r2 rows ->
       z_score r1 = z_score r2 -> rank r1 = rank r2) /\
    (forall r1 r2, In r1 rows -> In r2 rows ->
       flt (z_score r1) (z_score r2) = true -> (rank r2 < rank r1)%Z).
Proof.
  intros df sc gb mss wm floor res y Hok rows k.
  destruct (year_rows_view df sc gb mss wm floor res y Hok)
    as (vs & Hrow & Hval & Hz).
  fold rows in Hrow, Hval, Hz.
  assert (Hk : k = length (nodup Req_dec_T vs)).
  { unfold k. rewrite (nodup_length_perm _ _ _ Hz), nodup_map_Fin.
    apply length_map. }
  repeat split.
  - destruct (Hrow r H) as (v & Hv & _ & -> & _). lia.
  - destruct (Hrow r H) as (v & Hv & _ & -> & _).
    pose proof (above_bound vs v Hv). lia.
  - intros j Hj.
    destruct (above_onto vs (Z.to_nat (j - 1))) as (v & Hv & Hlen); [lia|].
    destruct (Hval v Hv) as (r & Hr & Hzr).
    exists r. split; auto.
    destruct (Hrow r Hr) as (v' & _ & Hz' & -> & _).
    assert (v' = v) by congruence. subst v'. rewrite Hlen. lia.
  - intros r1 r2 H1 H2 Hzz.
    destruct (Hrow r1 H1) as (v1 & _ & Hz1 & -> & _).
    destruct (Hrow r2 H2) as (v2 & _ & Hz2 & -> & _).
    assert (v1 = v2) by congruence. now subst.
  - intros r1 r2 H1 H2 Hlt.
    destruct (Hrow r1 H1) as (v1 & _ & Hz1 & -> & _).
    destruct (Hrow r2 H2) as (v2 & Hv2 & Hz2 & -> & _).
    rewrite Hz1, Hz2 in Hlt. cbn in Hlt. apply Rltb_true in Hlt.
    pose proof (above_strict vs v1 v2 Hv2 Hlt). lia.
Qed.

Lemma dense_ranks_cover_witness :
  exists res,
    compute_relative_performance_index two_courses "gross_monthly_median"
      ["course"%string] 1 "none" default_floor = Ok res /\
    forall r1 r2,
      In r1 (rows_of_year (table res) 2020) ->
      In r2 (rows_of_year (table res) 2020) ->
      z_score r1 = z_score r2 -> rank r1 = rank r2.
Proof.
  eassert (Hok : compute_relative_performance_index two_courses
                   "gross_monthly_median" ["course"%string] 1 "none"
                   default_floor = Ok _) by reflexivity.
  eexists. split; [exact Hok|].
  exact (proj1 (proj2 (proj2 (dense_ranks_cover _ _ _ _ _ _ _ 2020 Hok)))).
Defined.

(** X2. Within each year of the table every percentile lies in (0, 100];
    a row with a larger z-score has a strictly larger percentile and rows
    with the same z-score share one; and a row is at 100 exactly when it is
    the only row of its year whose z-score is not below its own. *)
Theorem percentile_range_and_order :
  forall df salary_column group_by min_sample_size weight_mode
         zscore_floor_std res y,
    compute_relative_performance_index df salary_column group_by
      min_sample_size weight_mode zscore_floor_std = Ok res ->
    let rows := rows_of_year (table res) y in
    (forall r, In r rows -> 0 < percentile r <= 100) /\
    (forall r1 r2, In r1 rows -> In r2 rows ->
       flt (z_score r1) (z_score r2) = true -> percentile r1 < percentile r2) /\
    (forall r1 r2, In r1 rows -> In r2 rows ->
       z_score r1 = z_score r2 -> percentile r1 = percentile r2) /\
    (forall r, In r rows ->
       (percentile r = 100 <->
        length (filter (fun r' => negb (flt (z_score r') (z_score r))) rows)
        = 1%nat)).
Proof.
  intros df sc gb mss wm floor res y Hok rows.
  destruct (year_rows_view df sc gb mss wm floor res y Hok)
    as (vs & Hrow & Hval & Hz).
  fold rows in Hrow, Hval, Hz.
  split; [|split; [|split]].
  - intros r Hr. destruct (Hrow r Hr) as (v & Hv & _ & _ & ->).
    pose proof (pct_real_bounds vs v Hv). lra.
  - intros r1 r2 H1 H2 Hlt.
    destruct (Hrow r1 H1) as (v1 & Hv1 & Hz1 & _ & ->).
    destruct (Hrow r2 H2) as (v2 & Hv2 & Hz2 & _ & ->).
    rewrite Hz1, Hz2 in Hlt. cbn in Hlt. apply Rltb_true in Hlt.
    pose proof (pct_real_strict vs v1 v2 Hv1 Hlt). lra.
  - intros r1 r2 H1 H2 Hzz.
    destruct (Hrow r1 H1) as (v1 & _ & Hz1 & _ & ->).
    destruct (Hrow r2 H2) as (v2 & _ & Hz2 & _ & ->).
    assert (v1 = v2) by congruence. now subst.
  - intros r Hr. destruct (Hrow r Hr) as (v & Hv & Hzr & _ & ->).
    assert (Hcount :
      length (filter (fun r' => negb (flt (z_score r') (z_score r))) rows)
      = length (filter (fun u => negb (Rltb u v)) vs)).
    { rewrite Hzr.
      rewrite <- (length_map z_score), <- (filter_map_comm z_score
        (fun z' => negb (flt z' (Fin v)))).
      rewrite (Permutation_length (filter_perm _ _ _ Hz)).
      now rewrite filter_map_comm, length_map. }
    rewrite Hcount, <- (pct_real_top vs v Hv). split; intros H; lra.
Qed.

Lemma percentile_range_and_order_witness :
  exists res,
    compute_relative_performance_index two_courses "gross_monthly_median"
      ["course"%string] 1 "none" default_floor = Ok res /\
    forall r, In r (rows_of_year (table res) 2020) -> 0 < percentile r <= 100.
Proof.
  eassert (Hok : compute_relative_performance_index two_courses
                   "gross_monthly_median" ["course"%string] 1 "none"
                   default_floor = Ok _) by reflexivity.
  eexists. split; [exact Hok|].
  exact (proj1 (percentile_range_and_order _ _ _ _ _ _ _ 2020 Hok)).
Defined.

(** X3. The table comes sorted by year and, within a year, by rank; it has
    one row per (year, group) pair, and [groups_used] counts its rows. *)
Theorem table_sorted_one_row_per_group :
  forall df salary_column group_by min_sample_size weight_mode
         zscore_floor_std res,
    compute_relative_performance_index df salary_column group_by
      min_sample_size weight_mode zscore_floor_std = Ok res ->
    StronglySorted
      (fun a b => (year (base a) < year (base b))%Z \/
                  (year (base a) = year (base b) /\ (rank a <= rank b)%Z))
      (table res) /\
    NoDup (map (fun r => (year (base r), group (base r))) (table res)) /\
    groups_used res = length (table res).
Proof.
  intros df sc gb mss wm floor res Hok.
  apply compute_ok_view in Hok as (Ht & _ & _ & Hg & Hperm & _).
  split; [|split].
  - rewrite Ht.
    apply (StronglySorted_impl (fun a b => by_year_rank a b = true)).
    + intros a b. apply by_year_rank_true.
    + apply sort_by_strongly_sorted.
      * apply by_year_rank_total.
      * apply by_year_rank_trans.
  - rewrite <- (map_map base (fun a => (year a, group a))).
    eapply Permutation_NoDup.
    + symmetry. apply Permutation_map. exact Hperm.
    + apply filter_min_keys. rewrite aggregate_keys. apply group_keys_NoDup.
  - rewrite Hg, <- (Permutation_length Hperm). now rewrite length_map.
Qed.

Lemma table_sorted_one_row_per_group_witness :
  exists res,
    compute_relative_performance_index two_courses "gross_monthly_median"
      ["course"%string] 1 "none" default_floor = Ok res /\
    groups_used res = length (table res).
Proof.
  eassert (Hok : compute_relative_performance_index two_courses
                   "gross_monthly_median" ["course"%string] 1 "none"
                   default_floor = Ok _) by reflexivity.
  eexists. split; [exact Hok|].
  exact (proj2 (proj2 (table_sorted_one_row_per_group _ _ _ _ _ _ _ Hok))).
Defined.

(** X4. [year_stats] lists the years of the table in strictly increasing
    order; each of its rows counts the table rows of its year, at least
    one, and echoes the weight mode; every table row has its year listed;
    and the group counts add up to [groups_used]. *)
Theorem year_stats_cover_table :
  forall df salary_column group_by min_sample_size weight_mode
         zscore_floor_std res,
    compute_relative_performance_index df salary_column group_by
      min_sample_size weight_mode zscore_floor_std = Ok res ->
    StronglySorted Z.lt (map ys_year (year_stats res)) /\
    (forall s, In s (year_stats res) ->
       ys_n_groups s = length (rows_of_year (table res) (ys_year s)) /\
       (1 <= ys_n_groups s)%nat /\
       ys_weight_mode s = weight_mode) /\
    (forall r, In r (table res) ->
       In (year (base r)) (map ys_year (year_stats res))) /\
    list_sum (map ys_n_groups (year_stats res)) = groups_used res.
Proof.
  intros df sc gb mss wm floor res Hok.
  pose proof (compute_ok_view _ _ _ _ _ _ _ Hok)
    as (Ht & Hy & _ & Hg & Hperm & _).
  set (agg := filter_min_sample_size mss (aggregate (dropna (rows df)))) in *.
  assert (Hyears : map ys_year (year_stats res) = years_of agg).
  { rewrite Hy. unfold year_stats_of. rewrite map_map. cbn [ys_year].
    apply map_id. }
  split; [|split; [|split]].
  - rewrite Hyears. apply years_of_sorted.
  - intros s Hs. rewrite Hy in Hs. unfold year_stats_of in Hs.
    apply in_map_iff in Hs as (y & <- & Hin). unfold year_stats_row.
    cbn [ys_n_groups ys_year ys_weight_mode].
    rewrite (rows_of_year_length _ _ _ _ _ _ _ y Hok). fold agg.
    split; [reflexivity|]. split; [|reflexivity].
    apply years_of_In in Hin as (a & Ha & Hya).
    assert (Hin : In a (sub_of agg y)) by (apply sub_of_In; auto).
    destruct (sub_of agg y); [destruct Hin | simpl; lia].
  - intros r Hr. rewrite Hyears. apply years_of_In. exists (base r).
    split; auto. eapply Permutation_in; [exact Hperm|]. now apply in_map.
  - rewrite Hy, Hg. unfold year_stats_of. rewrite map_map.
    cbn [ys_n_groups]. unfold sub_of.
    apply (partition_length (fun y a => (year a =? y)%Z) year).
    + intros k a. apply Z.eqb_eq.
    + eapply Permutation_NoDup; [apply sort_by_perm | apply NoDup_nodup].
    + intros a Ha. apply years_of_In. eauto.
Qed.

Lemma year_stats_cover_table_witness :
  exists res,
    compute_relative_performance_index two_courses "gross_monthly_median"
      ["course"%string] 1 "none" default_floor = Ok res /\
    list_sum (map ys_n_groups (year_stats res)) = groups_used res.
Proof.
  eassert (Hok : compute_relative_performance_index two_courses
                   "gross_monthly_median" ["course"%string] 1 "none"
                   default_floor = Ok _) by reflexivity.
  eexists. split; [exact Hok|].
  exact (proj2 (proj2 (proj2 (year_stats_cover_table _ _ _ _ _ _ _ Hok)))).
Defined.

(** X5. Every group of the table stands for at least one record, and for
    at least [min_sample_size] of them; the sample sizes of the table never
    add up to more than [rows_used], and they add up to exactly [rows_used]
    when [min_sample_size] is at most 1, so that no group is dropped. *)
Theorem sample_sizes_account_for_rows :
  forall df salary_column group_by min_sample_size weight_mode
         zscore_floor_std res,
    compute_relative_performance_index df salary_column group_by
      min_sample_size weight_mode zscore_floor_std = Ok res ->
    let total := list_sum (map (fun r => sample_size (base r)) (table res)) in
    (forall r, In r (table res) ->
       (1 <= sample_size (base r))%nat /\
       (min_sample_size <= Z.of_nat (sample_size (base r)))%Z) /\
    (total <= rows_used res)%nat /\
    ((min_sample_size <= 1)%Z -> total = rows_used res).
Proof.
  intros df sc gb mss wm floor res Hok total.
  apply compute_ok_view in Hok as (_ & _ & Hr & _ & Hperm & Hsz).
  set (clean := dropna (rows df)) in *.
  set (agg := filter_min_sample_size mss (aggregate clean)) in *.
  assert (Htotal : total = list_sum (map sample_size agg)).
  { unfold total. rewrite <- (map_map base sample_size).
    apply list_sum_perm, Permutation_map, Hperm. }
  split; [|split].
  - intros r Hin.
    assert (Ha : In (base r) agg)
      by (eapply Permutation_in; [exact Hperm | now apply in_map]).
    split; auto. apply (filter_min_size mss (aggregate clean)); auto.
  - rewrite Htotal, Hr, <- (aggregate_sizes clean).
    unfold agg, filter_min_sample_size. destruct (0 <? mss)%Z; [|lia].
    apply list_sum_filter_le.
  - intros Hm. rewrite Htotal, Hr, <- (aggregate_sizes clean).
    unfold agg. rewrite filter_min_all; auto.
    intros a Ha. now apply aggregate_sample_size in Ha.
Qed.

Lemma sample_sizes_account_for_rows_witness :
  exists res,
    compute_relative_performance_index two_courses "gross_monthly_median"
      ["course"%string] 1 "none" default_floor = Ok res /\
    list_sum (map (fun r => sample_size (base r)) (table res)) = rows_used res.
Proof.
  eassert (Hok : compute_relative_performance_index two_courses
                   "gross_monthly_median" ["course"%string] 1 "none"
                   default_floor = Ok _) by reflexivity.
  eexists. split; [exact Hok|].
  apply (proj2 (proj2 (sample_sizes_account_for_rows _ _ _ _ _ _ _ Hok))).
  lia.
Defined.



(** X24. A [min_sample_size] of 1 or less filters nothing: every group
    stands for at least one record.  The call then ends as it does for
    [min_sample_size = 1]: in the same error, or with the same table, the
    same yearly baselines and the same [meta] but for the one entry of
    [meta] that echoes [min_sample_size] itself. *)
Theorem min_sample_size_below_two_is_inert :
  forall df salary_column group_by min_sample_size weight_mode
         zscore_floor_std,
    (min_sample_size <= 1)%Z ->
    match relative_performance_result df salary_column group_by
            min_sample_size weight_mode zscore_floor_std,
          relative_performance_result df salary_column group_by
            1 weight_mode zscore_floor_std with
    | Ok r, Ok r1 =>
        r_table r = r_table r1 /\ r_year_stats r = r_year_stats r1 /\
        m_rows_used (r_meta r) = m_rows_used (r_meta r1) /\
        m_groups_used (r_meta r) = m_groups_used (r_meta r1) /\
        m_years_min (r_meta r) = m_years_min (r_meta r1) /\
        m_years_max (r_meta r) = m_years_max (r_meta r1) /\
        m_salary_column (r_meta r) = m_salary_column (r_meta r1) /\
        m_group_by (r_meta r) = m_group_by (r_meta r1) /\
        m_weight_mode (r_meta r) = m_weight_mode (r_meta r1) /\
        m_min_sample_size (r_meta r) = min_sample_size /\
        m_min_sample_size (r_meta r1) = 1%Z
    | ValueError missing, ValueError missing1 => missing = missing1
    | KeyError labels, KeyError labels1 => labels = labels1
    | _, _ => False
    end.
Proof.
  intros df sc gb m wm fl Hm. unfold relative_performance_result.
  assert (Hsz : forall a, In a (aggregate (dropna (rows df))) ->
            (1 <= sample_size a)%nat)
    by (intros a Ha; now apply aggregate_sample_size in Ha).
  assert (Hrun : compute_relative_performance_index df sc gb m wm fl
                 = compute_relative_performance_index df sc gb 1 wm fl).
  { unfold compute_relative_performance_index.
    rewrite (filter_min_all m) by auto.
    rewrite (filter_min_all 1) by (auto; lia).
    reflexivity. }
  rewrite Hrun.
  rewrite (filter_min_all m) by auto.
  rewrite (filter_min_all 1) by (auto; lia).
  destruct (compute_relative_performance_index df sc gb 1 wm fl);
    cbn; repeat split; reflexivity.
Qed.

Lemma min_sample_size_below_two_is_inert_witness :
  exists r r1,
    relative_performance_result two_courses "gross_monthly_median"
      ["course"%string] 0 "none" default_floor = Ok r /\
    relative_performance_result two_courses "gross_monthly_median"
      ["course"%string] 1 "none" default_floor = Ok r1 /\
    r_table r = r_table r1 /\ r_year_stats r = r_year_stats r1 /\
    m_min_sample_size (r_meta r) = 0%Z /\
    m_min_sample_size (r_meta r1) = 1%Z.
Proof.
  pose proof (min_sample_size_below_two_is_inert two_courses
                "gross_monthly_median" ["course"%string] 0 "none"
                default_floor ltac:(lia)) as H.
  eassert (H0 : relative_performance_result two_courses
                  "gross_monthly_median" ["course"%string] 0 "none"
                  default_floor = Ok _) by reflexivity.
  eassert (H1 : relative_performance_result two_courses
                  "gross_monthly_median" ["course"%string] 1 "none"
                  default_floor = Ok _) by reflexivity.
  rewrite H0, H1 in H.
  eexists. eexists. split; [exact H0|]. split; [exact H1|]. tauto.
Defined.

(** X25. With weight mode ["sample_size"] and a [min_sample_size] of at
    most 1, the baseline mean of each year is the plain mean of the salary
    over all the cleaned records of that year: weighting the group means by
    their sample sizes undoes the grouping. *)
Theorem weighted_baseline_is_record_mean :
  forall df salary_column group_by min_sample_size zscore_floor_std res,
    compute_relative_performance_index df salary_column group_by
      min_sample_size "sample_size" zscore_floor_std = Ok res ->
    (min_sample_size <= 1)%Z ->
    forall s, In s (year_stats res) ->
      ys_year_mean s
      = Fin (np_mean
               (map snd
                    (filter (fun r => (fst (fst r) =? ys_year s)%Z)
                            (dropna (rows df))))).
Proof.
  intros df sc gb mss fl res Hok Hm s Hs.
  apply compute_ok_view in Hok as (_ & Hy & _).
  rewrite filter_min_all in Hy;
    [|exact Hm | intros a Ha; now apply aggregate_sample_size in Ha].
  rewrite Hy in Hs. unfold year_stats_of in Hs.
  apply in_map_iff in Hs as (y & <- & Hin).
  replace (ys_year (year_stats_row "sample_size"
                      (aggregate (dropna (rows df))) y)) with y
    by reflexivity.
  apply weighted_mean_is_record_mean.
  apply years_of_In in Hin as (a & Ha & Hya). intros E.
  assert (Hsub : In a (sub_of (aggregate (dropna (rows df))) y))
    by (apply sub_of_In; auto).
  rewrite E in Hsub. destruct Hsub.
Qed.

Lemma weighted_baseline_is_record_mean_witness :
  exists res,
    compute_relative_performance_index two_courses "gross_monthly_median"
      ["course"%string] 1 "sample_size" default_floor = Ok res /\
    forall s, In s (year_stats res) ->
      ys_year_mean s
      = Fin (np_mean
               (map snd
                    (filter (fun r => (fst (fst r) =? ys_year s)%Z)
                            (dropna (rows two_courses))))).
Proof.
  eassert (Hok : compute_relative_performance_index two_courses
                   "gross_monthly_median" ["course"%string] 1 "sample_size"
                   default_floor = Ok _) by reflexivity.
  eexists. split; [exact Hok|].
  apply (weighted_baseline_is_record_mean _ _ _ _ _ _ Hok). lia.
Defined.

End RelativePerformanceTableTheorems.

(** ** Facts behind the statistics of the tradeoff analysis *)

Module TradeoffStatisticsFacts.
Import Frame FrameFacts Np NpFacts.
Import EmploymentSalaryTradeoff EmploymentSalaryTradeoffFacts TradeoffSamples.
Import FrameListFacts EmploymentSalaryTradeoffReport.

Lemma combine_map {A} (f g : A -> R) l :
  combine (map f l) (map g l) = map (fun a => (f a, g a)) l.
Proof. induction l as [|a l IH]; simpl; auto. now rewrite IH. Qed.

(** The Cauchy-Schwarz inequality for sums with non-negative weights. *)
Lemma cauchy_schwarz {T} (w a b : T -> R) l :
  (forall t, In t l -> 0 <= w t) ->
  let A := rsum (map (fun t => w t * (a t * a t)) l) in
  let B := rsum (map (fun t => w t * (a t * b t)) l) in
  let C := rsum (map (fun t => w t * (b t * b t)) l) in
  0 <= A /\ 0 <= C /\ B * B <= A * C.
Proof.
  intros Hw A B C.
  assert (HA : 0 <= A).
  { apply rsum_nonneg. intros x Hx. apply in_map_iff in Hx as (t & <- & Ht).
    apply Rmult_le_pos; auto. apply Rle_0_sqr. }
  assert (HC : 0 <= C).
  { apply rsum_nonneg. intros x Hx. apply in_map_iff in Hx as (t & <- & Ht).
    apply Rmult_le_pos; auto. apply Rle_0_sqr. }
  assert (Hq : forall s, 0 <= A * (s * s) + 2 * B * s + C).
  { intros s.
    assert (E : rsum (map (fun t => w t * ((a t * s + b t) * (a t * s + b t))) l)
                = A * (s * s) + 2 * B * s + C).
    { rewrite (rsum_map_ext _
                 (fun t => (w t * (a t * a t)) * (s * s)
                           + ((w t * (a t * b t)) * (2 * s)
                              + w t * (b t * b t))))
        by (intros; lra).
      rewrite rsum_map_plus, rsum_map_plus, !rsum_map_scale_r.
      fold A B C. lra. }
    rewrite <- E. apply rsum_nonneg. intros x Hx.
    apply in_map_iff in Hx as (t & <- & Ht).
    apply Rmult_le_pos; auto. apply Rle_0_sqr. }
  split; [exact HA|]. split; [exact HC|].
  destruct (Req_dec_T A 0) as [E0|Hne].
  - assert (HB : B = 0).
    { destruct (Req_dec_T B 0) as [|HB]; auto. exfalso.
      specialize (Hq (- (C + 1) / (2 * B))). rewrite E0 in Hq.
      replace (0 * (- (C + 1) / (2 * B) * (- (C + 1) / (2 * B)))
               + 2 * B * (- (C + 1) / (2 * B)) + C) with (-1) in Hq
        by (field; exact HB).
      lra. }
    rewrite HB, E0. lra.
  - assert (HApos : 0 < A) by lra.
    specialize (Hq (- B / A)).
    replace (A * (- B / A * (- B / A)) + 2 * B * (- B / A) + C)
      with ((A * C - B * B) / A) in Hq by (field; exact Hne).
    assert (0 <= (A * C - B * B) / A * A) by (apply Rmult_le_pos; lra).
    replace ((A * C - B * B) / A * A) with (A * C - B * B) in H
      by (field; exact Hne).
    lra.
Qed.

(** A quotient by the root of a product that bounds its square. *)
Lemma ratio_bounded A B C :
  0 <= A -> 0 <= C -> B * B <= A * C -> sqrt (A * C) <> 0 ->
  -1 <= B / sqrt (A * C) <= 1.
Proof.
  intros HA HC HB Hs.
  assert (Hpos : 0 < sqrt (A * C)).
  { pose proof (sqrt_pos (A * C)). lra. }
  assert (Hsq : sqrt (A * C) * sqrt (A * C) = A * C).
  { apply sqrt_sqrt. apply Rmult_le_pos; auto. }
  assert (Hb : - sqrt (A * C) <= B <= sqrt (A * C)).
  { split.
    - destruct (Rle_dec (- sqrt (A * C)) B); auto. exfalso. nra.
    - destruct (Rle_dec B (sqrt (A * C))); auto. exfalso. nra. }
  split.
  - apply Rmult_le_reg_r with (sqrt (A * C)); auto.
    unfold Rdiv. rewrite Rmult_assoc, Rinv_l by lra. lra.
  - apply Rmult_le_reg_r with (sqrt (A * C)); auto.
    unfold Rdiv. rewrite Rmult_assoc, Rinv_l by lra. lra.
Qed.

(** The three sums of Pearson's coefficient over one list of rows. *)
Lemma ssd_map {A} (f : A -> R) l :
  ssd (map f l)
  = rsum (map (fun a => 1 * ((f a - np_mean (map f l)) * (f a - np_mean (map f l)))) l).
Proof.
  unfold ssd. rewrite map_map. apply rsum_map_ext. intros. lra.
Qed.

Lemma scd_map {A} (f g : A -> R) l :
  scd (map f l) (map g l)
  = rsum (map (fun a => 1 * ((f a - np_mean (map f l)) * (g a - np_mean (map g l)))) l).
Proof.
  unfold scd. rewrite combine_map, map_map. cbn [fst snd].
  apply rsum_map_ext. intros. lra.
Qed.




Lemma weighted_pearson_range {A} (w f g : A -> R) l r :
  (forall a, In a l -> 0 <= w a) ->
  weighted_pearson (map w l) (map f l) (map g l) = Some r -> -1 <= r <= 1.
Proof.
  intros Hw. unfold weighted_pearson.
  destruct (Rlt_dec 0 (rsum (map w l))) as [HW|]; [|discriminate].
  rewrite combine_map, !map_map, !mul_arrays_map. cbn [fst snd].
  set (W := rsum (map w l)) in *.
  set (xm := rsum (map (fun a => w a * f a) l) / W).
  set (ym := rsum (map (fun a => w a * g a) l) / W).
  pose proof (cauchy_schwarz w (fun a => f a - xm) (fun a => g a - ym) l Hw)
    as Hcs.
  cbv beta zeta in Hcs.
  set (Sxx := rsum (map (fun a => w a * ((f a - xm) * (f a - xm))) l)) in *.
  set (Sxy := rsum (map (fun a => w a * ((f a - xm) * (g a - ym))) l)) in *.
  set (Syy := rsum (map (fun a => w a * ((g a - ym) * (g a - ym))) l)) in *.
  destruct Hcs as (HA & HC & HB).
  destruct (Rlt_dec 0 (Sxx / W)) as [Hx|]; [|discriminate].
  destruct (Rlt_dec 0 (Syy / W)) as [Hy|]; [|discriminate].
  intros [= <-].
  assert (Hinv : 0 < / W) by now apply Rinv_0_lt_compat.
  apply ratio_bounded; try lra.
  - unfold Rdiv. nra.
  - intros E. apply sqrt_eq_0 in E; nra.
Qed.


Lemma polyfit1_full_rank lstsq x y :
  ssd x <> 0 ->
  polyfit1 lstsq x y
  = (scd x y / ssd x, np_mean y - scd x y / ssd x * np_mean x).
Proof.
  intros Hx. unfold polyfit1. destruct (Req_dec_T (ssd x) 0); [contradiction|].
  reflexivity.
Qed.

(** The summary of the two-category sample and its coefficient. *)
Lemma two_categories_summary :
  sort_by by_salary_desc
    (filter_min_sample_size 1 (aggregate (dropna two_categories)))
  = [mk_summary "Arts" 80 5000 NaN NaN 1; mk_summary "Law" 90 4000 NaN NaN 1].
Proof.
  change (filter_min_sample_size 1 (aggregate (dropna two_categories)))
    with [mk_summary "Arts" (np_mean [80]) (np_mean [5000]) NaN NaN 1;
          mk_summary "Law" (np_mean [90]) (np_mean [4000]) NaN NaN 1].
  rewrite !np_mean_single.
  unfold sort_by, by_salary_desc. cbn [fold_right insert_by avg_median_salary].
  decide_real. reflexivity.
Qed.



(** The rows of the summary before the quadrant labels. *)
Lemma summary_parts lstsq df mss add :
  let res := employment_salary_tradeoff lstsq df mss add in
  let rows := sort_by by_salary_desc
                (filter_min_sample_size mss (aggregate (dropna df))) in
  summary res = quadrants rows /\
  correlation res = unweighted_correlation rows /\
  correlation_weighted res = weighted_correlation rows /\
  trendline res = fit_trendline lstsq add rows /\
  rows_used res = length (dropna df) /\
  length (summary res) = length rows.
Proof.
  unfold employment_salary_tradeoff. cbn. repeat split.
  unfold quadrants. now rewrite length_map.
Qed.

Lemma aggregate_categories clean :
  map s_course_category (aggregate clean)
  = group_keys string_dec String.leb category clean.
Proof.
  unfold aggregate, groupby. rewrite !map_map. cbn [s_course_category fst].
  apply map_id.
Qed.

Lemma dropna_values_length {A} (l : list (option A)) :
  (length (dropna_values l) <= length l)%nat.
Proof. induction l as [|[a|] l IH]; simpl; lia. Qed.

Lemma list_sum_map_le {A} (f g : A -> nat) l :
  (forall a, In a l -> (f a <= g a)%nat) ->
  (list_sum (map f l) <= list_sum (map g l))%nat.
Proof.
  induction l as [|a l IH]; intros H; simpl; [lia|].
  pose proof (H a (or_introl eq_refl)).
  assert (list_sum (map f l) <= list_sum (map g l))%nat
    by (apply IH; intros; apply H; now right).
  lia.
Qed.

Lemma aggregate_sample_sizes clean :
  (list_sum (map sample_size (aggregate clean)) <= length clean)%nat.
Proof.
  assert (Hparts :
    list_sum (map (fun k => length (members string_dec category k clean))
                  (group_keys string_dec String.leb category clean))
    = length clean).
  { unfold members.
    apply (partition_length
             (fun k v => if string_dec (category v) k then true else false)
             category).
    - intros k a. destruct (string_dec (category a) k); split; auto; discriminate.
    - apply group_keys_NoDup.
    - intros a Ha. apply group_keys_In. now apply in_map. }
  rewrite <- Hparts. unfold aggregate, groupby. rewrite !map_map.
  cbn [sample_size snd]. apply list_sum_map_le. intros k _.
  rewrite <- (length_map course_cell). apply dropna_values_length.
Qed.

Lemma by_salary_desc_true a b :
  by_salary_desc a b = true <-> avg_median_salary b <= avg_median_salary a.
Proof. unfold by_salary_desc. apply Rleb_true. Qed.

Lemma summary_sorted l :
  StronglySorted (fun a b => avg_median_salary b <= avg_median_salary a)
                 (sort_by by_salary_desc l).
Proof.
  apply (StronglySorted_impl (fun a b => by_salary_desc a b = true)).
  - intros a b. apply by_salary_desc_true.
  - apply sort_by_strongly_sorted.
    + intros a b. rewrite !by_salary_desc_true. lra.
    + intros a b c. rewrite !by_salary_desc_true. lra.
Qed.

Lemma level_high_iff value threshold :
  level value threshold = "High"%string <-> threshold <= value.
Proof.
  unfold level. destruct (Rle_dec threshold value); split; auto;
    try discriminate; contradiction.
Qed.

Lemma median_le_max l v :
  l <> [] -> (forall u, In u l -> u <= v) -> median l <= v.
Proof.
  intros Hne Hmax.
  assert (Hn : (0 < length l)%nat) by (destruct l; [congruence | simpl; lia]).
  assert (Hhalf : (length l / 2 < length l)%nat) by (apply Nat.div_lt; lia).
  pose proof (median_le_upper l (length l - 1)) as Hm.
  assert (Hin : In (nth (length l - 1) (sort_by Rleb l) 0) l).
  { apply (sort_by_In Rleb). apply nth_In.
    rewrite <- (Permutation_length (sort_by_perm Rleb l)). lia. }
  specialize (Hmax _ Hin). assert (median l <= nth (length l - 1) (sort_by Rleb l) 0)
    by (apply Hm; lia).
  lra.
Qed.

(** Means and sums of squares of a series that is an affine image of
    another. *)
Lemma rsum_mean {A} (f : A -> R) l :
  l <> [] -> rsum (map f l) = INR (length l) * np_mean (map f l).
Proof.
  intros Hne. unfold np_mean. rewrite len_map.
  assert (0 < INR (length l))
    by (destruct l; [congruence | apply lt_0_INR; simpl; lia]).
  field. lra.
Qed.

Lemma np_mean_affine {A} (f : A -> R) l a b :
  l <> [] ->
  np_mean (map (fun r => a * f r + b) l) = a * np_mean (map f l) + b.
Proof.
  intros Hne. unfold np_mean. rewrite !len_map.
  rewrite rsum_map_plus, rsum_map_scale, rsum_map_const.
  assert (0 < INR (length l))
    by (destruct l; [congruence | apply lt_0_INR; simpl; lia]).
  field. lra.
Qed.

Lemma scd_affine {A} (f : A -> R) l a b :
  l <> [] ->
  scd (map f l) (map (fun r => a * f r + b) l) = a * ssd (map f l).
Proof.
  intros Hne. rewrite scd_map, ssd_map, np_mean_affine by auto.
  rewrite <- rsum_map_scale. apply rsum_map_ext. intros. lra.
Qed.


Lemma not_tied_ssd x : ~ all_tied x -> ssd x <> 0 /\ (2 <= length x)%nat.
Proof.
  intros Hnt. split.
  - intros E. apply Hnt. destruct x as [|v t]; [intros a b []|].
    apply (ss_tot_zero_iff (v :: t)); [discriminate | exact E].
  - destruct x as [|v [|w t]]; simpl; try lia; exfalso; apply Hnt.
    + intros a b [].
    + intros a b [<-|[]] [<-|[]]. reflexivity.
Qed.

(** The residuals of the least-squares line balance out. *)
Lemma residuals_map {A} (f g : A -> R) l fit :
  salary_residuals fit (map f l) (map g l)
  = map (fun a => g a - (fst fit * f a + snd fit)) l.
Proof.
  unfold salary_residuals. rewrite combine_map, map_map. reflexivity.
Qed.

Lemma residuals_normal_equations {A} (f g : A -> R) l lstsq :
  ssd (map f l) <> 0 -> l <> [] ->
  let e := salary_residuals (polyfit1 lstsq (map f l) (map g l))
                            (map f l) (map g l) in
  rsum e = 0 /\ rsum (mul_arrays (map f l) e) = 0.
Proof.
  intros Hx Hne e. unfold e.
  rewrite polyfit1_full_rank by exact Hx. rewrite residuals_map. cbn [fst snd].
  set (m := scd (map f l) (map g l) / ssd (map f l)).
  set (xm := np_mean (map f l)). set (ym := np_mean (map g l)).
  assert (Hn : 0 < INR (length l))
    by (destruct l; [congruence | apply lt_0_INR; simpl; lia]).
  assert (Hsum : rsum (map (fun a => g a - (m * f a + (ym - m * xm))) l) = 0).
  { rewrite (rsum_map_ext _ (fun a => g a + (f a * (- m) + (m * xm - ym))))
      by (intros; lra).
    rewrite rsum_map_plus, rsum_map_plus, rsum_map_scale_r, rsum_map_const.
    rewrite (rsum_mean f), (rsum_mean g) by auto. fold xm ym. lra. }
  split; [exact Hsum|].
  rewrite mul_arrays_map.
  rewrite (rsum_map_ext _
             (fun a => 1 * ((f a - xm) * (g a - ym))
                       + ((1 * ((f a - xm) * (f a - xm))) * (- m)
                          + (g a - (m * f a + (ym - m * xm))) * xm)))
    by (intros; lra).
  rewrite rsum_map_plus, rsum_map_plus, !rsum_map_scale_r, Hsum.
  unfold xm, ym. rewrite <- scd_map, <- ssd_map. unfold m. field. exact Hx.
Qed.

Lemma rsum_negative l : l <> [] -> (forall v, In v l -> v < 0) -> rsum l < 0.
Proof.
  induction l as [|a l IH]; intros Hne H; [congruence|].
  rewrite rsum_cons. pose proof (H a (or_introl eq_refl)).
  destruct l as [|b t].
  - unfold rsum. simpl. lra.
  - assert (rsum (b :: t) < 0) by (apply IH; [discriminate | intros; apply H; now right]).
    lra.
Qed.

(** Bounds of an array. *)
Lemma fold_min_le v vs u : In u (v :: vs) -> fold_right Rmin v vs <= u.
Proof.
  induction vs as [|w vs IH]; simpl.
  - intros [<-|[]]. lra.
  - intros [<-|[<-|H]].
    + eapply Rle_trans; [apply Rmin_r|]. apply IH. now left.
    + apply Rmin_l.
    + eapply Rle_trans; [apply Rmin_r|]. apply IH. now right.
Qed.

Lemma fold_max_ge v vs u : In u (v :: vs) -> u <= fold_right Rmax v vs.
Proof.
  induction vs as [|w vs IH]; simpl.
  - intros [<-|[]]. lra.
  - intros [<-|[<-|H]].
    + eapply Rle_trans; [|apply Rmax_r]. apply IH. now left.
    + apply Rmax_l.
    + eapply Rle_trans; [|apply Rmax_r]. apply IH. now right.
Qed.

Lemma fold_min_In v vs : In (fold_right Rmin v vs) (v :: vs).
Proof.
  induction vs as [|w vs IH]; simpl; [now left|].
  destruct (Rle_dec w (fold_right Rmin v vs)).
  - rewrite Rmin_left by auto. right. now left.
  - rewrite Rmin_right by lra.
    destruct IH as [H|H]; [now left | right; now right].
Qed.

Lemma fold_max_In v vs : In (fold_right Rmax v vs) (v :: vs).
Proof.
  induction vs as [|w vs IH]; simpl; [now left|].
  destruct (Rle_dec w (fold_right Rmax v vs)).
  - rewrite Rmax_right by auto.
    destruct IH as [H|H]; [now left | right; now right].
  - rewrite Rmax_left by lra. right. now left.
Qed.

Lemma array_bounds values u :
  In u values -> array_min values <= u <= array_max values.
Proof.
  destruct values as [|v vs]; [intros []|]. intros H. split.
  - now apply fold_min_le.
  - now apply fold_max_ge.
Qed.

Lemma array_min_In values : values <> [] -> In (array_min values) values.
Proof. destruct values; [congruence|]. intros _. apply fold_min_In. Qed.

Lemma array_max_In values : values <> [] -> In (array_max values) values.
Proof. destruct values; [congruence|]. intros _. apply fold_max_In. Qed.

(** The two orders of [nlargest] and [nsmallest]. *)
Lemma desc_total {A} (col : A -> R) a b :
  Rleb (col b) (col a) = true \/ Rleb (col a) (col b) = true.
Proof. rewrite !Rleb_true. lra. Qed.

Lemma desc_trans {A} (col : A -> R) a b c :
  Rleb (col b) (col a) = true -> Rleb (col c) (col b) = true ->
  Rleb (col c) (col a) = true.
Proof. rewrite !Rleb_true. lra. Qed.

Lemma asc_total {A} (col : A -> R) a b :
  Rleb (col a) (col b) = true \/ Rleb (col b) (col a) = true.
Proof. rewrite !Rleb_true. lra. Qed.

Lemma asc_trans {A} (col : A -> R) a b c :
  Rleb (col a) (col b) = true -> Rleb (col b) (col c) = true ->
  Rleb (col a) (col c) = true.
Proof. rewrite !Rleb_true. lra. Qed.

Lemma nlargest_head {A} (col : A -> R) n l a rest :
  nlargest n col l = a :: rest ->
  In a l /\ forall b, In b l -> col b <= col a.
Proof.
  intros E. unfold nlargest in E.
  apply (sorted_head_leads (fun a b => Rleb (col b) (col a))) in E
    as [Hin Hall].
  - split; auto. intros b Hb. apply Rleb_true. auto.
  - intros x y. apply desc_total.
  - intros x y z. apply desc_trans.
Qed.

Lemma nsmallest_head {A} (col : A -> R) n l a rest :
  nsmallest n col l = a :: rest ->
  In a l /\ forall b, In b l -> col a <= col b.
Proof.
  intros E. unfold nsmallest in E.
  apply (sorted_head_leads (fun a b => Rleb (col a) (col b))) in E
    as [Hin Hall].
  - split; auto. intros b Hb. apply Rleb_true. auto.
  - intros x y. apply asc_total.
  - intros x y z. apply asc_trans.
Qed.

Lemma nlargest_length {A} (col : A -> R) n l :
  length (nlargest n col l) = Nat.min (Z.to_nat n) (length l).
Proof.
  unfold nlargest. rewrite length_firstn.
  now rewrite <- (Permutation_length (sort_by_perm _ l)).
Qed.

Lemma nsmallest_length {A} (col : A -> R) n l :
  length (nsmallest n col l) = Nat.min (Z.to_nat n) (length l).
Proof.
  unfold nsmallest. rewrite length_firstn.
  now rewrite <- (Permutation_length (sort_by_perm _ l)).
Qed.

Lemma residuals_length fit x y :
  length x = length y -> length (salary_residuals fit x y) = length x.
Proof.
  intros H. unfold salary_residuals. rewrite length_map, length_combine. lia.
Qed.

End TradeoffStatisticsFacts.

(** ** The statistics of the tradeoff analysis *)

Module TradeoffStatisticsTheorems.
Import Frame FrameFacts Np NpFacts.
Import EmploymentSalaryTradeoff EmploymentSalaryTradeoffFacts TradeoffSamples.
Import FrameListFacts EmploymentSalaryTradeoffReport TradeoffStatisticsFacts.


(** The weighted correlation in exact arithmetic: when one is reported
    it lies between -1 and 1, and none is reported for a summary of fewer
    than two categories or one whose sample sizes are all zero.  The code
    does not clip the quotient, so its float64 value can leave that range:
    see [TradeoffBinary64Theorems]. *)
Theorem weighted_correlation_is_a_coefficient :
  forall lstsq df min_sample_size add_trendline,
    let res := employment_salary_tradeoff lstsq df min_sample_size
                 add_trendline in
    (forall r, correlation_weighted res = Some r -> -1 <= r <= 1) /\
    ((length (summary res) < 2)%nat -> correlation_weighted res = None) /\
    ((forall g, In g (summary res) -> sample_size (srow g) = 0%nat) ->
     correlation_weighted res = None).
Proof.
  intros lstsq df mss add res.
  destruct (summary_parts lstsq df mss add) as (Hs & _ & Hc & _ & _ & Hlen).
  fold res in Hs, Hc, Hlen.
  set (rows := sort_by by_salary_desc
                 (filter_min_sample_size mss (aggregate (dropna df)))) in *.
  rewrite Hc, Hlen. unfold weighted_correlation.
  split; [|split].
  - intros r. destruct (2 <=? length rows)%nat; [|discriminate].
    apply weighted_pearson_range. intros a _. apply pos_INR.
  - intros Hlt. destruct (Nat.leb_spec 2 (length rows)); [lia | reflexivity].
  - intros Hzero. destruct (2 <=? length rows)%nat; [|reflexivity].
    unfold weighted_pearson.
    rewrite (rsum_map_ext _ (fun _ => 0)), rsum_map_const.
    + destruct (Rlt_dec 0 (INR (length rows) * 0)); [lra | reflexivity].
    + intros a Ha.
      assert (Hin : In a (map srow (summary res)))
        by (rewrite Hs, quadrants_srow; exact Ha).
      apply in_map_iff in Hin as (g & <- & Hg). now rewrite (Hzero g Hg).
Qed.



(** X10. The summary is sorted by average median salary, highest first,
    and lists each category once; with a positive [min_sample_size] every
    category has at least that sample size; the sample sizes add up to at
    most [rows_used], and so does the number of categories. *)
Theorem summary_sorted_distinct_categories :
  forall lstsq df min_sample_size add_trendline,
    let res := employment_salary_tradeoff lstsq df min_sample_size
                 add_trendline in
    let rows := map srow (summary res) in
    StronglySorted (fun a b => avg_median_salary b <= avg_median_salary a)
                   rows /\
    NoDup (map s_course_category rows) /\
    (forall g, In g rows -> (0 < min_sample_size)%Z ->
       (min_sample_size <= Z.of_nat (sample_size g))%Z) /\
    (list_sum (map sample_size rows) <= rows_used res)%nat /\
    (length rows <= rows_used res)%nat.
Proof.
  intros lstsq df mss add res rows.
  assert (Hrows : rows = sort_by by_salary_desc
                    (filter_min_sample_size mss (aggregate (dropna df))))
    by apply summary_srow.
  destruct (summary_parts lstsq df mss add) as (_ & _ & _ & _ & Hused & _).
  fold res in Hused. rewrite Hused, Hrows.
  set (clean := dropna df).
  set (kept := filter_min_sample_size mss (aggregate clean)).
  assert (Hperm : Permutation kept (sort_by by_salary_desc kept))
    by apply sort_by_perm.
  assert (Hnd : NoDup (map s_course_category kept)).
  { unfold kept, filter_min_sample_size.
    destruct (0 <? mss)%Z; [apply NoDup_map_filter|];
      rewrite aggregate_categories; apply group_keys_NoDup. }
  assert (Hlen : (length kept <= length (aggregate clean))%nat).
  { unfold kept, filter_min_sample_size.
    destruct (0 <? mss)%Z; [apply filter_length_le | lia]. }
  split; [apply summary_sorted|]. split; [|split; [|split]].
  - eapply Permutation_NoDup; [apply Permutation_map; exact Hperm | exact Hnd].
  - intros g Hg Hpos. apply sort_by_In in Hg. unfold kept in Hg.
    unfold filter_min_sample_size in Hg.
    apply Z.ltb_lt in Hpos. rewrite Hpos in Hg.
    apply filter_In in Hg as [_ Hg]. now apply Z.leb_le.
  - rewrite <- (list_sum_perm _ _ (Permutation_map sample_size Hperm)).
    eapply Nat.le_trans; [|apply aggregate_sample_sizes].
    unfold kept, filter_min_sample_size.
    destruct (0 <? mss)%Z; [apply list_sum_filter_le | lia].
  - rewrite <- (Permutation_length Hperm).
    eapply Nat.le_trans; [exact Hlen|].
    rewrite <- (length_map s_course_category), aggregate_categories.
    rewrite <- (length_map category clean).
    apply NoDup_incl_length; [apply group_keys_NoDup|].
    intros k Hk. now apply group_keys_In in Hk.
Qed.

(** X11. The "High" salary labels lead the summary: a category listed
    before a "High" salary one is itself "High", and the first category is
    always "High" in salary; a category whose average employment rate is
    the largest of the summary is always "High" in employment. *)
Theorem high_salary_rows_lead :
  forall lstsq df min_sample_size add_trendline,
    let rows := summary (employment_salary_tradeoff lstsq df min_sample_size
                           add_trendline) in
    StronglySorted
      (fun a b => salary_level b = "High"%string ->
                  salary_level a = "High"%string) rows /\
    (forall g rest, rows = g :: rest -> salary_level g = "High"%string) /\
    (forall g, In g rows ->
       (forall h, In h rows ->
          avg_employment_rate (srow h) <= avg_employment_rate (srow g)) ->
       employment_level g = "High"%string).
Proof.
  intros lstsq df mss add rows.
  destruct (summary_parts lstsq df mss add) as (Hs & _).
  fold rows in Hs. rewrite Hs.
  set (rows0 := sort_by by_salary_desc
                  (filter_min_sample_size mss (aggregate (dropna df)))).
  pose proof (summary_sorted (filter_min_sample_size mss (aggregate (dropna df))))
    as Hsorted. fold rows0 in Hsorted.
  unfold quadrants.
  set (smed := median (map avg_median_salary rows0)).
  set (emed := median (map avg_employment_rate rows0)).
  split; [|split].
  - apply (StronglySorted_map_in
             (fun a b => avg_median_salary b <= avg_median_salary a)); auto.
    intros a b _ _ Hab. cbn [salary_level]. rewrite !level_high_iff. lra.
  - intros g rest E. destruct rows0 as [|g0 rest0] eqn:E0; [discriminate|].
    injection E as <- _. cbn [salary_level]. apply level_high_iff.
    unfold smed. apply median_le_max; [discriminate|].
    inversion Hsorted as [|? ? _ Hall]; subst. rewrite Forall_forall in Hall.
    intros u Hu. apply in_map_iff in Hu as (h & <- & [<-|Hh]); [lra | auto].
  - intros g Hg Hmax. apply in_map_iff in Hg as (g0 & <- & Hg0).
    cbn [employment_level]. apply level_high_iff.
    unfold emed. apply median_le_max.
    + destruct rows0; [destruct Hg0 | discriminate].
    + intros u Hu. apply in_map_iff in Hu as (h0 & <- & Hh0).
      specialize (Hmax _ (in_map _ _ _ Hh0)). exact Hmax.
Qed.



(** X13. With [size_min <= size_max] the bubble areas of [_scale_sizes]
    lie between the two bounds, one per value; each is what [_scale_value]
    gives the legend for the same value; and when the values are not all
    the same the smallest one maps to [size_min], the largest to
    [size_max], and a larger value never gets a smaller bubble. *)
Theorem bubble_sizes_within_bounds :
  forall values size_min size_max,
    size_min <= size_max ->
    let sizes := _scale_sizes values size_min size_max in
    let legend v :=
      _scale_value v (array_min values) (array_max values) size_min size_max in
    length sizes = length values /\
    (forall s, In s sizes -> size_min <= s <= size_max) /\
    sizes = map legend values /\
    (array_min values <> array_max values ->
       legend (array_min values) = size_min /\
       legend (array_max values) = size_max /\
       forall u v, u <= v -> legend u <= legend v).
Proof.
  intros values smin smax Hle sizes legend.
  unfold sizes, legend, _scale_sizes, _scale_value.
  set (vmin := array_min values). set (vmax := array_max values).
  destruct (Req_dec_T vmin vmax) as [E|Hne].
  - rewrite length_map. split; [reflexivity|]. split; [|split].
    + intros s Hs. apply in_map_iff in Hs as (v & <- & _). lra.
    + reflexivity.
    + contradiction.
  - rewrite length_map.
    assert (Hval : values <> []).
    { intros Ev. apply Hne. unfold vmin, vmax. now rewrite Ev. }
    assert (Hd : 0 < vmax - vmin).
    { pose proof (array_bounds values _ (array_min_In values Hval)) as [_ H].
      fold vmin vmax in H. lra. }
    assert (Hinv : 0 < / (vmax - vmin)) by now apply Rinv_0_lt_compat.
    assert (Hscale : forall v,
              smin + (v - vmin) * (smax - smin) / (vmax - vmin)
              = smin + (v - vmin) * ((smax - smin) * / (vmax - vmin)))
      by (intros; unfold Rdiv; ring).
    assert (Hk : 0 <= (smax - smin) * / (vmax - vmin))
      by (apply Rmult_le_pos; lra).
    assert (Hone : (vmax - vmin) * ((smax - smin) * / (vmax - vmin))
                   = smax - smin) by (field; lra).
    split; [reflexivity|]. split; [|split; [reflexivity|]].
    + intros s Hs. apply in_map_iff in Hs as (v & <- & Hv).
      apply array_bounds in Hv. fold vmin vmax in Hv. rewrite Hscale.
      split; [nra|].
      assert ((v - vmin) * ((smax - smin) * / (vmax - vmin))
              <= (vmax - vmin) * ((smax - smin) * / (vmax - vmin)))
        by (apply Rmult_le_compat_r; lra).
      lra.
    + intros _. rewrite !Hscale. split; [ring|]. split; [lra|].
      intros u v Huv.
      assert ((u - vmin) * ((smax - smin) * / (vmax - vmin))
              <= (v - vmin) * ((smax - smin) * / (vmax - vmin)))
        by (apply Rmult_le_compat_r; lra).
      lra.
Qed.

Lemma bubble_sizes_within_bounds_witness :
  60 <= 900 /\
  _scale_sizes [20; 30; 50] 60 900
  = map (fun v => _scale_value v (array_min [20; 30; 50])
                               (array_max [20; 30; 50]) 60 900)
        [20; 30; 50].
Proof.
  assert (H : 60 <= 900) by lra. split; [exact H|].
  exact (proj1 (proj2 (proj2
           (bubble_sizes_within_bounds [20; 30; 50] 60 900 H)))).
Defined.

(** X14. When the employment averages of the summary are not all the
    same, the salary residuals of the fitted line add up to zero and are
    orthogonal to the employment averages; so the first row of
    [positive_tradeoff] never has a negative residual and the first row of
    [negative_tradeoff] never a positive one. *)
Theorem residuals_balance :
  forall lstsq df min_sample_size top_n,
    let res := employment_salary_tradeoff lstsq df min_sample_size true in
    let x := map (fun g => avg_employment_rate (srow g)) (summary res) in
    let y := map (fun g => avg_median_salary (srow g)) (summary res) in
    let e := salary_residuals (polyfit1 lstsq x y) x y in
    let rk := tradeoff_rankings lstsq df min_sample_size top_n in
    ~ all_tied x ->
    rsum e = 0 /\ rsum (mul_arrays x e) = 0 /\
    (forall g r rest, positive_tradeoff rk = (g, r) :: rest ->
       exists v, r = Some v /\ 0 <= v) /\
    (forall g r rest, negative_tradeoff rk = (g, r) :: rest ->
       exists v, r = Some v /\ v <= 0).
Proof.
  intros lstsq df mss top_n res x y e rk Hnt.
  apply not_tied_ssd in Hnt as [Hx Hlen].
  set (S := summary res) in *.
  assert (HlenS : (2 <= length S)%nat) by (unfold x in Hlen; now rewrite length_map in Hlen).
  assert (Hne : S <> []) by (destruct S; [simpl in HlenS; lia | discriminate]).
  destruct (residuals_normal_equations
              (fun g => avg_employment_rate (srow g))
              (fun g => avg_median_salary (srow g)) S lstsq Hx Hne)
    as [Hsum Horth].
  fold x y e in Hsum, Horth.
  assert (He : length S = length e).
  { unfold e. rewrite residuals_length; unfold x, y; now rewrite !length_map. }
  assert (Hsnd : map snd (combine S e) = e) by now apply combine_map_snd.
  assert (Hrk : rk = mk_rankings
                  (nlargest top_n (fun g => avg_median_salary (srow g)) S)
                  (nlargest top_n (fun g => avg_employment_rate (srow g)) S)
                  (map (fun p => (fst p, Some (snd p)))
                       (nlargest top_n snd (combine S e)))
                  (map (fun p => (fst p, Some (snd p)))
                       (nsmallest top_n snd (combine S e)))).
  { unfold rk, tradeoff_rankings, rank_categories. fold res. fold S.
    destruct (Nat.leb_spec 2 (length S)); [reflexivity | lia]. }
  assert (Hee : e <> []).
  { intros E. rewrite E in He. simpl in He. lia. }
  split; [exact Hsum|]. split; [exact Horth|]. rewrite Hrk.
  cbn [positive_tradeoff negative_tradeoff]. split.
  - intros g r rest E.
    destruct (nlargest top_n snd (combine S e)) as [|p ps] eqn:Etop;
      [discriminate|].
    injection E as _ <- _. exists (snd p). split; [reflexivity|].
    apply nlargest_head in Etop as [_ Hmax].
    destruct (Rle_dec 0 (snd p)) as [|Hneg]; auto. exfalso.
    assert (rsum e < 0); [|lra].
    apply rsum_negative; auto. intros v Hv. rewrite <- Hsnd in Hv.
    apply in_map_iff in Hv as (q & <- & Hq). specialize (Hmax q Hq). lra.
  - intros g r rest E.
    destruct (nsmallest top_n snd (combine S e)) as [|p ps] eqn:Etop;
      [discriminate|].
    injection E as _ <- _. exists (snd p). split; [reflexivity|].
    apply nsmallest_head in Etop as [_ Hmin].
    destruct (Rle_dec (snd p) 0) as [|Hpos]; auto. exfalso.
    assert (rsum (map Ropp e) < 0).
    { apply rsum_negative.
      - destruct e; [congruence | discriminate].
      - intros v Hv. apply in_map_iff in Hv as (u & <- & Hu).
        rewrite <- Hsnd in Hu. apply in_map_iff in Hu as (q & <- & Hq).
        specialize (Hmin q Hq). lra. }
    rewrite (rsum_map_ext _ (fun v => (-1) * v)) in H by (intros; lra).
    rewrite rsum_scale in H. lra.
Qed.

Lemma residuals_balance_witness :
  rsum (salary_residuals
          (polyfit1 flat_fit
             (map (fun g => avg_employment_rate (srow g))
                  (summary (employment_salary_tradeoff flat_fit two_categories
                              1 true)))
             (map (fun g => avg_median_salary (srow g))
                  (summary (employment_salary_tradeoff flat_fit two_categories
                              1 true))))
          (map (fun g => avg_employment_rate (srow g))
               (summary (employment_salary_tradeoff flat_fit two_categories
                           1 true)))
          (map (fun g => avg_median_salary (srow g))
               (summary (employment_salary_tradeoff flat_fit two_categories
                           1 true))))
  = 0.
Proof.
  refine (proj1 (residuals_balance flat_fit two_categories 1 5 _)).
  rewrite <- (map_map srow avg_employment_rate).
  rewrite summary_srow, two_categories_summary.
  cbn [map avg_employment_rate]. intros H.
  assert (80 = 90) by (apply H; simpl; auto). lra.
Defined.

(** X15. The ranking tables follow the summary: [top_salary] is its first
    [top_n] rows; [top_employment] holds [top_n] of its rows, or all of
    them when fewer exist, in descending order of employment rate, and no
    row left out has a higher rate than a row listed; with fewer than two
    categories both tradeoff tables are the whole summary, whatever
    [top_n] is, and otherwise each holds [top_n] rows or all of them. *)
Theorem rankings_follow_summary :
  forall lstsq df min_sample_size top_n,
    let rows := summary (employment_salary_tradeoff lstsq df min_sample_size
                           true) in
    let rk := tradeoff_rankings lstsq df min_sample_size top_n in
    let n := Z.to_nat top_n in
    let rate g := avg_employment_rate (srow g) in
    top_salary rk = firstn n rows /\
    length (top_employment rk) = Nat.min n (length rows) /\
    (forall g, In g (top_employment rk) -> In g rows) /\
    StronglySorted (fun a b => rate b <= rate a) (top_employment rk) /\
    (forall g h, In g (top_employment rk) -> In h rows ->
       ~ In h (top_employment rk) -> rate h <= rate g) /\
    ((length rows < 2)%nat ->
       positive_tradeoff rk = map (fun g => (g, None)) rows /\
       negative_tradeoff rk = map (fun g => (g, None)) rows) /\
    ((2 <= length rows)%nat ->
       length (positive_tradeoff rk) = Nat.min n (length rows) /\
       length (negative_tradeoff rk) = Nat.min n (length rows)).
Proof.
  intros lstsq df mss top_n rows rk n rate.
  assert (Htop_s : top_salary rk
                   = nlargest top_n (fun g => avg_median_salary (srow g)) rows).
  { unfold rk, tradeoff_rankings, rank_categories. fold rows.
    now destruct (2 <=? length rows)%nat. }
  assert (Htop_e : top_employment rk
                   = firstn n (sort_by (fun a b => Rleb (rate b) (rate a))
                                       rows)).
  { unfold rk, tradeoff_rankings, rank_categories. fold rows.
    now destruct (2 <=? length rows)%nat. }
  destruct (top_of_sorted (fun a b => Rleb (rate b) (rate a))
              (fun a b => desc_total rate a b)
              (fun a b c => desc_trans rate a b c) rows n)
    as (Hlen & Hin & Hsorted & Hcross).
  cbv zeta in Hlen, Hin, Hsorted, Hcross.
  rewrite <- Htop_e in Hlen, Hin, Hsorted, Hcross.
  split; [|split; [|split; [|split; [|split; [|split]]]]]; auto.
  - rewrite Htop_s. unfold nlargest. f_equal.
    apply sort_by_sorted_id.
    destruct (summary_parts lstsq df mss true) as (Hs & _).
    fold rows in Hs. rewrite Hs. unfold quadrants.
    apply (StronglySorted_map_in
             (fun a b => avg_median_salary b <= avg_median_salary a)).
    + intros a b _ _ Hab. cbn [srow]. now apply Rleb_true.
    + apply summary_sorted.
  - apply (StronglySorted_impl (fun a b => Rleb (rate b) (rate a) = true));
      auto.
    intros a b. apply Rleb_true.
  - intros g h Hg Hh Hnot. apply Rleb_true. auto.
  - intros Hlt. unfold rk, tradeoff_rankings, rank_categories. fold rows.
    destruct (Nat.leb_spec 2 (length rows)); [lia|]. split; reflexivity.
  - intros Hge. unfold rk, tradeoff_rankings, rank_categories. fold rows.
    destruct (Nat.leb_spec 2 (length rows)); [|lia].
    cbn [positive_tradeoff negative_tradeoff].
    rewrite !length_map, nlargest_length, nsmallest_length, length_combine.
    rewrite residuals_length by now rewrite !length_map.
    rewrite length_map. fold n. lia.
Qed.

End TradeoffStatisticsTheorems.

(** ** Facts about the bump chart data and the course trends *)

Module RelativePerformanceReportFacts.
Import Frame FrameFacts Np NpFacts.
Import RelativePerformanceIndex RelativePerformanceIndexFacts.
Import EmploymentSalaryTradeoff EmploymentSalaryTradeoffFacts.
Import FrameListFacts RelativePerformanceReport TradeoffStatisticsFacts.

(** What [select_focus_groups] returns without an explicit focus list. *)
Lemma select_focus_none tbl top_k min_years :
  let out := select_focus_groups tbl top_k min_years None in
  NoDup out /\
  (forall g, In g out ->
     In g (map s_group tbl) /\
     (min_years <= Z.of_nat (periods_present tbl g))%Z) /\
  ((0 <= top_k)%Z -> (Z.of_nat (length out) <= top_k)%Z).
Proof.
  intros out.
  set (elig := filter (fun r => (min_years <=? Z.of_nat (years r))%Z)
                      (focus_stats tbl)).
  set (sorted := sort_by by_avg_z_years elig).
  assert (Hout : out = map f_group (head top_k sorted)) by reflexivity.
  destruct (head_prefix top_k sorted) as (rest & Hsplit).
  assert (Hnd : NoDup (map f_group sorted)).
  { eapply Permutation_NoDup.
    - apply Permutation_map. apply sort_by_perm.
    - unfold elig. rewrite eligible_stats.
      apply NoDup_filter, group_keys_NoDup. }
  split; [|split].
  - rewrite Hout. rewrite Hsplit, map_app in Hnd.
    now apply NoDup_app_remove_r in Hnd.
  - intros g Hg. rewrite Hout in Hg. apply in_map_iff in Hg as (r & <- & Hr).
    assert (Hs : In r sorted) by (rewrite Hsplit; apply in_or_app; now left).
    apply sort_by_In in Hs. apply eligible_stats_In in Hs. tauto.
  - intros Hk. rewrite Hout, length_map, head_length by auto. lia.
Qed.

Lemma score_rows_of_group table g :
  rows_of_group (map score_of table) g = map score_of (course_rows table g).
Proof.
  unfold rows_of_group, course_rows. now rewrite filter_map_comm.
Qed.

Lemma periods_present_course table g :
  periods_present (map score_of table) g = course_years table g.
Proof.
  unfold periods_present, course_years.
  now rewrite score_rows_of_group, map_map.
Qed.

Lemma by_year_rank_group_true a b :
  by_year_rank_group a b = true <->
  (c_year a < c_year b)%Z \/
  (c_year a = c_year b /\
   ((c_rank a < c_rank b)%Z \/
    (c_rank a = c_rank b /\ String.leb (c_course a) (c_course b) = true))).
Proof.
  unfold by_year_rank_group.
  rewrite orb_true_iff, andb_true_iff, orb_true_iff, andb_true_iff.
  rewrite !Z.ltb_lt, !Z.eqb_eq. tauto.
Qed.

Lemma ascii_compare_refl a : Ascii.compare a a = Eq.
Proof. unfold Ascii.compare. apply N.compare_refl. Qed.

Lemma string_compare_refl s : String.compare s s = Eq.
Proof.
  induction s as [|x s IH]; simpl; auto. now rewrite ascii_compare_refl.
Qed.

Lemma string_compare_lt_trans a b c :
  String.compare a b = Lt -> String.compare b c = Lt ->
  String.compare a c = Lt.
Proof.
  revert b c. induction a as [|x a IH]; intros [|y b] [|z c];
    simpl; try discriminate; auto.
  destruct (Ascii.compare x y) eqn:Exy; try discriminate;
    destruct (Ascii.compare y z) eqn:Eyz; try discriminate; intros H1 H2.
  - apply Ascii.compare_eq_iff in Exy, Eyz. subst.
    rewrite ascii_compare_refl. eauto.
  - apply Ascii.compare_eq_iff in Exy. subst. now rewrite Eyz.
  - apply Ascii.compare_eq_iff in Eyz. subst. now rewrite Exy.
  - assert (Ascii.compare x z = Lt) as ->; auto.
    unfold Ascii.compare in *. rewrite N.compare_lt_iff in *. lia.
Qed.

Lemma string_leb_trans a b c :
  String.leb a b = true -> String.leb b c = true -> String.leb a c = true.
Proof.
  unfold String.leb.
  destruct (String.compare a b) eqn:E1; try discriminate;
    destruct (String.compare b c) eqn:E2; try discriminate; intros _ _.
  - apply String.compare_eq_iff in E1, E2. subst.
    now rewrite string_compare_refl.
  - apply String.compare_eq_iff in E1. subst. now rewrite E2.
  - apply String.compare_eq_iff in E2. subst. now rewrite E1.
  - now rewrite (string_compare_lt_trans a b c).
Qed.

Lemma by_year_rank_group_total a b :
  by_year_rank_group a b = true \/ by_year_rank_group b a = true.
Proof.
  rewrite !by_year_rank_group_true.
  destruct (Z.lt_trichotomy (c_year a) (c_year b)) as [Hy|[Hy|Hy]];
    [left; left; exact Hy | | right; left; exact Hy].
  destruct (Z.lt_trichotomy (c_rank a) (c_rank b)) as [Hr|[Hr|Hr]].
  - left. right. split; [exact Hy|]. left. exact Hr.
  - destruct (String.leb_total (c_course a) (c_course b)) as [Hs|Hs].
    + left. right. split; [exact Hy|]. right. split; assumption.
    + right. right. split; [now symmetry|]. right. split; [now symmetry | assumption].
  - right. right. split; [now symmetry|]. left. exact Hr.
Qed.

Lemma by_year_rank_group_trans a b c :
  by_year_rank_group a b = true -> by_year_rank_group b c = true ->
  by_year_rank_group a c = true.
Proof.
  rewrite !by_year_rank_group_true.
  intros [H1|[H1 [H1'|[H1' H1'']]]] [H2|[H2 [H2'|[H2' H2'']]]];
    try (left; lia);
    try (right; split; [lia|]; left; lia).
  right. split; [lia|]. right. split; [lia|].
  eapply string_leb_trans; eauto.
Qed.

Lemma bump_In table focus_groups top_k min_years r :
  In r (build_bump_chart_data table focus_groups top_k min_years) <->
  In r table /\
  In (c_course r)
     (select_focus_groups (map score_of table) top_k min_years focus_groups).
Proof.
  unfold build_bump_chart_data. rewrite sort_by_In, filter_In.
  destruct (in_dec string_dec (c_course r) _); split; intros [H1 H2];
    split; auto; discriminate.
Qed.

Lemma course_rows_bump table focus_groups top_k min_years g :
  In g (select_focus_groups (map score_of table) top_k min_years focus_groups) ->
  Permutation
    (course_rows (build_bump_chart_data table focus_groups top_k min_years) g)
    (course_rows table g).
Proof.
  intros Hg. unfold course_rows, build_bump_chart_data.
  rewrite (filter_perm _ _ _ (Permutation_sym (sort_by_perm _ _))).
  rewrite filter_filter_implied; auto.
  intros a _ Ha. apply String.eqb_eq in Ha. rewrite Ha.
  destruct (in_dec string_dec g _); [reflexivity | contradiction].
Qed.

(** The groups of [table.groupby("course")] and their rows. *)
Lemma members_course_rows table g :
  members string_dec c_course g table = course_rows table g.
Proof.
  unfold members, course_rows. apply filter_ext. intros r.
  destruct (string_dec (c_course r) g) as [->|Hn].
  - now rewrite String.eqb_refl.
  - symmetry. now apply String.eqb_neq.
Qed.

Lemma course_years_sorted table g leb :
  length (nodup Z.eq_dec (map c_year (sort_by leb (course_rows table g))))
  = course_years table g.
Proof.
  unfold course_years. apply nodup_length_perm, Permutation_map.
  symmetry. apply sort_by_perm.
Qed.

Lemma years_distinct_ssd (l : list course_row) :
  (2 <= length (nodup Z.eq_dec (map c_year l)))%nat ->
  ssd (map (fun r => IZR (c_year r)) l) <> 0.
Proof.
  intros Hlen E.
  assert (Hle : (length (nodup Z.eq_dec (map c_year l)) <= 1)%nat); [|lia].
  apply NoDup_all_equal; [apply NoDup_nodup|].
  intros a b Ha Hb. apply nodup_In in Ha, Hb.
  apply in_map_iff in Ha as (ra & <- & Hra).
  apply in_map_iff in Hb as (rb & <- & Hrb).
  apply eq_IZR.
  rewrite (ssd_zero _ (IZR (c_year ra)) E), (ssd_zero _ (IZR (c_year rb)) E);
    auto; apply in_map_iff; eauto.
Qed.

Lemma scd_map_perm {A} (f g : A -> R) l1 l2 :
  Permutation l1 l2 ->
  scd (map f l1) (map g l1) = scd (map f l2) (map g l2).
Proof.
  intros H. rewrite !scd_map.
  rewrite (np_mean_perm _ _ (Permutation_map f H)).
  rewrite (np_mean_perm _ _ (Permutation_map g H)).
  apply rsum_perm. now apply Permutation_map.
Qed.

Lemma course_slopes_eq lstsq table :
  course_slopes lstsq table
  = map (slope_of lstsq table)
        (filter (fun g => negb (course_years table g <? 2)%nat)
                (group_keys string_dec String.leb c_course table)).
Proof.
  unfold course_slopes, groupby.
  rewrite flat_map_concat_map, map_map, <- flat_map_concat_map.
  apply flat_map_filter_map. intros g. cbn [fst snd].
  rewrite members_course_rows, course_years_sorted. unfold slope_of.
  destruct (course_years table g <? 2)%nat; reflexivity.
Qed.

Lemma slope_of_value lstsq table g :
  (2 <= course_years table g)%nat ->
  let rows := course_rows table g in
  let x := map (fun r => IZR (c_year r)) rows in
  ssd x <> 0 /\
  z_score_slope_per_year (slope_of lstsq table g)
  = scd x (map c_z_score rows) / ssd x.
Proof.
  intros Hy rows x.
  assert (Hx : ssd x <> 0) by (apply years_distinct_ssd; exact Hy).
  split; [exact Hx|].
  unfold slope_of. cbn [z_score_slope_per_year].
  set (sub := sort_by _ (course_rows table g)).
  assert (Hperm : Permutation sub rows)
    by (symmetry; apply sort_by_perm).
  assert (Hsx : ssd (map (fun r => IZR (c_year r)) sub) = ssd x)
    by (apply ssd_perm, Permutation_map, Hperm).
  rewrite polyfit1_full_rank by (rewrite Hsx; exact Hx).
  cbn [fst]. rewrite Hsx. f_equal. now apply scd_map_perm.
Qed.

End RelativePerformanceReportFacts.

(** ** The bump chart data and the course trends *)

Module RelativePerformanceReportTheorems.
Import Frame FrameFacts Np NpFacts.
Import RelativePerformanceIndex RelativePerformanceIndexFacts.
Import EmploymentSalaryTradeoff EmploymentSalaryTradeoffFacts.
Import FrameListFacts RelativePerformanceReport TradeoffStatisticsFacts.
Import RelativePerformanceReportFacts.

(** X16. Without an explicit focus list the bump chart data shows at most
    [top_k] courses; each course shown keeps all its rows of the table, so
    it is seen in as many years as in the table, which is at least
    [min_years]; the rows come sorted by year, then rank, then course.
    With a non-empty focus list the data is the table rows of the listed
    courses, whatever [top_k] and [min_years] are. *)
Theorem bump_chart_keeps_focus_courses :
  forall table top_k min_years,
    let bump := build_bump_chart_data table None top_k min_years in
    let shown := nodup string_dec (map c_course bump) in
    ((0 <= top_k)%Z -> (Z.of_nat (length shown) <= top_k)%Z) /\
    (forall g, In g shown ->
       course_years bump g = course_years table g /\
       (min_years <= Z.of_nat (course_years bump g))%Z) /\
    (forall r, In r bump <-> In r table /\ In (c_course r) shown) /\
    StronglySorted
      (fun a b =>
         (c_year a < c_year b)%Z \/
         (c_year a = c_year b /\
          ((c_rank a < c_rank b)%Z \/
           (c_rank a = c_rank b /\
            String.leb (c_course a) (c_course b) = true))))
      bump /\
    (forall focus r, focus <> [] ->
       (In r (build_bump_chart_data table (Some focus) top_k min_years) <->
        In r table /\ In (c_course r) focus)).
Proof.
  intros table top_k min_years bump shown.
  set (focus := select_focus_groups (map score_of table) top_k min_years None).
  destruct (select_focus_none (map score_of table) top_k min_years)
    as (Hnd & Hfocus & Hlen).
  fold focus in Hnd, Hfocus, Hlen.
  assert (Hbump : forall r, In r bump <-> In r table /\ In (c_course r) focus)
    by (intros r; apply bump_In).
  assert (Hshown : forall g, In g shown <-> In g focus).
  { intros g. unfold shown. rewrite nodup_In, in_map_iff. split.
    - intros (r & <- & Hr). now apply Hbump in Hr.
    - intros Hg. destruct (Hfocus g Hg) as [Hin _].
      rewrite map_map in Hin. apply in_map_iff in Hin as (r & Hr & Hin).
      exists r. split; [exact Hr|]. apply Hbump. split; auto.
      cbn [score_of s_group] in Hr. now rewrite Hr. }
  split; [|split; [|split; [|split]]].
  - intros Hk. specialize (Hlen Hk).
    assert (length shown <= length focus)%nat; [|lia].
    apply NoDup_incl_length; [apply NoDup_nodup|].
    intros g Hg. now apply Hshown.
  - intros g Hg. apply Hshown in Hg.
    assert (Hy : course_years bump g = course_years table g).
    { unfold course_years. apply nodup_length_perm, Permutation_map.
      now apply course_rows_bump. }
    split; [exact Hy|]. rewrite Hy, <- periods_present_course.
    now apply Hfocus.
  - intros r. rewrite Hbump, Hshown. reflexivity.
  - apply (StronglySorted_impl (fun a b => by_year_rank_group a b = true)).
    + intros a b. apply by_year_rank_group_true.
    + unfold bump, build_bump_chart_data. apply sort_by_strongly_sorted.
      * apply by_year_rank_group_total.
      * apply by_year_rank_group_trans.
  - intros [|f fs] r Hne; [congruence|]. rewrite bump_In.
    unfold select_focus_groups. rewrite filter_In.
    split; intros [Hr Hc]; split; auto; try tauto.
    split; auto.
    destruct (in_dec string_dec (c_course r) (map s_group (map score_of table)))
      as [|Hn]; auto.
    exfalso. apply Hn. rewrite map_map. cbn [score_of s_group].
    now apply in_map.
Qed.

(** X17. The slopes table cannot be built, and the call ends in a
    [KeyError], exactly when no course of the table is seen in two distinct
    years.  Otherwise it lists, once each and by descending slope, the
    courses seen in at least two years; the slope of a course is the
    least-squares slope of its z-scores over its years, which is [a]
    whenever the z-scores lie on a line with slope [a]; none of this
    depends on what the solver does on a rank-deficient design. *)
Theorem course_slopes_least_squares :
  forall lstsq table,
    (slopes_table lstsq table = KeyError ["z_score_slope_per_year"%string] <->
     forall r, In r table -> (course_years table (c_course r) < 2)%nat) /\
    (forall names, slopes_table lstsq table <> ValueError names) /\
    (forall sl, slopes_table lstsq table = Ok sl ->
       NoDup (map sl_course sl) /\
       StronglySorted
         (fun s t => z_score_slope_per_year t <= z_score_slope_per_year s) sl /\
       (forall g, In g (map sl_course sl) <->
          In g (map c_course table) /\ (2 <= course_years table g)%nat) /\
       (forall s, In s sl ->
          let rows := course_rows table (sl_course s) in
          let x := map (fun r => IZR (c_year r)) rows in
          sl_years s = course_years table (sl_course s) /\
          ssd x <> 0 /\
          z_score_slope_per_year s = scd x (map c_z_score rows) / ssd x /\
          (forall a b,
             (forall r, In r rows -> c_z_score r = a * IZR (c_year r) + b) ->
             z_score_slope_per_year s = a))).
Proof.
  intros lstsq table.
  set (keys := group_keys string_dec String.leb c_course table).
  set (kept := filter (fun g => negb (course_years table g <? 2)%nat) keys).
  assert (Hslopes : course_slopes lstsq table = map (slope_of lstsq table) kept)
    by apply course_slopes_eq.
  assert (Hkept : forall g, In g kept <->
            In g (map c_course table) /\ (2 <= course_years table g)%nat).
  { intros g. unfold kept, keys.
    rewrite filter_In, group_keys_In, negb_true_iff, Nat.ltb_ge. reflexivity. }
  assert (Hcourse : map sl_course (map (slope_of lstsq table) kept) = kept).
  { rewrite map_map. cbn [slope_of sl_course]. apply map_id. }
  split; [|split].
  - unfold slopes_table. rewrite Hslopes. split.
    + intros H r Hr.
      destruct (Nat.lt_ge_cases (course_years table (c_course r)) 2) as [|Hge];
        auto.
      assert (Hin : In (c_course r) kept)
        by (apply Hkept; split; auto; now apply in_map).
      destruct kept; [destruct Hin | discriminate].
    + intros H. destruct kept as [|g ks]; [reflexivity|]. exfalso.
      assert (Hin : In g (g :: ks)) by now left.
      apply Hkept in Hin as [Hin Hge].
      apply in_map_iff in Hin as (r & <- & Hr). specialize (H r Hr). lia.
  - intros names. unfold slopes_table.
    destruct (course_slopes lstsq table); discriminate.
  - intros sl Hok. unfold slopes_table in Hok. rewrite Hslopes in Hok.
    assert (Hsl : sl = sort_by
                    (fun a b => Rleb (z_score_slope_per_year b)
                                     (z_score_slope_per_year a))
                    (map (slope_of lstsq table) kept)).
    { destruct (map (slope_of lstsq table) kept); [discriminate|].
      now injection Hok as <-. }
    assert (Hperm : Permutation (map (slope_of lstsq table) kept) sl)
      by (rewrite Hsl; apply sort_by_perm).
    assert (Hcourses : Permutation kept (map sl_course sl)).
    { rewrite <- Hcourse at 1. now apply Permutation_map. }
    split; [|split; [|split]].
    + eapply Permutation_NoDup; [exact Hcourses|].
      unfold kept, keys. apply NoDup_filter, group_keys_NoDup.
    + rewrite Hsl.
      apply (StronglySorted_impl
               (fun a b => Rleb (z_score_slope_per_year b)
                                (z_score_slope_per_year a) = true)).
      * intros a b. apply Rleb_true.
      * apply sort_by_strongly_sorted.
        -- intros a b. apply desc_total.
        -- intros a b c. apply desc_trans.
    + intros g. rewrite <- Hkept. split; apply Permutation_in; auto.
      now symmetry.
    + intros s Hs rows x.
      apply (Permutation_in _ (Permutation_sym Hperm)) in Hs.
      apply in_map_iff in Hs as (g & <- & Hg).
      apply Hkept in Hg as [_ Hge].
      cbn [slope_of sl_course sl_years] in *.
      destruct (slope_of_value lstsq table g Hge) as [Hx Hval].
      split; [reflexivity|]. split; [exact Hx|]. split; [exact Hval|].
      intros a b Hline. rewrite Hval.
      assert (Hne : course_rows table g <> []).
      { intros E. unfold course_years in Hge. rewrite E in Hge.
        simpl in Hge. lia. }
      assert (Hz : map c_z_score (course_rows table g)
                   = map (fun r => a * IZR (c_year r) + b) (course_rows table g))
        by (apply map_ext_in; exact Hline).
      rewrite Hz, scd_affine by exact Hne. field. exact Hx.
Qed.

(** X26. Without an explicit focus list, raising [top_k] only appends
    groups: what [select_focus_groups] returns for a [top_k] that is not
    negative is the beginning of what it returns for any larger one. *)
Theorem focus_groups_grow_with_top_k :
  forall tbl top_k larger_k min_years,
    (0 <= top_k <= larger_k)%Z ->
    exists rest,
      select_focus_groups tbl larger_k min_years None
      = select_focus_groups tbl top_k min_years None ++ rest.
Proof.
  intros tbl k k' m Hk. unfold select_focus_groups.
  set (sorted := sort_by by_avg_z_years _).
  unfold head.
  destruct (Z.leb_spec 0 k); [|lia]. destruct (Z.leb_spec 0 k'); [|lia].
  exists (map f_group (skipn (Z.to_nat k) (firstn (Z.to_nat k') sorted))).
  rewrite <- map_app. f_equal.
  rewrite <- (firstn_skipn (Z.to_nat k) (firstn (Z.to_nat k') sorted)) at 1.
  f_equal. rewrite firstn_firstn. f_equal. lia.
Qed.

Lemma focus_groups_grow_with_top_k_witness :
  exists rest,
    select_focus_groups RelativePerformanceSamples.bump_scores 2 2 None
    = select_focus_groups RelativePerformanceSamples.bump_scores 1 2 None
      ++ rest.
Proof.
  apply focus_groups_grow_with_top_k. lia.
Defined.

End RelativePerformanceReportTheorems.

(** ** More about the university comparison frame *)

Module UniversityLoadFacts.
Import Frame FrameFacts FrameListFacts.
Import UniversityComparison UniversityComparisonFacts.
Import UniversityComparisonMeasures.

Lemma apply_filters_In csv ys ye unis cats r :
  In r (apply_filters csv ys ye unis cats) <->
  In r csv /\ year_between ys ye r = true /\
  listed unis (university r) /\ listed cats (course_category r).
Proof.
  unfold apply_filters, listed.
  destruct unis as [[|u us]|], cats as [[|c cs]|];
    rewrite ?filter_In; tauto.
Qed.

Lemma apply_filters_fixed l ys ye unis cats :
  (forall r, In r l ->
     year_between ys ye r = true /\
     listed unis (university r) /\ listed cats (course_category r)) ->
  apply_filters l ys ye unis cats = l.
Proof.
  intros H. unfold apply_filters.
  rewrite (filter_all (year_between ys ye)) by (intros r Hr; apply H; auto).
  assert (Hu : match unis with
               | Some (u :: us) =>
                   filter (fun r => isin (university r) (u :: us)) l
               | _ => l
               end = l).
  { destruct unis as [[|u us]|]; auto.
    apply filter_all. intros r Hr. apply H in Hr. tauto. }
  rewrite Hu.
  destruct cats as [[|c cs]|]; auto.
  apply filter_all. intros r Hr. apply H in Hr. tauto.
Qed.

Lemma load_data_In csv ys ye unis cats r :
  In r (load_data csv ys ye unis cats) <->
  In r (apply_filters csv ys ye unis cats) /\
  exists u, university r = Some u /\
            (MIN_RECORDS <= rows_of u (apply_filters csv ys ye unis cats))%nat.
Proof.
  unfold load_data. rewrite filter_In, isin_true.
  split; intros [H1 (u & Hu & Hm)]; split; auto; exists u; split; auto;
    now apply major_unis_spec.
Qed.

(** Counting the rows of a university, one row at a time. *)
Lemma rows_of_step r df u :
  rows_of u (r :: df)
  = ((if isin (university r) [u] then 1 else 0) + rows_of u df)%nat.
Proof.
  unfold rows_of, count_of, isin. simpl.
  destruct (university r) as [s|]; simpl; auto.
  destruct (string_dec s u) as [E|Hn]; destruct (string_dec u s) as [E'|Hn'];
    try congruence; auto.
Qed.

Lemma rows_of_filter_le (p : record -> bool) df u :
  (rows_of u (filter p df) <= rows_of u df)%nat.
Proof.
  induction df as [|r df IH]; simpl; [lia|].
  destruct (p r); rewrite !rows_of_step; lia.
Qed.

Lemma rows_of_major_filter (L : list string) df u :
  In u L ->
  rows_of u (filter (fun r => isin (university r) L) df) = rows_of u df.
Proof.
  intros Hu. induction df as [|r df IH]; simpl; auto.
  destruct (isin (university r) L) eqn:E.
  - now rewrite !rows_of_step, IH.
  - rewrite rows_of_step, IH.
    destruct (isin (university r) [u]) eqn:E'; auto.
    apply isin_true in E' as (s & Hs & [<-|[]]).
    assert (isin (university r) L = true)
      by (apply isin_true; exists u; auto).
    congruence.
Qed.

Lemma year_between_widen ys ye ys' ye' r :
  (ys' <= ys)%Z -> (ye <= ye')%Z ->
  year_between ys ye r = true -> year_between ys' ye' r = true.
Proof.
  unfold year_between. destruct (year r) as [y|]; auto.
  rewrite !andb_true_iff, !Z.leb_le. lia.
Qed.

(** The frame of a narrower window is the frame of the wider one, cut to
    the narrower window. *)
Lemma apply_filters_narrow csv ys ye ys' ye' unis cats :
  (ys' <= ys)%Z -> (ye <= ye')%Z ->
  apply_filters csv ys ye unis cats
  = filter (year_between ys ye) (apply_filters csv ys' ye' unis cats).
Proof.
  intros H1 H2.
  assert (Hy : filter (year_between ys ye) (filter (year_between ys' ye') csv)
               = filter (year_between ys ye) csv).
  { apply filter_filter_implied. intros r _.
    now apply year_between_widen. }
  unfold apply_filters.
  destruct unis as [[|u us]|], cats as [[|c cs]|];
    repeat (first [ rewrite Hy
                  | rewrite (filter_swap (year_between ys ye)) ]);
    reflexivity.
Qed.

End UniversityLoadFacts.

(** ** What [load_data] keeps *)

Module UniversityLoadTheorems.
Import Frame FrameFacts FrameListFacts.
Import UniversityComparison UniversityComparisonFacts.
Import UniversityComparisonMeasures UniversityLoadFacts.

(** X18. Every row [load_data] returns is a row of the file whose year lies
    in the window and which passes the university and category filters;
    and loading again from the returned frame with the same arguments
    returns it unchanged: the rule on [MIN_RECORDS] drops nothing the second
    time. *)
Theorem load_data_idempotent :
  forall csv year_start year_end universities categories,
    let out := load_data csv year_start year_end universities categories in
    (forall r, In r out ->
       In r csv /\
       (exists y, year r = Some y /\ (year_start <= y <= year_end)%Z) /\
       listed universities (university r) /\
       listed categories (course_category r)) /\
    load_data out year_start year_end universities categories = out.
Proof.
  intros csv ys ye unis cats out.
  set (df := apply_filters csv ys ye unis cats).
  assert (Hrow : forall r, In r out ->
            In r csv /\ year_between ys ye r = true /\
            listed unis (university r) /\ listed cats (course_category r)).
  { intros r Hr. apply load_data_In in Hr as [Hr _].
    now apply apply_filters_In in Hr. }
  split.
  - intros r Hr. destruct (Hrow r Hr) as (H1 & H2 & H3 & H4).
    repeat split; auto.
    unfold year_between in H2. destruct (year r) as [y|]; [|discriminate].
    exists y. split; auto.
    apply andb_true_iff in H2 as [Ha Hb]. apply Z.leb_le in Ha, Hb. lia.
  - unfold load_data at 1.
    rewrite (apply_filters_fixed out) by (intros r Hr; apply Hrow in Hr; tauto).
    apply filter_all. intros r Hr.
    pose proof Hr as Hin. apply load_data_In in Hin as [_ (u & Hu & Hmin)].
    apply isin_true. exists u. split; auto. apply major_unis_spec.
    unfold out, load_data. fold df.
    rewrite rows_of_major_filter; auto. now apply major_unis_spec.
Qed.

(** X19. Widening the window of years never loses a row: a row returned
    for the years [year_start] to [year_end] is returned for every window
    that contains them, with the same other arguments. *)
Theorem load_data_wider_window :
  forall csv year_start year_end wider_start wider_end universities
         categories r,
    (wider_start <= year_start)%Z -> (year_end <= wider_end)%Z ->
    In r (load_data csv year_start year_end universities categories) ->
    In r (load_data csv wider_start wider_end universities categories).
Proof.
  intros csv ys ye ys' ye' unis cats r H1 H2 Hr.
  apply load_data_In in Hr as [Hdf (u & Hu & Hmin)].
  apply load_data_In. split.
  - apply apply_filters_In in Hdf as (Ha & Hb & Hc & Hd).
    apply apply_filters_In. repeat split; auto.
    now apply (year_between_widen ys ye).
  - exists u. split; auto.
    rewrite (apply_filters_narrow csv ys ye ys' ye' unis cats H1 H2) in Hmin.
    eapply Nat.le_trans; [exact Hmin|]. apply rows_of_filter_le.
Qed.

Lemma load_data_wider_window_witness :
  In (mk_record (Some 2020%Z) (Some "NUS"%string) (Some "Law"%string)
                (Some "Law"%string))
     (load_data
        (repeat (mk_record (Some 2020%Z) (Some "NUS"%string)
                           (Some "Law"%string) (Some "Law"%string)) 40)
        2015 2022 None None).
Proof.
  apply (load_data_wider_window _ 2018 2021 2015 2022 None None).
  - lia.
  - lia.
  - vm_compute. left. reflexivity.
Defined.

End UniversityLoadTheorems.

(** ** Facts about the year-over-year salary growth *)

Module UniversitySalaryGrowthFacts.
Import Frame FrameFacts Np NpFacts FrameListFacts.
Import UniversitySalaryGrowth.

Lemma keyed_In df k r :
  In (k, r) (keyed df) <->
  In r df /\ year r = Some (fst k) /\ university r = Some (snd k).
Proof.
  unfold keyed. rewrite in_flat_map. split.
  - intros (r' & Hr' & Hin).
    destruct (year r') as [y|] eqn:Ey; [|destruct Hin].
    destruct (university r') as [u|] eqn:Eu; [|destruct Hin].
    destruct Hin as [[= <- <-]|[]]. auto.
  - intros (Hr & Hy & Hu). exists r. split; auto. rewrite Hy, Hu.
    left. now destruct k.
Qed.

Lemma yearly_keys df :
  map (fun y => (y_year y, y_university y)) (yearly_salary df)
  = group_keys growth_key_eq_dec growth_key_leb fst (keyed df).
Proof.
  unfold yearly_salary, groupby. rewrite !map_map.
  cbn [y_year y_university fst snd].
  rewrite <- (map_id (group_keys _ _ _ (keyed df))) at 2.
  apply map_ext. now intros [y u].
Qed.

Lemma yearly_empty df :
  yearly_salary df = [] <->
  forall r, In r df -> year r = None \/ university r = None.
Proof.
  split.
  - intros E r Hr.
    destruct (year r) as [y|] eqn:Ey; auto.
    destruct (university r) as [u|] eqn:Eu; auto. exfalso.
    assert (Hk : In (y, u) (group_keys growth_key_eq_dec growth_key_leb fst
                              (keyed df))).
    { apply group_keys_In. apply in_map_iff. exists ((y, u), r).
      split; auto. apply keyed_In. auto. }
    rewrite <- yearly_keys, E in Hk. destruct Hk.
  - intros H.
    assert (Hk : keyed df = []).
    { destruct (keyed df) as [|[k r] t] eqn:E; auto. exfalso.
      assert (Hin : In (k, r) (keyed df)) by (rewrite E; now left).
      apply keyed_In in Hin as (Hr & Hy & Hu).
      destruct (H r Hr); congruence. }
    unfold yearly_salary, groupby, group_keys. now rewrite Hk.
Qed.

Lemma first_seen_In l u : In u (first_seen l) <-> In u l.
Proof. unfold first_seen. now rewrite <- in_rev, nodup_In, <- in_rev. Qed.

Lemma first_seen_NoDup l : NoDup (first_seen l).
Proof. unfold first_seen. apply NoDup_rev, NoDup_nodup. Qed.

(** The rows of one university in [yearly_salary]. *)
Lemma uni_data_In yearly uni r :
  In r (uni_data yearly uni) <-> In r yearly /\ y_university r = uni.
Proof.
  unfold uni_data. now rewrite sort_by_In, filter_In, String.eqb_eq.
Qed.

Lemma StronglySorted_map_inv {A B} (R : B -> B -> Prop) (f : A -> B) l :
  StronglySorted R (map f l) -> StronglySorted (fun a b => R (f a) (f b)) l.
Proof.
  induction l as [|a l IH]; intros H; [constructor|].
  simpl in H. inversion H as [|? ? Hs Hall]; subst. constructor; auto.
  rewrite Forall_forall in *. intros b Hb. apply Hall. now apply in_map.
Qed.

Lemma uni_data_years df uni :
  StronglySorted Z.lt (map y_year (uni_data (yearly_salary df) uni)).
Proof.
  set (yearly := yearly_salary df).
  set (rows := filter (fun r => String.eqb (y_university r) uni) yearly).
  assert (Hnd : NoDup (map y_year rows)).
  { assert (Hk : NoDup (map (fun y => (y_year y, y_university y)) rows)).
    { unfold rows. apply NoDup_map_filter. unfold yearly.
      rewrite yearly_keys. apply group_keys_NoDup. }
    rewrite (map_ext_in _ (fun y => (y_year y, uni))) in Hk.
    - rewrite <- (map_map y_year (fun yr => (yr, uni))) in Hk.
      now apply NoDup_map_inv in Hk.
    - intros r Hr. apply filter_In in Hr as [_ Hr].
      apply String.eqb_eq in Hr. now rewrite Hr. }
  apply strictly_sorted.
  - apply (StronglySorted_map_in (fun a b => (y_year a <=? y_year b)%Z = true));
      auto.
    apply sort_by_strongly_sorted.
    + intros a b. rewrite !Z.leb_le. lia.
    + intros a b c. rewrite !Z.leb_le. lia.
  - eapply Permutation_NoDup; [|exact Hnd].
    apply Permutation_map. apply sort_by_perm.
Qed.

(** The inner loop, column by column. *)
Lemma growth_rates_years prev l :
  map g_year (growth_rates prev l) = map y_year l.
Proof.
  revert prev. induction l as [|row rest IH]; intros prev; simpl; auto.
  now rewrite IH.
Qed.

Lemma growth_rates_university prev l r :
  In r (growth_rates prev l) ->
  exists row, In row l /\ g_university r = y_university row.
Proof.
  revert prev. induction l as [|row rest IH]; intros prev; simpl; [tauto|].
  intros [<-|H].
  - exists row. auto.
  - apply IH in H as (row' & H1 & H2). eauto.
Qed.

Lemma growth_rates_consecutive prev l l1 a b l2 :
  growth_rates prev l = l1 ++ a :: b :: l2 ->
  growth_rate b = times_100 (fdiv (fsub (salary b) (salary a)) (salary a)).
Proof.
  revert prev l1. induction l as [|row rest IH]; intros prev l1 E.
  - destruct l1; discriminate.
  - simpl in E. destruct l1 as [|x l1].
    + simpl in E. injection E as <- E.
      destruct rest as [|row2 rest']; [discriminate|].
      simpl in E. injection E as <- _. reflexivity.
    + simpl in E. injection E as _ E. eapply IH. exact E.
Qed.

Lemma last_cons {A} (x : A) l d : last (x :: l) d = last l x.
Proof.
  revert x d. induction l as [|y l IH]; intros x d; [reflexivity|].
  change (last (x :: y :: l) d) with (last (y :: l) d).
  now rewrite (IH y d), (IH y x).
Qed.

Lemma last_map_comm {A B} (f : A -> B) l d :
  f (last l d) = last (map f l) (f d).
Proof.
  revert d. induction l as [|x l IH]; intros d; [reflexivity|].
  cbn [map]. rewrite !last_cons. apply IH.
Qed.

(** From one row to the next the salary is multiplied by the growth
    factor. *)
Lemma growth_rates_compound sp l :
  sp <> 0 ->
  (forall row, In row l -> exists s, avg_salary row = Fin s /\ s <> 0) ->
  let rows := growth_rates (Some (Fin sp)) l in
  last (map salary rows) (Fin sp)
  = Fin (sp * fold_right Rmult 1 (map growth_factor rows)).
Proof.
  revert sp. induction l as [|row rest IH]; intros sp Hsp Hall rows.
  - simpl. f_equal. lra.
  - destruct (Hall row (or_introl eq_refl)) as (s & Hs & Hne).
    unfold rows. cbn [growth_rates map]. rewrite last_cons.
    cbn [salary]. rewrite Hs.
    rewrite IH; auto; [|intros r Hr; apply Hall; now right].
    f_equal. cbn [fold_right].
    set (P := fold_right Rmult 1 _). unfold growth_factor.
    cbn [growth_rate fsub fdiv]. destruct (Req_dec_T sp 0); [contradiction|].
    cbn [times_100]. field. exact Hsp.
Qed.

Lemma filter_flat_map_keyed {B} (F : string -> list B) (key : B -> string)
    ks u :
  NoDup ks ->
  (forall k r, In r (F k) -> key r = k) ->
  filter (fun r => String.eqb (key r) u) (flat_map F ks)
  = if in_dec string_dec u ks then F u else [].
Proof.
  intros Hnd Hkey. induction Hnd as [|k ks Hnin Hnd IH]; [reflexivity|].
  cbn [flat_map]. rewrite filter_app, IH.
  destruct (string_dec k u) as [->|Hne].
  - rewrite filter_all
      by (intros r Hr; apply String.eqb_eq; now apply Hkey).
    destruct (in_dec string_dec u (u :: ks)) as [_|Hn];
      [|exfalso; apply Hn; now left].
    destruct (in_dec string_dec u ks); [contradiction|]. apply app_nil_r.
  - rewrite filter_none.
    + destruct (in_dec string_dec u (k :: ks)) as [[E|Hin]|Hn];
        destruct (in_dec string_dec u ks) as [Hin'|Hn']; simpl;
        try reflexivity; try congruence; try contradiction.
      exfalso. apply Hn. now right.
    + intros r Hr. apply String.eqb_neq. rewrite (Hkey k r Hr). exact Hne.
Qed.

Lemma growth_of_data df uni :
  growth_of (growth_data df) uni
  = growth_rates None (uni_data (yearly_salary df) uni).
Proof.
  unfold growth_of, growth_data.
  rewrite filter_flat_map_keyed.
  - destruct (in_dec string_dec uni _) as [|Hn]; auto.
    destruct (uni_data (yearly_salary df) uni) as [|row rest] eqn:E; auto.
    exfalso. apply Hn. apply first_seen_In.
    assert (Hin : In row (uni_data (yearly_salary df) uni))
      by (rewrite E; now left).
    apply uni_data_In in Hin as [Hin <-]. now apply in_map.
  - apply first_seen_NoDup.
  - intros k r Hr. apply growth_rates_university in Hr as (row & Hrow & ->).
    now apply uni_data_In in Hrow.
Qed.

Lemma growth_data_empty df : growth_data df = [] <-> yearly_salary df = [].
Proof.
  split.
  - intros E. destruct (yearly_salary df) as [|row rest] eqn:Ey; auto.
    exfalso.
    pose proof (growth_of_data df (y_university row)) as H.
    rewrite E in H. cbn in H.
    assert (Hin : In row (uni_data (yearly_salary df) (y_university row))).
    { apply uni_data_In. rewrite Ey. split; auto. now left. }
    destruct (uni_data (yearly_salary df) (y_university row));
      [destruct Hin | discriminate].
  - intros E. unfold growth_data. now rewrite E.
Qed.

End UniversitySalaryGrowthFacts.

(** ** The year-over-year salary growth *)

Module UniversitySalaryGrowthTheorems.
Import Frame FrameFacts Np NpFacts FrameListFacts.
Import UniversitySalaryGrowth UniversitySalaryGrowthFacts.

(** X20. [plot_salary_growth] ends in a [KeyError] exactly when no row of
    the frame has both a year and a university.  Otherwise the rows of each
    university come in strictly increasing years; the first is the baseline
    with growth 0, every later one has the change from the row before, in
    percent of that row's salary; and when the salaries of the university
    are finite and not zero, its last salary is its first one multiplied by
    all the growth factors [1 + rate / 100]. *)
Theorem salary_growth_compounds :
  forall df,
    (plot_salary_growth df
     = RelativePerformanceIndex.KeyError ["university"%string] <->
     forall r, In r df -> year r = None \/ university r = None) /\
    (forall rows,
       plot_salary_growth df = RelativePerformanceIndex.Ok rows ->
       forall uni,
         let gu := growth_of rows uni in
         StronglySorted (fun a b => (g_year a < g_year b)%Z) gu /\
         (forall first rest, gu = first :: rest -> growth_rate first = Fin 0) /\
         (forall l1 a b l2, gu = l1 ++ a :: b :: l2 ->
            growth_rate b
            = times_100 (fdiv (fsub (salary b) (salary a)) (salary a))) /\
         (forall first rest s0,
            gu = first :: rest -> salary first = Fin s0 ->
            (forall r, In r gu -> exists s, salary r = Fin s /\ s <> 0) ->
            salary (last gu first)
            = Fin (s0 * fold_right Rmult 1 (map growth_factor gu)))).
Proof.
  intros df. split.
  - rewrite <- yearly_empty, <- growth_data_empty. unfold plot_salary_growth.
    destruct (growth_data df); split; auto; discriminate.
  - intros rows Hok uni gu.
    assert (Hrows : rows = growth_data df).
    { unfold plot_salary_growth in Hok.
      destruct (growth_data df); [discriminate | now injection Hok]. }
    assert (Hgu : gu = growth_rates None (uni_data (yearly_salary df) uni))
      by (unfold gu; rewrite Hrows; apply growth_of_data).
    set (data := uni_data (yearly_salary df) uni) in *.
    split; [|split; [|split]].
    + apply StronglySorted_map_inv. rewrite Hgu, growth_rates_years.
      apply uni_data_years.
    + intros first rest E. rewrite Hgu in E.
      destruct data as [|row data']; [discriminate|].
      simpl in E. now injection E as <- _.
    + intros l1 a b l2 E. rewrite Hgu in E.
      now apply growth_rates_consecutive in E.
    + intros first rest s0 E Hs Hall. rewrite Hgu in *.
      destruct data as [|row data']; [discriminate|].
      cbn [growth_rates] in *. injection E as <- <-.
      cbn [salary] in Hs.
      assert (Hne : s0 <> 0).
      { destruct (Hall _ (or_introl eq_refl)) as (s & Hs' & Hn).
        cbn [salary] in Hs'. congruence. }
      assert (Hdata : forall r, In r data' ->
                exists s, avg_salary r = Fin s /\ s <> 0).
      { intros r Hr.
        assert (Hmap : In (avg_salary r)
                         (map salary (growth_rates (Some (avg_salary row))
                                                   data'))).
        { clear - Hr. revert Hr. generalize (Some (avg_salary row)).
          induction data' as [|x t IH]; intros p Hin; [destruct Hin|].
          destruct Hin as [<-|H]; simpl; auto. }
        apply in_map_iff in Hmap as (g & Hg & Hin).
        destruct (Hall g (or_intror Hin)) as (s & Hs' & Hn).
        exists s. split; auto. congruence. }
      rewrite last_cons, last_map_comm. cbn [salary map fold_right].
      rewrite Hs, (growth_rates_compound s0 data' Hne Hdata).
      f_equal. set (P := fold_right Rmult 1 _). unfold growth_factor.
      cbn [growth_rate]. field.
Qed.

(** Two years of one university: 4000 and then 4400 is a growth of 10. *)
Example salary_growth_two_years :
  plot_salary_growth
    [mk_salary_record (Some 2021%Z) (Some "NUS"%string) (Some 4400)
                      (Some "Law"%string);
     mk_salary_record (Some 2020%Z) (Some "NUS"%string) (Some 4000)
                      (Some "Law"%string)]
  = RelativePerformanceIndex.Ok
      [mk_growth_row 2020 "NUS" (Fin 4000) (Fin 0) 1;
       mk_growth_row 2021 "NUS" (Fin 4400) (Fin 10) 1].
Proof.
  unfold plot_salary_growth, growth_data.
  set (df := [_; _]).
  assert (Hy : yearly_salary df
               = [mk_yearly_row 2020 "NUS" (Fin 4000) 1;
                  mk_yearly_row 2021 "NUS" (Fin 4400) 1]).
  { change (yearly_salary df)
      with [mk_yearly_row 2020 "NUS" (Fin (np_mean [4000])) 1;
            mk_yearly_row 2021 "NUS" (Fin (np_mean [4400])) 1].
    now rewrite !np_mean_single. }
  rewrite Hy.
  change (first_seen _) with ["NUS"%string].
  cbn [flat_map]. rewrite app_nil_r.
  change (uni_data _ "NUS")
    with [mk_yearly_row 2020 "NUS" (Fin 4000) 1;
          mk_yearly_row 2021 "NUS" (Fin 4400) 1].
  cbn [growth_rates y_year y_university avg_salary y_sample_size fsub fdiv].
  destruct (Req_dec_T 4000 0); [lra|]. cbn [times_100].
  replace ((4400 - 4000) / 4000 * 100) with 10 by lra.
  reflexivity.
Qed.

End UniversitySalaryGrowthTheorems.

(** ** Facts about the query-string wrappers *)

Module ApiParametersFacts.
Import Ascii.
Import ApiParameters.

Lemma empty_true s : empty s = true <-> s = EmptyString.
Proof. destruct s; simpl; split; auto; discriminate. Qed.

Lemma empty_false s : empty s = false <-> s <> EmptyString.
Proof. destruct s; simpl; split; auto; try discriminate; congruence. Qed.

Section Stripping.
Variable isspace : ascii -> bool.

Lemma lstrip_length s : (String.length (lstrip isspace s) <= String.length s)%nat.
Proof.
  induction s as [|c t IH]; simpl; [lia|].
  destruct (isspace c); simpl; lia.
Qed.

Lemma lstrip_fixed_head c t :
  lstrip isspace (String c t) = String c t -> isspace c = false.
Proof.
  simpl. destruct (isspace c); auto. intros E.
  pose proof (lstrip_length t) as H. rewrite E in H. simpl in H. lia.
Qed.

Lemma lstrip_idem s : lstrip isspace (lstrip isspace s) = lstrip isspace s.
Proof.
  induction s as [|c t IH]; simpl; auto.
  destruct (isspace c) eqn:E; auto. simpl. now rewrite E.
Qed.

Lemma rstrip_idem s : rstrip isspace (rstrip isspace s) = rstrip isspace s.
Proof.
  induction s as [|c t IH]; simpl; auto.
  destruct (rstrip isspace t) as [|d t'] eqn:Et.
  - destruct (isspace c) eqn:E; simpl; auto. now rewrite E.
  - change (rstrip isspace (String c (String d t')))
      with (match rstrip isspace (String d t') with
            | EmptyString =>
                if isspace c then EmptyString else String c EmptyString
            | String d' t'' => String c (String d' t'')
            end).
    now rewrite IH.
Qed.

Lemma rstrip_head c t :
  isspace c = false ->
  rstrip isspace (String c t) = String c (rstrip isspace t).
Proof.
  intros E. simpl. destruct (rstrip isspace t); auto. now rewrite E.
Qed.

Lemma lstrip_rstrip w :
  lstrip isspace w = w ->
  lstrip isspace (rstrip isspace w) = rstrip isspace w.
Proof.
  destruct w as [|c t]; auto. intros H.
  apply lstrip_fixed_head in H. rewrite rstrip_head by exact H.
  simpl. now rewrite H.
Qed.

Lemma strip_idem s : strip isspace (strip isspace s) = strip isspace s.
Proof.
  unfold strip.
  rewrite (lstrip_rstrip (lstrip isspace s)) by apply lstrip_idem.
  apply rstrip_idem.
Qed.

Lemma contains_lstrip c s :
  contains c s = false -> contains c (lstrip isspace s) = false.
Proof.
  induction s as [|d t IH]; simpl; auto.
  intros H. apply orb_false_iff in H as [H1 H2].
  destruct (isspace d); auto. simpl. now rewrite H1, H2.
Qed.

Lemma contains_rstrip c s :
  contains c s = false -> contains c (rstrip isspace s) = false.
Proof.
  induction s as [|d t IH]; simpl; auto.
  intros H. apply orb_false_iff in H as [H1 H2]. specialize (IH H2).
  destruct (rstrip isspace t) as [|e t'].
  - destruct (isspace d); simpl; auto. now rewrite H1.
  - change (contains c (String d (String e t')))
      with (Ascii.eqb d c || contains c (String e t')).
    now rewrite H1, IH.
Qed.

Lemma contains_strip c s :
  contains c s = false -> contains c (strip isspace s) = false.
Proof. intros H. unfold strip. now apply contains_rstrip, contains_lstrip. Qed.

(** The items [stripped_items] keeps. *)
Lemma stripped_items_In values v :
  In v (stripped_items isspace values) <->
  v <> EmptyString /\ exists w, In w values /\ v = strip isspace w.
Proof.
  unfold stripped_items. rewrite filter_In, in_map_iff, negb_true_iff,
    empty_false.
  split.
  - intros [(w & <- & Hw) Hne]. eauto.
  - intros [Hne (w & Hw & ->)]. eauto.
Qed.

Lemma stripped_items_fixed items :
  (forall v, In v items -> v <> EmptyString /\ strip isspace v = v) ->
  stripped_items isspace items = items.
Proof.
  intros H. unfold stripped_items.
  rewrite (map_ext_in _ (fun v => v)) by (intros v Hv; now apply H).
  rewrite map_id. apply FrameFacts.filter_all. intros v Hv.
  apply negb_true_iff, empty_false. now apply H.
Qed.
End Stripping.

(** Splitting at the commas. *)
Lemma split_pieces s p : In p (split s) -> contains comma p = false.
Proof.
  revert p. induction s as [|c t IH]; intros p; simpl.
  - intros [<-|[]]. reflexivity.
  - destruct (Ascii.eqb c comma) eqn:E.
    + intros [<-|H]; auto.
    + destruct (split t) as [|piece pieces].
      * intros [<-|[]]. simpl. now rewrite E.
      * intros [<-|H].
        -- simpl. rewrite E. apply IH. now left.
        -- apply IH. now right.
Qed.

Lemma split_no_comma x : contains comma x = false -> split x = [x].
Proof.
  induction x as [|c t IH]; simpl; auto.
  intros H. apply orb_false_iff in H as [H1 H2].
  now rewrite H1, (IH H2).
Qed.

Lemma split_app_comma x rest :
  contains comma x = false ->
  split (x ++ String comma rest) = x :: split rest.
Proof.
  induction x as [|c t IH]; simpl.
  - intros _. reflexivity.
  - intros H. apply orb_false_iff in H as [H1 H2].
    now rewrite H1, (IH H2).
Qed.

Lemma split_concat items :
  items <> [] ->
  (forall v, In v items -> contains comma v = false) ->
  split (String.concat (String comma EmptyString) items) = items.
Proof.
  induction items as [|x [|y r] IH]; intros Hne H; [congruence| |].
  - simpl. apply split_no_comma. apply H. now left.
  - change (String.concat (String comma EmptyString) (x :: y :: r))
      with (x ++ String comma
                   (String.concat (String comma EmptyString) (y :: r)))%string.
    rewrite split_app_comma by (apply H; now left).
    f_equal. apply IH; [discriminate|]. intros v Hv. apply H. now right.
Qed.

Lemma concat_nonempty sep x items :
  x <> EmptyString -> String.concat sep (x :: items) <> EmptyString.
Proof.
  intros Hx. destruct x as [|c t]; [congruence|].
  destruct items; simpl; discriminate.
Qed.

End ApiParametersFacts.

(** ** The query-string wrappers *)

Module ApiParametersTheorems.
Import Ascii.
Import ApiParameters ApiParametersFacts.

(** X21. [_parse_list] answers [None] only for an absent value or the
    empty string.  Every item it returns is a non-empty string without
    leading or trailing white space, and, for a string value, without a
    comma; and feeding the returned list back as a list returns it
    unchanged. *)
Theorem parse_list_items_are_clean :
  forall isspace value,
    (_parse_list isspace value = None <->
     value = Absent \/ value = Text EmptyString) /\
    (forall items, _parse_list isspace value = Some items ->
       (forall v, In v items ->
          v <> EmptyString /\ strip isspace v = v /\
          (forall s, value = Text s -> contains comma v = false)) /\
       _parse_list isspace (Items items) = Some items).
Proof.
  intros isspace value. split.
  - destruct value as [|s|l]; simpl.
    + split; auto.
    + destruct s; simpl; split; auto; try discriminate.
      intros [H|H]; discriminate.
    + split; [discriminate|]. intros [H|H]; discriminate.
  - intros items Hok.
    assert (Hin : exists values,
              items = stripped_items isspace values /\
              forall s, value = Text s ->
                        forall w, In w values -> contains comma w = false).
    { destruct value as [|s|l]; simpl in Hok; [discriminate| |].
      - destruct (empty s); [discriminate|]. injection Hok as <-.
        exists (split s). split; auto. intros s' [= <-] w Hw.
        now apply split_pieces in Hw.
      - injection Hok as <-. exists l. split; auto. discriminate. }
    destruct Hin as (values & -> & Hcomma).
    assert (Hclean : forall v, In v (stripped_items isspace values) ->
              v <> EmptyString /\ strip isspace v = v).
    { intros v Hv. apply stripped_items_In in Hv as (Hne & w & Hw & ->).
      split; auto. apply strip_idem. }
    split.
    + intros v Hv. destruct (Hclean v Hv) as [Hne Hfix].
      repeat split; auto. intros s Hs.
      apply stripped_items_In in Hv as (_ & w & Hw & ->).
      apply contains_strip. eapply Hcomma; eauto.
    + simpl. f_equal. now apply stripped_items_fixed.
Qed.

(** X22. A list of clean items survives the trip through a query string:
    joined with commas and parsed, a non-empty list of non-empty strings
    without commas and without white space at either end comes back as it
    was. *)
Theorem parse_list_round_trip :
  forall isspace items,
    items <> [] ->
    (forall v, In v items ->
       v <> EmptyString /\ strip isspace v = v /\ contains comma v = false) ->
    _parse_list isspace (Text (String.concat (String comma EmptyString) items))
    = Some items.
Proof.
  intros isspace items Hne Hclean. unfold _parse_list.
  destruct items as [|x items]; [congruence|].
  assert (Hx : x <> EmptyString) by (apply Hclean; now left).
  pose proof (concat_nonempty (String comma EmptyString) x items Hx) as Hc.
  apply empty_false in Hc. rewrite Hc. f_equal.
  rewrite split_concat; [|discriminate|intros v Hv; now apply Hclean].
  apply stripped_items_fixed. intros v Hv. apply Hclean in Hv. tauto.
Qed.

Lemma parse_list_round_trip_witness :
  _parse_list (fun c => Ascii.eqb c " "%char)
              (Text (String.concat (String comma EmptyString)
                                   ["Law"; "Business"]%string))
  = Some ["Law"; "Business"]%string.
Proof.
  apply parse_list_round_trip.
  - discriminate.
  - intros v [<-|[<-|[]]]; repeat split; try discriminate; reflexivity.
Defined.

(** Leading and trailing blanks go, empty pieces are dropped, and a string
    of separators alone gives the empty list, not [None]. *)
Example parse_list_drops_blanks :
  _parse_list (fun c => Ascii.eqb c " "%char) (Text " Law , ,Arts and Design ")
  = Some ["Law"; "Arts and Design"]%string /\
  _parse_list (fun c => Ascii.eqb c " "%char) (Text " , ") = Some [].
Proof. split; reflexivity. Qed.

(** X23. Whatever the query string holds, [relative_performance_api] never
    passes on a [min_sample_size], [top_k] or [min_years] of 0, an empty
    salary column, or a weight mode other than ["none"] and
    ["sample_size"]: a 0, an empty or an unreadable value gives way to the
    default, and an absent one too.  [tradeoff_api] has no such guard: it
    passes a readable [min_sample_size] on as it is, 0 included. *)
Theorem api_arguments_sanitised :
  forall isspace py_int params,
    let a := relative_performance_api isspace py_int params in
    let t := tradeoff_api isspace py_int params in
    min_sample_size a <> 0%Z /\ top_k a <> 0%Z /\ min_years a <> 0%Z /\
    salary_column a <> EmptyString /\
    (weight_mode a = "none"%string \/ weight_mode a = "sample_size"%string) /\
    (forall s, params "min_sample_size"%string = Some s ->
       py_int s = Some 0%Z \/ py_int s = None -> min_sample_size a = 1%Z) /\
    (params "min_sample_size"%string = None ->
       min_sample_size a = 1%Z /\ t_min_sample_size t = Some 20%Z) /\
    (forall s n, params "min_sample_size"%string = Some s ->
       s <> EmptyString -> py_int s = Some n ->
       t_min_sample_size t = Some n /\
       (n <> 0%Z -> min_sample_size a = n)).
Proof.
  intros isspace py_int params a t.
  assert (Hor : forall x d, d <> 0%Z -> or_int x d <> 0%Z).
  { intros [n|] d Hd; simpl; auto.
    destruct (Z.eqb_spec n 0); auto. }
  unfold a, t, relative_performance_api, tradeoff_api.
  cbn [min_sample_size top_k min_years salary_column weight_mode
       t_min_sample_size].
  split; [apply Hor; discriminate|].
  split; [apply Hor; discriminate|].
  split; [apply Hor; discriminate|].
  split.
  { unfold or_str, _parse_str.
    destruct (params "salary_column"%string) as [s|]; [|discriminate].
    destruct (empty s) eqn:E; [discriminate|]. rewrite E.
    now apply empty_false. }
  split.
  { destruct (in_dec string_dec _ ["none"; "sample_size"]%string)
      as [[H|[H|[]]]|_]; auto. }
  split.
  { intros s Hs Hint. unfold _parse_int. rewrite Hs.
    destruct (empty s); [reflexivity|].
    destruct Hint as [-> | ->]; reflexivity. }
  split.
  { intros Hnone. unfold _parse_int. rewrite Hnone. split; reflexivity. }
  intros s n Hs Hne Hint. unfold _parse_int. rewrite Hs.
  apply empty_false in Hne. rewrite Hne, Hint. split; [reflexivity|].
  intros Hn. simpl. destruct (Z.eqb_spec n 0); [contradiction | reflexivity].
Qed.

End ApiParametersTheorems.

(** ** Where rounding decides: facts about the binary64 embedding *)

Module Binary64Facts.
Import Binary64.
Import PrimFloat.
Local Open Scope float_scope.

Lemma zeros_firstn n l : zeros l -> zeros (firstn n l).
Proof.
  unfold zeros. rewrite !Forall_forall. intros H v Hv. apply H.
  rewrite <- (firstn_skipn n l). apply in_or_app. now left.
Qed.

Lemma zeros_skipn n l : zeros l -> zeros (skipn n l).
Proof.
  unfold zeros. rewrite !Forall_forall. intros H v Hv. apply H.
  rewrite <- (firstn_skipn n l). apply in_or_app. now right.
Qed.

Lemma sum_from_zeros l : zeros l -> sum_from 0 l = 0.
Proof.
  induction 1 as [|v l Hv _ IH]; [reflexivity|]. subst v.
  change (sum_from 0 (0 :: l)) with (sum_from 0 l). exact IH.
Qed.

Lemma add_rows_zeros r a : zeros r -> zeros a -> zeros (add_rows r a).
Proof.
  intros Hr. revert a. induction Hr as [|x r Hx Hr IH]; intros a Ha.
  - constructor.
  - destruct Ha as [|y a Hy Ha]; [now constructor|]. subst x y.
    cbn [add_rows]. constructor; [reflexivity|]. now apply IH.
Qed.

Lemma unrolled_zeros fuel r rest :
  zeros r -> zeros rest ->
  zeros (fst (unrolled fuel r rest)) /\ zeros (snd (unrolled fuel r rest)).
Proof.
  revert r rest. induction fuel as [|fuel IH]; intros r rest Hr Hrest.
  - now split.
  - cbn [unrolled]. destruct (8 <=? length rest)%nat; [|now split].
    apply IH.
    + apply add_rows_zeros; auto. now apply zeros_firstn.
    + now apply zeros_skipn.
Qed.

Lemma sum_of_eight_zeros r : zeros r -> sum_of_eight r = 0.
Proof.
  intros Hr.
  destruct r as [|r0 [|r1 [|r2 [|r3 [|r4 [|r5 [|r6 [|r7 [|r8 r]]]]]]]]];
    try (now apply sum_from_zeros).
  repeat match goal with
         | H : zeros (_ :: _) |- _ => inversion H; clear H; subst
         | H : Forall _ (_ :: _) |- _ => inversion H; clear H; subst
         end.
  reflexivity.
Qed.

Lemma block_sum_zeros a : zeros a -> block_sum a = 0.
Proof.
  intros Ha. unfold block_sum.
  destruct (length a <? 8)%nat; [now apply sum_from_zeros|].
  destruct (unrolled_zeros (length a) (firstn 8 a) (skipn 8 a))
    as [Hr Hrest]; [now apply zeros_firstn | now apply zeros_skipn |].
  cbv zeta. rewrite (sum_of_eight_zeros _ Hr). now apply sum_from_zeros.
Qed.

Lemma pairwise_sum_zeros fuel a : zeros a -> pairwise_sum fuel a = 0.
Proof.
  revert a. induction fuel as [|fuel IH]; intros a Ha.
  - now apply block_sum_zeros.
  - cbn [pairwise_sum]. destruct (length a <=? 128)%nat.
    + now apply block_sum_zeros.
    + cbv zeta. rewrite !IH by (now apply zeros_firstn || now apply zeros_skipn).
      reflexivity.
Qed.

(** The sum of an array of zeros is zero, whatever its length. *)
Lemma np_sum_zeros a : zeros a -> np_sum a = 0.
Proof. apply pairwise_sum_zeros. Qed.

End Binary64Facts.

(** ** The z-scores in binary64 *)

Module RelativePerformanceBinary64Theorems.
Import Binary64 RelativePerformanceBinary64.
Import PrimFloat.
Local Open Scope float_scope.

(** Three groups of one year with the same mean salary share the baseline
    and the z-score, whatever the salary, the floor and the weight mode
    are. *)
Lemma equal_means_share_a_score :
  forall weight_mode zscore_floor_std salary,
    exists mu sd z,
      map (fun r => (year_mean r, year_std r, z_score r))
          (score_groups weight_mode zscore_floor_std (three_alike salary))
      = [(mu, sd, z); (mu, sd, z); (mu, sd, z)].
Proof.
  intros wm fl s. eexists. eexists. eexists.
  unfold score_groups, three_alike. cbn [map year].
  reflexivity.
Qed.

(** Where the mean of the three equal salaries is computed as that salary
    itself, the deviation is 0 and the z-scores are 0, under every floor.
    ([salary - salary = 0] holds of every finite float.) *)
Lemma np_std_exact_mean salary :
  np_mean [salary; salary; salary] = salary ->
  salary - salary = 0 ->
  np_std [salary; salary; salary] = 0.
Proof.
  intros Hmean Hself. unfold np_std. rewrite Hmean. cbn [map].
  rewrite Hself. reflexivity.
Qed.

Lemma exact_mean_gives_zero_scores :
  forall zscore_floor_std salary,
    np_mean [salary; salary; salary] = salary ->
    salary - salary = 0 ->
    map (fun r => (year_mean r, year_std r, z_score r))
        (score_groups "none" zscore_floor_std (three_alike salary))
    = [(salary, 0, 0); (salary, 0, 0); (salary, 0, 0)].
Proof.
  intros fl s Hmean Hself.
  assert (Hbase : year_baseline "none" (three_alike s) 2020 = (s, 0)).
  { unfold year_baseline, three_alike.
    cbn [String.eqb Ascii.eqb Bool.eqb sub_of filter year Z.eqb Pos.eqb map
         mean_salary].
    now rewrite Hmean, np_std_exact_mean. }
  unfold three_alike in *. unfold score_groups. cbn [map year mean_salary].
  rewrite Hbase. cbn [fst snd year_mean year_std z_score]. rewrite Hself.
  unfold where_, geb. destruct (fl <=? 0); reflexivity.
Qed.

Example exact_mean_at_3000 :
  map (fun r => (year_mean r, year_std r, z_score r))
      (score_groups "none" default_floor (three_alike 3000))
  = [(3000, 0, 0); (3000, 0, 0); (3000, 0, 0)].
Proof. apply exact_mean_gives_zero_scores; vm_compute; reflexivity. Qed.

(** C3. One year, three courses of one record each, every salary
    30000000.1, the unweighted mode and the default floor 1e-9.  The mean of
    the three equal salaries comes out one unit in the last place above
    them, the deviation is 2^-28 (about 3.7e-9), which reaches the floor:
    no deviation is replaced, and the three z-scores are -1.  Their mean is
    -1 and their population deviation 0, where the claim has 0 and 1. *)
Theorem rounding_noise_passes_the_floor :
  let salary := ratio 300000001 10 in
  let out := score_groups "none" default_floor (three_alike salary) in
  let zs := map z_score out in
  map year_mean out = [next_up salary; next_up salary; next_up salary] /\
  map year_std out = [0x1p-28; 0x1p-28; 0x1p-28] /\
  map year_std_safe out = map year_std out /\
  zs = [-1; -1; -1] /\
  np_mean zs = -1 /\ np_std zs = 0.
Proof. vm_compute. repeat split. Qed.

(** The same happens with salaries of 3333.3 under a floor of 1e-13, and
    with the weights of the mode ["sample_size"]. *)
Example rounding_noise_passes_a_small_floor :
  map z_score (score_groups "none" (ratio 1 10000000000000)
                 (three_alike (ratio 33333 10)))
  = [-1; -1; -1] /\
  map z_score (score_groups "sample_size" default_floor
                 (three_alike (ratio 300000001 10)))
  = [-1; -1; -1].
Proof. vm_compute. split; reflexivity. Qed.

(** Where the mean of the equal salaries is computed exactly the deviation
    is 0 and the z-scores are 0; where it is not, the deviation is rounding
    noise, which the default floor hides for salaries of 0.1. *)
Example identical_means_in_binary64 :
  let exact := score_groups "none" default_floor (three_alike 3000) in
  let noisy := score_groups "none" default_floor (three_alike (ratio 1 10)) in
  map year_mean exact = [3000; 3000; 3000] /\
  map year_std exact = [0; 0; 0] /\
  map z_score exact = [0; 0; 0] /\
  map year_mean noisy
  = [next_up (ratio 1 10); next_up (ratio 1 10); next_up (ratio 1 10)] /\
  map year_std noisy = [0x1p-56; 0x1p-56; 0x1p-56] /\
  map z_score noisy = [0; 0; 0].
Proof. vm_compute. repeat split. Qed.

End RelativePerformanceBinary64Theorems.

(** ** The tradeoff statistics in binary64 *)

Module TradeoffBinary64Theorems.
Import Binary64 Binary64Facts TradeoffBinary64.
Import PrimFloat.
Local Open Scope float_scope.

(** C9. Three categories with the same salary average, 3333.3 or 0.1, over
    the employment averages 80, 85 and 90.  The mean of the three equal
    averages is not computed exactly, so SS_tot is a small positive number
    (3 * 2^-82 and 3 * 2^-112) and not 0: whatever line [np.polyfit]
    returns, the trendline carries an [r2] that is a float, not [None]. *)
Theorem identical_salaries_r2_is_a_number :
  forall polyfit1,
    let x := [80; 85; 90] in
    let y := [ratio 33333 10; ratio 33333 10; ratio 33333 10] in
    let y' := [ratio 1 10; ratio 1 10; ratio 1 10] in
    ss_tot y = 0x3p-82 /\ ss_tot y' = 0x3p-112 /\
    (exists t,
       fit_trendline polyfit1 true x y = Some t /\
       r2 t = Some (1 - ss_res (slope t, intercept t) x y / 0x3p-82)) /\
    (exists t,
       fit_trendline polyfit1 true x y' = Some t /\
       r2 t = Some (1 - ss_res (slope t, intercept t) x y' / 0x3p-112)).
Proof.
  intros polyfit1 x y y'.
  assert (Hy : ss_tot y = 0x3p-82) by (vm_compute; reflexivity).
  assert (Hy' : ss_tot y' = 0x3p-112) by (vm_compute; reflexivity).
  split; [exact Hy|]. split; [exact Hy'|].
  unfold fit_trendline. cbn [andb length Nat.leb].
  rewrite Hy, Hy'.
  split; eexists; (split; [reflexivity|]); cbn [r2 slope intercept];
    rewrite <- surjective_pairing; reflexivity.
Qed.

(** Averages that are whole numbers are summed exactly, and there the
    guard works: with salary averages of 4000 SS_tot is 0 and [r2] is
    [None]. *)
Example whole_salaries_r2_is_none :
  forall polyfit1,
    exists t,
      fit_trendline polyfit1 true [80; 85; 90] [4000; 4000; 4000] = Some t /\
      r2 t = None.
Proof.
  intros polyfit1. unfold fit_trendline. cbn [andb length Nat.leb].
  replace (ss_tot [4000; 4000; 4000]) with 0 by (vm_compute; reflexivity).
  eexists. split; reflexivity.
Qed.

(** X8. No weighted correlation is reported for fewer than two categories
    or when every sample size is zero.  One that is reported is the
    quotient as float64 arithmetic leaves it: nothing clips it to the range
    of a correlation, and on the two categories (96.8, 5334) and
    (88.6, 5088) of one record each it is the float next above 1. *)
Theorem weighted_correlation_is_not_clipped :
  (forall w xw yw,
     (length w < 2)%nat -> weighted_correlation w xw yw = None) /\
  (forall sizes xw yw,
     (forall n, In n sizes -> n = 0%nat) ->
     weighted_correlation (map of_nat sizes) xw yw = None) /\
  weighted_correlation [1; 1] [ratio 968 10; ratio 886 10] [5334; 5088]
  = Some (next_up 1) /\
  (1 <? next_up 1) = true.
Proof.
  split; [|split; [|split]].
  - intros w xw yw Hw. unfold weighted_correlation.
    destruct (Nat.leb_spec 2 (length w)); [lia | reflexivity].
  - intros sizes xw yw Hz. unfold weighted_correlation.
    destruct (2 <=? length (map of_nat sizes))%nat; [|reflexivity].
    rewrite np_sum_zeros; [reflexivity|].
    unfold zeros. rewrite Forall_forall. intros v Hv.
    apply in_map_iff in Hv as (n & <- & Hn). now rewrite (Hz n Hn).
  - vm_compute. reflexivity.
  - vm_compute. reflexivity.
Qed.

(** The guards [var_x > 0] and [var_y > 0] miss a constant column whose
    mean is rounded: on three categories with the salary average 0.1 the
    weighted variance is a small positive number and the coefficient
    reported is 0, where exact arithmetic has none to report. *)
Example flat_salaries_weighted_correlation :
  weighted_correlation [1; 1; 1] [80; 85; 90]
    [ratio 1 10; ratio 1 10; ratio 1 10]
  = Some 0.
Proof. vm_compute. reflexivity. Qed.

End TradeoffBinary64Theorems.
